(** * Process supervision in [server/q-cli.js]

    A shallow embedding of [spawnQ] and [abortQSession], the two functions
    exported by [server/q-cli.js], together with the part of the Node.js
    runtime they talk to: the [activeQProcesses] map, child-process
    objects, the file system under the working directory, the console,
    the timer queue and the WebSocket handed to [spawnQ].

    Conventions.
    - A JavaScript string is a Rocq [string] holding its UTF-8 bytes.
    - [undefined] is [None]; a value that is tested for truthiness keeps
      the test written out ([truthy], [truthy_opt]).
    - [path.join] is the "/"-separated concatenation of its arguments: the
      working directory is taken as a path in normal form ([normal_form]:
      no empty segment, no "." or "..", no "/" at the end). For such a
      directory the concatenation is what [path.join] returns, which is
      proved against the function in full ([Path.join]); for another one
      the directories and files of the model are the code's under other
      names.
    - Every call into the runtime whose outcome the source cannot decide
      (does [fs.mkdir] fail, is the socket open, what time is it, does
      the operating system deliver a signal) reads that outcome from an
      explicit environment value.
    - A call of [spawnQ] runs to the end of its promise executor in one
      piece; what the listeners do afterwards is one [action] each.
      Without images the executor has no [await]: it runs inside the
      call, and the process is registered when [spawnQ] returns. With
      images it waits for [fs.mkdir] and [fs.writeFile] before it spawns,
      and what other callers do in between is not followed; a statement
      on what a caller finds right after the call is made for a call
      without images.
    - An object that several closures share (a child process) lives in
      [children] and is referred to by its index.

    Not modelled: [EPERM] as an answer to a signal, and [process.exit] at
    the end of the two [process.on] handlers. *)

From Stdlib Require Import Ascii.
From stdpp Require Import gmap strings list fin_maps pretty.

Open Scope string_scope.
Open Scope list_scope.

(** ** JavaScript strings *)

Module JS.

(** [s] used as a condition: the empty string is falsy. *)
Definition truthy (s : string) : bool :=
  match s with
  | EmptyString => false
  | String _ _ => true
  end.

(** [o] used as a condition, for a value that is a string or [undefined]. *)
Definition truthy_opt (o : option string) : bool :=
  match o with
  | Some s => truthy s
  | None => false
  end.

(** [a || b] on strings. *)
Definition or_else (a : option string) (b : string) : string :=
  match a with
  | Some s => if truthy s then s else b
  | None => b
  end.

Definition of_bytes (l : list nat) : string :=
  String.string_of_list_ascii (map Ascii.ascii_of_nat l).

Definition rev (s : string) : string :=
  String.string_of_list_ascii (List.rev (String.list_ascii_of_string s)).

(** [drop_prefix p s] is [Some rest] when [s = p ++ rest]. *)
Fixpoint drop_prefix (p s : string) : option string :=
  match p, s with
  | EmptyString, _ => Some s
  | String a p', String b s' =>
      if Ascii.eqb a b then drop_prefix p' s' else None
  | String _ _, EmptyString => None
  end.

(** The code points [String.prototype.trim] removes (WhiteSpace and
    LineTerminator of ECMA-262), each as its UTF-8 encoding:
    U+0009..U+000D, U+0020, U+00A0, U+1680, U+2000..U+200A, U+2028,
    U+2029, U+202F, U+205F, U+3000, U+FEFF. *)
Definition white_space : list string :=
  map of_bytes
    ([[9]; [10]; [11]; [12]; [13]; [32]; [194; 160]; [225; 154; 128]]
     ++ map (fun b => [226; 128; b]) (seq 128 11)
     ++ [[226; 128; 168]; [226; 128; 169]; [226; 128; 175];
         [226; 129; 159]; [227; 128; 128]; [239; 187; 191]]).

(** The line terminators, which [.] of a regular expression refuses:
    U+000A, U+000D, U+2028, U+2029. *)
Definition line_terminators : list string :=
  map of_bytes [[10]; [13]; [226; 128; 168]; [226; 128; 169]].

(** Strip one leading element of [encs] from [s], if there is one. *)
Fixpoint strip_one (encs : list string) (s : string) : option string :=
  match encs with
  | [] => None
  | e :: encs' =>
      match drop_prefix e s with
      | Some rest => Some rest
      | None => strip_one encs' s
      end
  end.

Fixpoint strip_go (fuel : nat) (encs : list string) (s : string) : string :=
  match fuel with
  | O => s
  | S fuel' =>
      match strip_one encs s with
      | Some rest => strip_go fuel' encs rest
      | None => s
      end
  end.

Definition trimStart (s : string) : string :=
  strip_go (String.length s) white_space s.

Definition trimEnd (s : string) : string :=
  rev (strip_go (String.length s) (map rev white_space) (rev s)).

(** [s.trim()] *)
Definition trim (s : string) : string := trimEnd (trimStart s).

(** [s.split(sep)] for a one-character separator. *)
Fixpoint split_go (sep : Ascii.ascii) (cur : string) (s : string) : list string :=
  match s with
  | EmptyString => [cur]
  | String c s' =>
      if Ascii.eqb c sep then cur :: split_go sep EmptyString s'
      else split_go sep (cur +:+ String c EmptyString) s'
  end.

Definition split (sep : Ascii.ascii) (s : string) : list string :=
  split_go sep EmptyString s.

(** [l.join(sep)] *)
Fixpoint join (sep : string) (l : list string) : string :=
  match l with
  | [] => EmptyString
  | [x] => x
  | x :: l' => x +:+ sep +:+ join sep l'
  end.

(** [l.indexOf(x)], [None] standing for -1. *)
Fixpoint indexOf (x : string) (l : list string) : option nat :=
  match l with
  | [] => None
  | y :: l' => if String.eqb y x then Some 0 else S <$> indexOf x l'
  end.

(** Does some line terminator occur in [s]? *)
Fixpoint has_line_terminator (s : string) : bool :=
  match strip_one line_terminators s with
  | Some _ => true
  | None =>
      match s with
      | EmptyString => false
      | String _ s' => has_line_terminator s'
      end
  end.

(** The longest prefix of [s] without the character [c], and what follows. *)
Fixpoint span_not (c : Ascii.ascii) (s : string) : string * string :=
  match s with
  | EmptyString => (EmptyString, EmptyString)
  | String a s' =>
      if Ascii.eqb a c then (EmptyString, s)
      else let '(p, r) := span_not c s' in (String a p, r)
  end.

(** A number in a template literal. *)
Definition dec (n : nat) : string := pretty n.
Definition decN (n : N) : string := pretty n.

(** An exit code in a template literal: [null] prints as "null". *)
Definition show_code (code : option Z) : string :=
  match code with
  | Some z => pretty z
  | None => "null"
  end.

End JS.

(** ** Paths *)

(** [path.join(a, b, ...)] as the module uses it: a working directory in
    normal form, joined with names that hold no "/". There it is the
    concatenation with "/" ([Path.join], below, is the function in
    full). *)
Definition path_join (segs : list string) : string := JS.join "/" segs.

(** The POSIX [path] module of Node.js. *)
Module Path.

(** A segment that is neither empty nor "." nor "..". *)
Definition ordinary (seg : string) : bool :=
  negb (String.eqb seg "" || String.eqb seg "." || String.eqb seg "..").

(** [normalizeString(path, allowAboveRoot, '/', isPosixPathSeparator)] on
    the segments between the separators. [res] holds the segments kept
    so far, the last one first: an empty segment and "." are skipped,
    ".." takes the last segment away unless there is none or it is ".."
    itself, and is then kept only if [allowAboveRoot]. *)
Fixpoint normalizeString (allowAboveRoot : bool) (res : list string) (segs : list string)
    : list string :=
  match segs with
  | [] => List.rev res
  | seg :: segs' =>
      if String.eqb seg "" || String.eqb seg "." then normalizeString allowAboveRoot res segs'
      else if String.eqb seg ".." then
        match res with
        | last :: res' =>
            if negb (String.eqb last "..") then normalizeString allowAboveRoot res' segs'
            else if allowAboveRoot then normalizeString allowAboveRoot (".." :: res) segs'
            else normalizeString allowAboveRoot res segs'
        | [] =>
            if allowAboveRoot then normalizeString allowAboveRoot [".."] segs'
            else normalizeString allowAboveRoot [] segs'
        end
      else normalizeString allowAboveRoot (seg :: res) segs'
  end.

Definition starts_with_slash (path : string) : bool :=
  match path with
  | String c _ => Ascii.eqb c "/"%char
  | EmptyString => false
  end.

Fixpoint ends_with_slash (path : string) : bool :=
  match path with
  | EmptyString => false
  | String c EmptyString => Ascii.eqb c "/"%char
  | String _ path' => ends_with_slash path'
  end.

(** [path.normalize(path)] *)
Definition normalize (path : string) : string :=
  if negb (JS.truthy path) then "."
  else
    let isAbsolute := starts_with_slash path in
    let trailingSeparator := ends_with_slash path in
    let path := JS.join "/" (normalizeString (negb isAbsolute) [] (JS.split "/"%char path)) in
    if negb (JS.truthy path) then
      if isAbsolute then "/" else if trailingSeparator then "./" else "."
    else
      let path := if trailingSeparator then path +:+ "/" else path in
      if isAbsolute then "/" +:+ path else path.

(** [path.join(...args)] *)
Definition join (args : list string) : string :=
  match filter (fun arg => Is_true (JS.truthy arg)) args with
  | [] => "."
  | joined => normalize (JS.join "/" joined)
  end.

End Path.

(** A path as [path.normalize] leaves it, without a trailing "/": after
    an optional leading "/", segments that are neither empty nor "." nor
    "..". *)
Definition normal_form (path : string) : bool :=
  match JS.split "/"%char path with
  | EmptyString :: ((_ :: _) as segs) => forallb Path.ordinary segs
  | segs => forallb Path.ordinary segs
  end.

(** [image.data.match(/^data:([^;]+);base64,(.+)$/)]: the two captured
    groups, or [None] when the string does not match. The first group
    cannot hold a ";", so it ends at the first ";" after "data:"; the
    second runs to the end of the string and holds no line terminator. *)
Definition match_data_url (data : string) : option (string * string) :=
  match JS.drop_prefix "data:" data with
  | None => None
  | Some rest =>
      let '(mimeType, tail) := JS.span_not ";"%char rest in
      if JS.truthy mimeType then
        match JS.drop_prefix ";base64," tail with
        | None => None
        | Some base64Data =>
            if JS.truthy base64Data && negb (JS.has_line_terminator base64Data)
            then Some (mimeType, base64Data)
            else None
        end
      else None
  end.

(** [mimeType.split('/')[1] || 'png'] *)
Definition extension_of (mimeType : string) : string :=
  JS.or_else (JS.split "/"%char mimeType !! 1%nat) "png".


(** The path itself and every proper ancestor below the root, shortest
    first: what [fs.mkdir(path, { recursive: true })] makes sure exists. *)
Fixpoint path_prefixes_go (cur : string) (s : string) : list string :=
  match s with
  | EmptyString => if JS.truthy cur then [cur] else []
  | String c s' =>
      if Ascii.eqb c "/"%char
      then (if JS.truthy cur then [cur] else [])
             ++ path_prefixes_go (cur +:+ "/") s'
      else path_prefixes_go (cur +:+ String c EmptyString) s'
  end.

Definition path_prefixes (p : string) : list string :=
  path_prefixes_go EmptyString p.

(** Is [p] the directory [d] or something below it? *)
Definition under (d p : string) : bool :=
  String.eqb p d || String.prefix (d +:+ "/") p.

(** ** The request handed to [spawnQ] *)

(** One entry of [options.images]; [spawnQ] reads no other field. *)
Record image := { data : string }.

Record tools_settings := {
  allowedTools : list string;
  disallowedTools : list string;
  skipPermissions : bool
}.

(** The [options] object, one field per name [spawnQ] destructures. *)
Record options := {
  sessionId : option string;
  projectPath : option string;
  cwd : option string;
  resume : option bool;
  toolsSettings : option tools_settings;
  permissionMode : option string;
  images : option (list image)
}.

(** ** The runtime *)

Inductive signal := SIGTERM | SIGKILL.

(** What [spawn(file, args, { cwd, stdio, env })] was called with. *)
Record spawn_request := {
  file : string;
  args : list string;
  spawn_cwd : string;
  stdio : list string;
  env : gmap string string
}.

(** A [ChildProcess] object. [handle] says that the runtime still holds
    the operating-system process ([_handle] is not null); [killed] is the
    property of that name, which [kill] sets once a signal was sent;
    [signals] lists the signals sent so far, oldest first. *)
Record child := {
  request : spawn_request;
  handle : bool;
  killed : bool;
  signals : list signal
}.

(** The callback [abortQSession] leaves with [setTimeout]: its delay and
    the two variables it closes over. *)
Record timer := {
  delay : N;
  timer_process : nat;
  timer_session : string
}.

Inductive console_line :=
| ConsoleLog (parts : list string)
| ConsoleError (parts : list string).

(** What [fs.writeFile] was given: [Buffer.from(payload, 'base64')]. *)
Inductive file_content := FromBase64 (payload : string).

(** Everything the module shares between calls: the [activeQProcesses]
    map (a child is referred to by its index in [children], the objects
    in allocation order), the file system, the console and the pending
    timers. *)
Record world := {
  activeQProcesses : gmap string nat;
  children : list child;
  dirs : gset string;
  files : gmap string file_content;
  console : list console_line;
  timers : list timer
}.

Definition set_registry (m : gmap string nat) (w : world) : world :=
  {| activeQProcesses := m; children := children w; dirs := dirs w;
     files := files w; console := console w; timers := timers w |}.

Definition set_children (cs : list child) (w : world) : world :=
  {| activeQProcesses := activeQProcesses w; children := cs; dirs := dirs w;
     files := files w; console := console w; timers := timers w |}.

Definition set_fs (d : gset string) (f : gmap string file_content) (w : world) : world :=
  {| activeQProcesses := activeQProcesses w; children := children w; dirs := d;
     files := f; console := console w; timers := timers w |}.

Definition set_timers (ts : list timer) (w : world) : world :=
  {| activeQProcesses := activeQProcesses w; children := children w; dirs := dirs w;
     files := files w; console := console w; timers := ts |}.

Definition print (l : console_line) (w : world) : world :=
  {| activeQProcesses := activeQProcesses w; children := children w; dirs := dirs w;
     files := files w; console := console w ++ [l]; timers := timers w |}.

(** A call that may throw. *)
Inductive outcome (A : Type) :=
| Ok (a : A)
| Throw (message : string).
Arguments Ok {A} a.
Arguments Throw {A} message.

(** [fs.mkdir(path, { recursive: true })]; [ok] is whether the operating
    system lets it succeed. *)
Definition mkdir_recursive (ok : bool) (path : string) (w : world) : outcome unit * world :=
  if ok then (Ok (), set_fs (dirs w ∪ list_to_set (path_prefixes path)) (files w) w)
  else (Throw ("EACCES: permission denied, mkdir '" +:+ path +:+ "'"), w).

(** [fs.writeFile(path, buffer)] *)
Definition writeFile (ok : bool) (path : string) (c : file_content) (w : world) : outcome unit * world :=
  if ok then (Ok (), set_fs (dirs w) (<[path := c]> (files w)) w)
  else (Throw ("EIO: i/o error, open '" +:+ path +:+ "'"), w).

(** [fs.rmdir(path, { recursive: true }).catch(err => console.error(...))];
    the listeners do not wait for it, and nothing they do afterwards
    looks at the file system, so it is taken to finish at once. *)
Definition rmdir_recursive (ok : bool) (path : string) (w : world) : world :=
  if ok
  then set_fs (filter (fun p => ¬ Is_true (under path p)) (dirs w))
              (filter (fun kv => ¬ Is_true (under path kv.1)) (files w)) w
  else print (ConsoleError ["Error cleaning up temp images:"; "rmdir '" +:+ path +:+ "'"]) w.

(** [ChildProcess.prototype.kill(signal)]. [os] is what the operating
    system answers to the signal:
    - no process object any more: nothing is sent, the result is [false];
    - [UV_OK]: the signal was sent, [killed] becomes [true], the result is [true];
    - [UV_ESRCH]: the process is already gone, the result is [false];
    - [UV_EINVAL]: the platform refuses the signal and [kill] throws. *)
Inductive uv_status := UV_OK | UV_ESRCH | UV_EINVAL.

Definition kill (os : uv_status) (sig : signal) (c : child) : outcome bool * child :=
  if handle c then
    match os with
    | UV_OK =>
        (Ok true,
         {| request := request c; handle := handle c; killed := true;
            signals := signals c ++ [sig] |})
    | UV_ESRCH => (Ok false, c)
    | UV_EINVAL => (Throw "kill EINVAL", c)
    end
  else (Ok false, c).

(** The runtime lets go of the process when it has exited or could not
    be started, before it calls the 'close' or 'error' listeners. *)
Definition release (c : child) : child :=
  {| request := request c; handle := false; killed := killed c; signals := signals c |}.

(** ** Messages to the WebSocket *)

Inductive message_type := session_created | q_output | q_error | q_complete.

(** The object given to [JSON.stringify]; a field the source does not
    write, or writes as [undefined], is [None] (it is left out of the
    JSON text). [exitCode] may be [null], the inner [None]. [timestamp]
    is the instant of [new Date()], in milliseconds. *)
Record ws_message := {
  type : message_type;
  msg_sessionId : option string;
  msg_data : option string;
  msg_error : option string;
  msg_exitCode : option (option Z);
  timestamp : N
}.

(** What the runtime looks like at one instant: the clock, the socket's
    [readyState], whether [ws.send] would throw, and whether a recursive
    [fs.rmdir] started now succeeds. *)
Record tick := {
  at_time : N;
  readyState : N;
  send_throws : bool;
  rmdir_ok : bool
}.

Inductive settlement :=
| Pending
| Resolved (output : string) (session : option string)
| Rejected (message : string).

(** The variables of one call of [spawnQ] that its listeners close over,
    the promise it returned, whether a socket was passed ([ws]) and the
    messages that socket accepted from this call, oldest first. *)
Record run := {
  capturedSessionId : option string;
  sessionCreatedSent : bool;
  tempDir : option string;
  tempImagePaths : list string;
  qProcess : nat;
  outputBuffer : string;
  errorBuffer : string;
  promise : settlement;
  ws : bool;
  sent : list ws_message
}.

Definition set_buffers (out err : string) (r : run) : run :=
  {| capturedSessionId := capturedSessionId r; sessionCreatedSent := sessionCreatedSent r;
     tempDir := tempDir r; tempImagePaths := tempImagePaths r; qProcess := qProcess r;
     outputBuffer := out; errorBuffer := err; promise := promise r; ws := ws r;
     sent := sent r |}.

Definition set_sent (created : bool) (ms : list ws_message) (r : run) : run :=
  {| capturedSessionId := capturedSessionId r; sessionCreatedSent := created;
     tempDir := tempDir r; tempImagePaths := tempImagePaths r; qProcess := qProcess r;
     outputBuffer := outputBuffer r; errorBuffer := errorBuffer r; promise := promise r;
     ws := ws r; sent := ms |}.

(** [resolve] and [reject] settle a promise once; later calls do nothing. *)
Definition settle (s : settlement) (r : run) : run :=
  {| capturedSessionId := capturedSessionId r; sessionCreatedSent := sessionCreatedSent r;
     tempDir := tempDir r; tempImagePaths := tempImagePaths r; qProcess := qProcess r;
     outputBuffer := outputBuffer r; errorBuffer := errorBuffer r;
     promise := match promise r with Pending => s | p => p end;
     ws := ws r; sent := sent r |}.

(** [ws && ws.readyState === 1] *)
Definition ws_open (r : run) (t : tick) : bool :=
  ws r && (readyState t =? 1)%N.

(** [try { ws.send(JSON.stringify(m)) } catch (error) { console.error(label, error) }]
    under the guard [ws_open]. *)
Definition ws_send (t : tick) (m : ws_message) (label : string) (rw : run * world) : run * world :=
  let '(r, w) := rw in
  if ws_open r t then
    if send_throws t
    then (r, print (ConsoleError [label; "send failed"]) w)
    else (set_sent (sessionCreatedSent r) (sent r ++ [m]) r, w)
  else (r, w).

(** ** [spawnQ]: from the call to the end of the promise executor *)

(** What one call of [spawnQ] reads from the runtime before it returns. *)
Record start_env := {
  process_cwd : string;
  process_env : gmap string string;
  staged_at : N;
  mkdir_ok : bool;
  write_ok : nat -> bool;
  created : tick
}.

Definition nl : string := JS.of_bytes [10].

(** The body of the [for] loop over [images.entries()]. *)
Definition stage_one (dir : string) (ok : bool) (index : nat) (img : image)
    (paths : list string) (w : world) : outcome unit * (list string * world) :=
  match match_data_url (data img) with
  | None => (Ok (), (paths, print (ConsoleError ["Invalid image data format"]) w))
  | Some (mimeType, base64Data) =>
      let extension := extension_of mimeType in
      let filename := "image_" +:+ JS.dec index +:+ "." +:+ extension in
      let filepath := path_join [dir; filename] in
      match writeFile ok filepath (FromBase64 base64Data) w with
      | (Ok _, w') => (Ok (), (paths ++ [filepath], w'))
      | (Throw e, w') => (Throw e, (paths, w'))
      end
  end.

Fixpoint stage_images (dir : string) (ok : nat -> bool) (index : nat) (imgs : list image)
    (paths : list string) (w : world) : outcome unit * (list string * world) :=
  match imgs with
  | [] => (Ok (), (paths, w))
  | img :: rest =>
      match stage_one dir (ok index) index img paths w with
      | (Ok _, (paths', w')) => stage_images dir ok (S index) rest paths' w'
      | (Throw e, pw) => (Throw e, pw)
      end
  end.

Definition image_note (paths : list string) : string :=
  nl +:+ nl +:+ "[Images provided at the following paths:]" +:+ nl
  +:+ JS.join nl (imap (fun i p => JS.dec (i + 1) +:+ ". " +:+ p) paths).

(** [command && command.trim()] as a condition. *)
Definition has_prompt (command : string) : bool :=
  JS.truthy command && JS.truthy (JS.trim command).

(** Lines 63 to 73: the note is built and written over the argument that
    follows '--message', when there is one. *)
Definition include_image_paths (command : string) (paths : list string)
    (args : list string) : list string :=
  if (0 <? length paths)%nat && has_prompt command then
    let imageNote := image_note paths in
    let modifiedCommand := command +:+ imageNote in
    match JS.indexOf "--message" args with
    | Some messageIndex =>
        match args !! (messageIndex + 1)%nat with
        | Some a =>
            if JS.truthy a then <[(messageIndex + 1)%nat := modifiedCommand]> args else args
        | None => args
        end
    | None => args
    end
  else args.

(** Lines 35 to 78: the images are written below the working directory.
    The result is [tempDir], [tempImagePaths], [args] and the world. *)
Definition process_images (command workingDir : string) (imgs : option (list image))
    (e : start_env) (args : list string) (w : world)
    : option string * list string * list string * world :=
  match imgs with
  | Some ((_ :: _) as l) =>
      let dir := path_join [workingDir; ".tmp"; "images"; JS.decN (staged_at e)] in
      match mkdir_recursive (mkdir_ok e) dir w with
      | (Throw err, w1) =>
          (Some dir, [], args, print (ConsoleError ["Error processing images for Q:"; err]) w1)
      | (Ok _, w1) =>
          match stage_images dir (write_ok e) 0 l [] w1 with
          | (Throw err, (paths, w2)) =>
              (Some dir, paths, args,
               print (ConsoleError ["Error processing images for Q:"; err]) w2)
          | (Ok _, (paths, w2)) =>
              (Some dir, paths, include_image_paths command paths args, w2)
          end
      end
  | _ => (None, [], args, w)
  end.

(** The arguments [spawn] is called with. *)
Definition child_request (args : list string) (workingDir : string) (e : start_env) : spawn_request :=
  {| file := "q";
     args := args;
     spawn_cwd := workingDir;
     stdio := ["pipe"; "pipe"; "pipe"];
     env := <["NO_COLOR" := "1"]> (<["FORCE_COLOR" := "0"]> (process_env e)) |}.

(** [activeQProcesses.set(capturedSessionId, qProcess)] under its guard. *)
Definition store_process (sid : option string) (p : nat) (w : world) : world :=
  match sid with
  | Some s => if JS.truthy s then set_registry (<[s := p]> (activeQProcesses w)) w else w
  | None => w
  end.

(** Lines 224 to 236. *)
Definition send_session_created (t : tick) (rw : run * world) : run * world :=
  let '(r, w) := rw in
  if ws_open r t && negb (sessionCreatedSent r) then
    if send_throws t
    then (r, print (ConsoleError ["Error sending session-created message:"; "send failed"]) w)
    else
      (set_sent true
         (sent r ++ [{| type := session_created;
                        msg_sessionId :=
                          Some (JS.or_else (capturedSessionId r)
                                  ("q-session-" +:+ JS.decN (at_time t)));
                        msg_data := None; msg_error := None; msg_exitCode := None;
                        timestamp := at_time t |}]) r, w)
  else (r, w).

Definition spawnQ (command : string) (o : options) (socket : bool) (e : start_env)
    (w : world) : run * world :=
  let capturedSessionId := sessionId o in
  let settings :=
    default {| allowedTools := []; disallowedTools := []; skipPermissions := false |}
            (toolsSettings o) in
  let args := ["chat"] in
  let args := if has_prompt command then args ++ [command] else args in
  let workingDir := JS.or_else (cwd o) (process_cwd e) in
  let '(tempDir, tempImagePaths, args, w) :=
    process_images command workingDir (images o) e args w in
  let args := args ++ ["--verbose"] in
  let w := print (ConsoleLog ("🚀 Spawning Q CLI with args:" :: args)) w in
  let w := print (ConsoleLog ["📁 Working directory: " +:+ workingDir]) w in
  let qProcess := length (children w) in
  let w :=
    set_children
      (children w ++ [{| request := child_request args workingDir e; handle := true;
                         killed := false; signals := [] |}]) w in
  let w := store_process capturedSessionId qProcess w in
  send_session_created (created e)
    ({| capturedSessionId := capturedSessionId; sessionCreatedSent := false;
        tempDir := tempDir; tempImagePaths := tempImagePaths; qProcess := qProcess;
        outputBuffer := ""; errorBuffer := ""; promise := Pending; ws := socket;
        sent := [] |}, w).

(** ** [spawnQ]: the listeners *)

(** "Clean up temp images" in both 'close' and 'error'. *)
Definition clean_up_temp_images (t : tick) (r : run) (w : world) : world :=
  match tempDir r with
  | Some dir => rmdir_recursive (rmdir_ok t) dir w
  | None => w
  end.

(** "Remove from active processes" in both 'close' and 'error'. *)
Definition remove_from_active (r : run) (w : world) : world :=
  match capturedSessionId r with
  | Some s => if JS.truthy s then set_registry (delete s (activeQProcesses w)) w else w
  | None => w
  end.

(** [qProcess.stdout.on('data', ...)] *)
Definition on_stdout (chunk : string) (t : tick) (rw : run * world) : run * world :=
  let '(r, w) := rw in
  let r := set_buffers (outputBuffer r +:+ chunk) (errorBuffer r) r in
  let w := print (ConsoleLog ["Q stdout:"; chunk]) w in
  ws_send t
    {| type := q_output; msg_sessionId := capturedSessionId r; msg_data := Some chunk;
       msg_error := None; msg_exitCode := None; timestamp := at_time t |}
    "Error sending WebSocket message:" (r, w).

(** [qProcess.stderr.on('data', ...)] *)
Definition on_stderr (chunk : string) (t : tick) (rw : run * world) : run * world :=
  let '(r, w) := rw in
  let r := set_buffers (outputBuffer r) (errorBuffer r +:+ chunk) r in
  let w := print (ConsoleLog ["Q stderr:"; chunk]) w in
  ws_send t
    {| type := q_error; msg_sessionId := capturedSessionId r; msg_data := Some chunk;
       msg_error := None; msg_exitCode := None; timestamp := at_time t |}
    "Error sending WebSocket error message:" (r, w).

(** [qProcess.on('close', (code) => ...)]; [code] is [null] when a signal
    ended the process. *)
Definition on_close (code : option Z) (t : tick) (rw : run * world) : run * world :=
  let '(r, w) := rw in
  let w := print (ConsoleLog ["Q process exited with code " +:+ JS.show_code code]) w in
  let w := clean_up_temp_images t r w in
  let w := remove_from_active r w in
  let '(r, w) :=
    ws_send t
      {| type := q_complete; msg_sessionId := capturedSessionId r; msg_data := None;
         msg_error := None; msg_exitCode := Some code; timestamp := at_time t |}
      "Error sending completion message:" (r, w) in
  match code with
  | Some 0%Z => (settle (Resolved (outputBuffer r) (capturedSessionId r)) r, w)
  | _ =>
      (settle (Rejected ("Q CLI exited with code " +:+ JS.show_code code +:+ ": "
                         +:+ errorBuffer r)) r, w)
  end.

(** [qProcess.on('error', (error) => ...)]; [message] is [error.message]. *)
Definition on_error (message : string) (t : tick) (rw : run * world) : run * world :=
  let '(r, w) := rw in
  let w := print (ConsoleError ["Q process error:"; message]) w in
  let w := clean_up_temp_images t r w in
  let w := remove_from_active r w in
  let '(r, w) :=
    ws_send t
      {| type := q_error; msg_sessionId := capturedSessionId r; msg_data := None;
         msg_error := Some message; msg_exitCode := None; timestamp := at_time t |}
      "Error sending WebSocket error message:" (r, w) in
  (settle (Rejected message) r, w).

(** ** [abortQSession] *)

Definition grace_period : N := 5000.

Definition abortQSession (sessionId : string) (os : uv_status) (w : world) : bool * world :=
  let w := print (ConsoleLog ["🛑 Attempting to abort Q session: " +:+ sessionId]) w in
  let not_found w :=
    (false, print (ConsoleLog ["⚠️ No active Q process found for session: " +:+ sessionId]) w) in
  match activeQProcesses w !! sessionId with
  | Some p =>
      match children w !! p with
      | Some c =>
          if negb (killed c) then
            match kill os SIGTERM c with
            | (Ok _, c') =>
                let w := set_children (<[p := c']> (children w)) w in
                let w :=
                  set_timers (timers w ++ [{| delay := grace_period; timer_process := p;
                                              timer_session := sessionId |}]) w in
                let w := set_registry (delete sessionId (activeQProcesses w)) w in
                (true, print (ConsoleLog ["✅ Q session aborted: " +:+ sessionId]) w)
            | (Throw err, _) =>
                (false,
                 print (ConsoleError ["❌ Error aborting Q session " +:+ sessionId +:+ ":"; err]) w)
            end
          else not_found w
      | None => not_found w
      end
  | None => not_found w
  end.

(** The callback of [setTimeout(..., 5000)], run by the timer queue once
    the delay has passed. *)
Definition force_kill (tm : timer) (os : uv_status) (w : world) : world :=
  match children w !! timer_process tm with
  | Some c =>
      if negb (killed c) then
        let w := print (ConsoleLog ["🔪 Force killing Q session: " +:+ timer_session tm]) w in
        set_children (<[timer_process tm := (kill os SIGKILL c).2]> (children w)) w
      else w
  | None => w
  end.

(** ** One run among the other callers of the module *)

(** What can happen after [spawnQ] has returned: the child writes to one
    of its pipes, the runtime reports its exit or its failure to start,
    somebody calls [abortQSession], or the oldest pending timer fires. *)
Inductive action :=
| StdoutData (chunk : string) (t : tick)
| StderrData (chunk : string) (t : tick)
| Close (code : option Z) (t : tick)
| Error (message : string) (t : tick)
| Abort (sessionId : string) (os : uv_status)
| TimerFires (os : uv_status).

(** The runtime lets go of this run's process. *)
Definition released (rw : run * world) : run * world :=
  let '(r, w) := rw in
  (r, set_children (alter release (qProcess r) (children w)) w).

Definition step (a : action) (rw : run * world) : run * world :=
  match a with
  | StdoutData chunk t => on_stdout chunk t rw
  | StderrData chunk t => on_stderr chunk t rw
  | Close code t => on_close code t (released rw)
  | Error message t => on_error message t (released rw)
  | Abort sessionId os => (rw.1, (abortQSession sessionId os rw.2).2)
  | TimerFires os =>
      match timers rw.2 with
      | tm :: rest => (rw.1, force_kill tm os (set_timers rest rw.2))
      | [] => rw
      end
  end.

Definition exec (trace : list action) (rw : run * world) : run * world :=
  foldl (fun rw a => step a rw) rw trace.

(** A whole run: the call, then what happens afterwards. *)
Definition run_spawnQ (command : string) (o : options) (socket : bool) (e : start_env)
    (w : world) (trace : list action) : run * world :=
  exec trace (spawnQ command o socket e w).

(** ** Vocabulary of the statements *)

#[global] Instance message_type_eq_dec : EqDecision message_type.
Proof. solve_decision. Defined.

#[global] Instance console_line_eq_dec : EqDecision console_line.
Proof. solve_decision. Defined.

(** The arguments before the images are looked at: lines 22 to 30. *)
Definition prompt_args (command : string) : list string :=
  let args := ["chat"] in
  if has_prompt command then args ++ [command] else args.

(** Line 33. *)
Definition working_dir (o : options) (e : start_env) : string :=
  JS.or_else (cwd o) (process_cwd e).

(** Line 41. *)
Definition staging_dir (o : options) (e : start_env) : string :=
  path_join [working_dir o e; ".tmp"; "images"; JS.decN (staged_at e)].

(** The child object [spawn] returns for a call of [spawnQ]. *)
Definition spawned (command : string) (o : options) (e : start_env) : child :=
  {| request := child_request (prompt_args command ++ ["--verbose"]) (working_dir o e) e;
     handle := true; killed := false; signals := [] |}.

(** [options.images] holds at least one entry. *)
Definition has_images (o : options) : bool :=
  match images o with
  | Some (_ :: _) => true
  | _ => false
  end.

(** Two option objects that differ at most in [resume], [toolsSettings]
    and [permissionMode]. *)
Definition same_but_flags (o1 o2 : options) : Prop :=
  sessionId o1 = sessionId o2 ∧ projectPath o1 = projectPath o2
  ∧ cwd o1 = cwd o2 ∧ images o1 = images o2.

(** The socket takes a message at [t]: it is open and [send] returns. *)
Definition sink_ready (t : tick) : bool :=
  (readyState t =? 1)%N && negb (send_throws t).

(** An action by which the process ends or fails to start. *)
Definition is_terminal (a : action) : bool :=
  match a with
  | Close _ _ | Error _ _ => true
  | _ => false
  end.

Definition is_close (a : action) : bool :=
  match a with
  | Close _ _ => true
  | _ => false
  end.

(** What the runtime reports of a process it could not start (no such
    program, no permission): [spawn] has returned the child object all
    the same, 'error' is emitted with the failure, and then 'close' with
    the negative error number as the code (-2 for ENOENT) and no signal. *)
Definition launch_failure (message : string) (t1 : tick) (errno : Z) (t2 : tick)
    : list action :=
  [Error message t1; Close (Some errno) t2].

(** The instant of an action a listener of [spawnQ] handles. *)
Definition tick_of (a : action) : option tick :=
  match a with
  | StdoutData _ t | StderrData _ t | Close _ t | Error _ t => Some t
  | Abort _ _ | TimerFires _ => None
  end.

(** The socket takes every message of the trace. *)
Definition sink_ready_throughout (trace : list action) : Prop :=
  ∀ a t, a ∈ trace → tick_of a = Some t → sink_ready t = true.

(** What the child wrote to its standard output, and to its standard
    error, over a trace. *)
Fixpoint stdout_text (trace : list action) : string :=
  match trace with
  | [] => ""
  | StdoutData chunk _ :: rest => chunk +:+ stdout_text rest
  | _ :: rest => stdout_text rest
  end.

Fixpoint stderr_text (trace : list action) : string :=
  match trace with
  | [] => ""
  | StderrData chunk _ :: rest => chunk +:+ stderr_text rest
  | _ :: rest => stderr_text rest
  end.

(** The message of lines 227 to 231. *)
Definition created_message (o : options) (t : tick) : ws_message :=
  {| type := session_created;
     msg_sessionId := Some (JS.or_else (sessionId o) ("q-session-" +:+ JS.decN (at_time t)));
     msg_data := None; msg_error := None; msg_exitCode := None;
     timestamp := at_time t |}.

(** The message a data listener builds for an action. *)
Definition chunk_message (sid : option string) (a : action) : option ws_message :=
  match a with
  | StdoutData chunk t =>
      Some {| type := q_output; msg_sessionId := sid; msg_data := Some chunk;
              msg_error := None; msg_exitCode := None; timestamp := at_time t |}
  | StderrData chunk t =>
      Some {| type := q_error; msg_sessionId := sid; msg_data := Some chunk;
              msg_error := None; msg_exitCode := None; timestamp := at_time t |}
  | _ => None
  end.

(** The message of lines 169 to 174. *)
Definition complete_message (sid : option string) (code : option Z) (t : tick) : ws_message :=
  {| type := q_complete; msg_sessionId := sid; msg_data := None; msg_error := None;
     msg_exitCode := Some code; timestamp := at_time t |}.

(** The message of lines 210 to 215. *)
Definition failure_message (sid : option string) (message : string) (t : tick) : ws_message :=
  {| type := q_error; msg_sessionId := sid; msg_data := None; msg_error := Some message;
     msg_exitCode := None; timestamp := at_time t |}.

(** The message a listener of [spawnQ] builds for an action. *)
Definition message_of (sid : option string) (a : action) : option ws_message :=
  match a with
  | Close code t => Some (complete_message sid code t)
  | Error message t => Some (failure_message sid message t)
  | _ => chunk_message sid a
  end.

(** What the socket takes of it: the message, when a socket was passed,
    is open and [send] returns. *)
Definition accepted (socket : bool) (sid : option string) (a : action) : list ws_message :=
  match tick_of a, message_of sid a with
  | Some t, Some m => if socket && sink_ready t then [m] else []
  | _, _ => []
  end.

Definition is_chunk (m : ws_message) : Prop :=
  (type m = q_output ∨ type m = q_error) ∧ is_Some (msg_data m).

(** How many messages of one type a sequence holds. *)
Definition count_type (ty : message_type) (ms : list ws_message) : nat :=
  length (filter (fun m => type m = ty) ms).

(** How often a line was printed. *)
Definition count_line (l : console_line) (ls : list console_line) : nat :=
  length (filter (fun x => x = l) ls).

(** The entries of an attachment list the regular expression accepts. *)
Definition well_formed (img : image) : bool :=
  match match_data_url (data img) with
  | Some _ => true
  | None => false
  end.

(** The entries it refuses. *)
Definition malformed (imgs : list image) : list image :=
  filter (fun img => ¬ Is_true (well_formed img)) imgs.

(** Line 49. *)
Definition diagnostic : console_line := ConsoleError ["Invalid image data format"].

(** The file the loop writes for entry [index], if it writes one. *)
Definition staged_path (dir : string) (index : nat) (img : image) : option string :=
  match match_data_url (data img) with
  | Some (mimeType, _) =>
      Some (path_join [dir; "image_" +:+ JS.dec index +:+ "." +:+ extension_of mimeType])
  | None => None
  end.

Fixpoint staged_paths (dir : string) (index : nat) (imgs : list image) : list string :=
  match imgs with
  | [] => []
  | img :: rest =>
      match staged_path dir index img with
      | Some p => p :: staged_paths dir (S index) rest
      | None => staged_paths dir (S index) rest
      end
  end.

(** No entry of the map and no pending timer refers to an object that is
    not allocated yet. *)
Definition world_ok (w : world) : Prop :=
  (∀ s p, activeQProcesses w !! s = Some p → p < length (children w))
  ∧ (∀ tm, tm ∈ timers w → timer_process tm < length (children w)).

(** The process object [q] is out of reach of [abortQSession]: no entry
    of the map and no pending timer refers to it, and it was never sent
    a signal. *)
Definition untouched (q : nat) (w : world) : Prop :=
  (∀ s, activeQProcesses w !! s ≠ Some q)
  ∧ (∀ tm, tm ∈ timers w → timer_process tm ≠ q)
  ∧ (∃ c, children w !! q = Some c ∧ signals c = [] ∧ killed c = false).

(** What a run answers its caller, read off the events of the process
    alone: the chunks up to the first 'close' or 'error' and that event. *)
Fixpoint verdict (out err : string) (sid : option string) (trace : list action) : settlement :=
  match trace with
  | [] => Pending
  | StdoutData chunk _ :: rest => verdict (out +:+ chunk) err sid rest
  | StderrData chunk _ :: rest => verdict out (err +:+ chunk) sid rest
  | Close (Some 0%Z) _ :: _ => Resolved out sid
  | Close code _ :: _ =>
      Rejected ("Q CLI exited with code " +:+ JS.show_code code +:+ ": " +:+ err)
  | Error message _ :: _ => Rejected message
  | _ :: rest => verdict out err sid rest
  end.

(** Every answer of the operating system in the trace is [UV_OK]. *)
Definition signals_delivered (a : action) : bool :=
  match a with
  | Abort _ UV_OK | TimerFires UV_OK => true
  | Abort _ _ | TimerFires _ => false
  | _ => true
  end.

(** No process was ever sent SIGKILL, and a pending timer finds its
    process signalled or gone. *)
Definition never_forced (w : world) : Prop :=
  (∀ p c, children w !! p = Some c → SIGKILL ∉ signals c)
  ∧ (∀ tm c, tm ∈ timers w → children w !! timer_process tm = Some c →
       killed c = true ∨ handle c = false).

(** Does the character occur in the string? *)
Fixpoint has_char (c : Ascii.ascii) (s : string) : bool :=
  match s with
  | EmptyString => false
  | String a s' => Ascii.eqb a c || has_char c s'
  end.

(** An action of the process of the run itself. *)
Definition is_own_event (a : action) : bool :=
  match a with
  | Abort _ _ | TimerFires _ => false
  | _ => true
  end.

Definition is_digit (c : Ascii.ascii) : bool :=
  (48 <=? Ascii.nat_of_ascii c)%nat && (Ascii.nat_of_ascii c <=? 57)%nat.

Fixpoint all_digits (s : string) : bool :=
  match s with
  | EmptyString => true
  | String a s' => is_digit a && all_digits s'
  end.

(** The name of the file written for entry [index]: line 55. *)
Definition staged_name (index : nat) (extension : string) : string :=
  "image_" +:+ JS.dec index +:+ "." +:+ extension.

(** ** The handlers of 'SIGINT' and 'SIGTERM' *)

(** The body of the loop of lines 273 to 277 and 284 to 288, for one
    entry of [activeQProcesses]. *)
Definition terminate (os : uv_status) (ow : outcome unit * world) (entry : string * nat)
    : outcome unit * world :=
  match ow with
  | (Throw err, w) => (Throw err, w)
  | (Ok _, w) =>
      match children w !! entry.2 with
      | Some c =>
          if negb (killed c) then
            match kill os SIGTERM c with
            | (Ok _, c') => (Ok (), set_children (<[entry.2 := c']> (children w)) w)
            | (Throw err, _) => (Throw err, w)
            end
          else (Ok (), w)
      | None => (Ok (), w)
      end
  end.

(** Lines 271 to 280 (and, word for word, 282 to 291): every registered
    process that has not been signalled is sent SIGTERM and the map is
    cleared; [process.exit(0)] then ends the server. An exception of
    [kill] leaves the handler before the map is cleared. The entries are
    visited in the order of [map_to_list], not in the order of insertion:
    every answer of the operating system being [os], the order does not
    show in the result. *)
Definition shutdown (os : uv_status) (w : world) : outcome unit * world :=
  let w := print (ConsoleLog ["🛑 Shutting down Q CLI processes..."]) w in
  match foldl (terminate os) (Ok (), w) (map_to_list (activeQProcesses w)) with
  | (Ok _, w') => (Ok (), set_registry ∅ w')
  | (Throw err, w') => (Throw err, w')
  end.

(** ** Scenarios *)

Module Scenario.

Definition open_at (n : N) : tick :=
  {| at_time := n; readyState := 1; send_throws := false; rmdir_ok := true |}.

(** The socket has gone ([readyState] 3, CLOSED). *)
Definition closed_at (n : N) : tick :=
  {| at_time := n; readyState := 3; send_throws := false; rmdir_ok := true |}.

Definition png : image := {| data := "data:image/png;base64,iVBORw0KGgo=" |}.

(** The payload without its "data:...;base64," prefix. *)
Definition bare : image := {| data := "iVBORw0KGgo=" |}.

(** A machine on which only "/" and "/srv" exist and nothing runs. *)
Definition idle : world :=
  {| activeQProcesses := ∅; children := []; dirs := {["/"; "/srv"]}; files := ∅;
     console := []; timers := [] |}.

Definition env : start_env :=
  {| process_cwd := "/srv"; process_env := {["PATH" := "/usr/bin"]};
     staged_at := 1700000000000; mkdir_ok := true; write_ok := fun _ => true;
     created := open_at 1700000000005 |}.

Definition request (sid : option string) (dir : option string) (imgs : option (list image))
    : options :=
  {| sessionId := sid; projectPath := None; cwd := dir; resume := None;
     toolsSettings := None; permissionMode := None; images := imgs |}.

(** One session "s1" whose process runs and has not been signalled. *)
Definition one_live : world :=
  (spawnQ "list files" (request (Some "s1") (Some "/srv") None) true env idle).2.

End Scenario.

(** * The routes on the MCP configuration

    The second part of the file: the Express router that reads and
    writes [~/.aws/amazonq/mcp.json].

    - The file is held as the value [JSON.parse] makes of it, for a file
      of the shape the routes themselves write: an object whose
      [mcpServers], if there, maps names to objects with a boolean
      [enabled], strings [command] and [url], a string array [args] and
      string maps [headers] and [env], any of them absent. Further keys
      are carried along as JSON texts. [JSON.stringify] leaves out what
      is [undefined], here [None], so that writing and reading back
      gives the same value.
    - The request body is typed the same way.
    - [Object.entries] lists the servers in the order of the keys; the
      list is given as the map from its [name] fields, without the order.
    - [config.mcpServers[name]] also finds what every object inherits
      ("constructor", "toString", "__proto__", ...), a function or an
      object and so truthy. The routes are followed through this case
      except where one writes to the inherited object, which changes the
      objects of the whole process: that is [NotModelled]. *)

Module Mcp.

Record server_config := {
  sc_enabled : option bool;
  sc_command : option string;
  sc_args : option (list string);
  sc_url : option string;
  sc_headers : option (gmap string string);
  sc_env : option (gmap string string);
  sc_other : gmap string string
}.

Record config := {
  mcpServers : option (gmap string server_config);
  rest : gmap string string
}.

(** The configuration file: not there, there but not JSON, or holding a
    configuration. *)
Inductive file := Absent | Garbled | Holds (c : config).

(** What the file system does to one request: [read_error] is an error
    of [fs.readFile] other than ENOENT, [mkdir_error] an error of
    [fs.mkdir] other than EEXIST, [write_error] an error of
    [fs.writeFile]. [fs.writeFile] opens the file with the flag 'w',
    which empties it, and then writes: [write_after_open] says that its
    error comes from the writing (ENOSPC, EIO) and not from the opening
    (EACCES, EISDIR, EROFS). *)
Record io := {
  read_error : bool;
  mkdir_error : bool;
  write_error : bool;
  write_after_open : bool
}.

Record store := {
  config_file : file;
  config_dir : bool;
  log : list console_line
}.

Definition say (l : console_line) (s : store) : store :=
  {| config_file := config_file s; config_dir := config_dir s; log := log s ++ [l] |}.

(** [getMcpConfigPath] *)
Definition getMcpConfigPath (homedir : string) : string :=
  path_join [homedir; ".aws"; "amazonq"; "mcp.json"].

(** [ensureMcpConfigDir] *)
Definition ensureMcpConfigDir (x : io) (s : store) : outcome unit * store :=
  if mkdir_error x then (Throw "EACCES: permission denied, mkdir", s)
  else (Ok (), {| config_file := config_file s; config_dir := true; log := log s |}).

(** [readMcpConfig] *)
Definition readMcpConfig (x : io) (s : store) : outcome config :=
  if read_error x then Throw "EACCES: permission denied, open"
  else
    match config_file s with
    | Absent => Ok {| mcpServers := Some ∅; rest := ∅ |}
    | Garbled => Throw "Unexpected token in JSON"
    | Holds c => Ok c
    end.

(** [writeMcpConfig]. A write that fails after the file was opened
    leaves it empty or with the beginning of the text, which is not JSON
    in either case: the text is one object, closed by its last
    character. *)
Definition writeMcpConfig (x : io) (c : config) (s : store) : outcome unit * store :=
  match ensureMcpConfigDir x s with
  | (Throw err, s') => (Throw err, s')
  | (Ok _, s') =>
      if write_error x then
        if write_after_open x
        then (Throw "ENOSPC: no space left on device, write",
              {| config_file := Garbled; config_dir := config_dir s'; log := log s' |})
        else (Throw "EACCES: permission denied, open", s')
      else (Ok (), {| config_file := Holds c; config_dir := config_dir s'; log := log s' |})
  end.

(** A server in the format of the API: lines 355 to 364 and 534 to 543. *)
Record api_server := {
  as_name : string;
  as_type : string;
  as_command : option string;
  as_args : list string;
  as_url : option string;
  as_headers : gmap string string;
  as_env : gmap string string;
  as_enabled : bool
}.

Definition to_api (name : string) (sc : server_config) : api_server :=
  {| as_name := name;
     as_type := if JS.truthy_opt (sc_command sc) then "stdio" else "sse";
     as_command := sc_command sc;
     as_args := default [] (sc_args sc);
     as_url := sc_url sc;
     as_headers := default ∅ (sc_headers sc);
     as_env := default ∅ (sc_env sc);
     as_enabled := match sc_enabled sc with Some false => false | _ => true end |}.

(** What [to_api] makes of an inherited function or object: none of the
    fields is there. *)
Definition phantom (name : string) : api_server :=
  {| as_name := name; as_type := "sse"; as_command := None; as_args := [];
     as_url := None; as_headers := ∅; as_env := ∅; as_enabled := true |}.

(** The body of a request, each field as sent or [undefined]. *)
Record server_body := {
  b_name : option string;
  b_type : option string;
  b_command : option string;
  b_args : option (list string);
  b_url : option string;
  b_headers : option (gmap string string);
  b_env : option (gmap string string);
  b_enabled : option bool
}.

Inductive payload :=
| Failure (error : string) (details : option string)
| Servers (servers : gmap string api_server)
| Saved (message : string) (name : string) (server : server_config)
| Removed (message : string)
| Details (server : api_server)
| Toggled (message : string) (enabled : option bool)
| Raw (c : config) (configPath : string)
| Replaced (message : string) (c : config).

Record response := { status : nat; body : payload }.

Inductive answer :=
| Answer (r : response) (s : store)
| NotModelled.

(** The names every object inherits from [Object.prototype]. *)
Definition inherited (name : string) : bool :=
  bool_decide (name ∈ ["constructor"; "__defineGetter__"; "__defineSetter__";
                       "hasOwnProperty"; "__lookupGetter__"; "__lookupSetter__";
                       "isPrototypeOf"; "propertyIsEnumerable"; "toString"; "valueOf";
                       "__proto__"; "toLocaleString"]).

Inductive found := Own (sc : server_config) | Inherited | Missing.

(** [config.mcpServers && config.mcpServers[name]] *)
Definition lookup_server (c : config) (name : string) : found :=
  match mcpServers c with
  | None => Missing
  | Some servers =>
      match servers !! name with
      | Some sc => Own sc
      | None => if inherited name then Inherited else Missing
      end
  end.

(** [config.mcpServers[name] = serverConfig]: the assignment to
    "__proto__", when that is not a key of the object, replaces the
    prototype and adds no key. *)
Definition assign (servers : gmap string server_config) (name : string)
    (sc : server_config) : gmap string server_config :=
  match servers !! name with
  | Some _ => <[name := sc]> servers
  | None => if String.eqb name "__proto__" then servers else <[name := sc]> servers
  end.

Definition set_servers (servers : gmap string server_config) (c : config) : config :=
  {| mcpServers := Some servers; rest := rest c |}.

(** Lines 407 to 424 and 457 to 474: the entry made of a body. *)
Definition build (b : server_body) : server_config :=
  let type := default "stdio" (b_type b) in
  let args := default [] (b_args b) in
  let headers := default ∅ (b_headers b) in
  let env := default ∅ (b_env b) in
  let enabled := default true (b_enabled b) in
  if String.eqb type "stdio" then
    {| sc_enabled := Some enabled; sc_command := b_command b;
       sc_args := if (0 <? length args)%nat then Some args else None;
       sc_url := None; sc_headers := None;
       sc_env := if (0 <? size env)%nat then Some env else None; sc_other := ∅ |}
  else if String.eqb type "sse" then
    {| sc_enabled := Some enabled; sc_command := None; sc_args := None;
       sc_url := b_url b;
       sc_headers := if (0 <? size headers)%nat then Some headers else None;
       sc_env := None; sc_other := ∅ |}
  else
    {| sc_enabled := Some enabled; sc_command := None; sc_args := None; sc_url := None;
       sc_headers := None; sc_env := None; sc_other := ∅ |}.

(** The [catch] of a route. *)
Definition failed (label error err : string) (s : store) : answer :=
  Answer {| status := 500; body := Failure error (Some err) |}
         (say (ConsoleError [label; err]) s).

(** [`MCP server "${name}"`] *)
Definition quoted (name : string) : string :=
  "MCP server " +:+ JS.of_bytes [34] +:+ name +:+ JS.of_bytes [34].

(** GET /list *)
Definition list (x : io) (s : store) : answer :=
  let s := say (ConsoleLog ["📋 Listing MCP servers from Q Developer CLI config"]) s in
  match readMcpConfig x s with
  | Throw err => failed "Error reading MCP config:" "Failed to read MCP configuration" err s
  | Ok c =>
      let servers := map_imap (fun name sc => Some (to_api name sc)) (default ∅ (mcpServers c)) in
      let s := say (ConsoleLog ["🔍 Found MCP servers:"; JS.dec (size servers)]) s in
      Answer {| status := 200; body := Servers servers |} s
  end.

(** POST /add *)
Definition add (b : server_body) (x : io) (s : store) : answer :=
  let type := default "stdio" (b_type b) in
  match b_name b with
  | None => Answer {| status := 400; body := Failure "Server name is required" None |} s
  | Some name =>
      if negb (JS.truthy name)
      then Answer {| status := 400; body := Failure "Server name is required" None |} s
      else if String.eqb type "stdio" && negb (JS.truthy_opt (b_command b))
      then Answer {| status := 400;
                     body := Failure "Command is required for stdio servers" None |} s
      else if String.eqb type "sse" && negb (JS.truthy_opt (b_url b))
      then Answer {| status := 400; body := Failure "URL is required for SSE servers" None |} s
      else
        let s := say (ConsoleLog ["➕ Adding MCP server to Q Developer CLI config:"; name]) s in
        match readMcpConfig x s with
        | Throw err => failed "Error adding MCP server:" "Failed to add MCP server" err s
        | Ok c =>
            match lookup_server c name with
            | Own _ | Inherited =>
                Answer {| status := 409;
                          body := Failure (quoted name +:+ " already exists") None |} s
            | Missing =>
                let serverConfig := build b in
                let c := set_servers (assign (default ∅ (mcpServers c)) name serverConfig) c in
                match writeMcpConfig x c s with
                | (Throw err, s) =>
                    failed "Error adding MCP server:" "Failed to add MCP server" err s
                | (Ok _, s) =>
                    let s := say (ConsoleLog ["✅ MCP server added successfully:"; name]) s in
                    Answer {| status := 200;
                              body := Saved (quoted name +:+ " added successfully") name
                                        serverConfig |} s
                end
            end
        end
  end.

(** PUT /update/:name *)
Definition update (name : string) (b : server_body) (x : io) (s : store) : answer :=
  let s := say (ConsoleLog ["🔄 Updating MCP server in Q Developer CLI config:"; name]) s in
  match readMcpConfig x s with
  | Throw err => failed "Error updating MCP server:" "Failed to update MCP server" err s
  | Ok c =>
      match lookup_server c name with
      | Missing =>
          Answer {| status := 404; body := Failure (quoted name +:+ " not found") None |} s
      | Own _ | Inherited =>
          let serverConfig := build b in
          let c := set_servers (assign (default ∅ (mcpServers c)) name serverConfig) c in
          match writeMcpConfig x c s with
          | (Throw err, s) =>
              failed "Error updating MCP server:" "Failed to update MCP server" err s
          | (Ok _, s) =>
              let s := say (ConsoleLog ["✅ MCP server updated successfully:"; name]) s in
              Answer {| status := 200;
                        body := Saved (quoted name +:+ " updated successfully") name
                                  serverConfig |} s
          end
      end
  end.

(** DELETE /remove/:name *)
Definition remove (name : string) (x : io) (s : store) : answer :=
  let s := say (ConsoleLog ["🗑️ Removing MCP server from Q Developer CLI config:"; name]) s in
  match readMcpConfig x s with
  | Throw err => failed "Error removing MCP server:" "Failed to remove MCP server" err s
  | Ok c =>
      match lookup_server c name with
      | Missing =>
          Answer {| status := 404; body := Failure (quoted name +:+ " not found") None |} s
      | Own _ | Inherited =>
          let c := set_servers (delete name (default ∅ (mcpServers c))) c in
          match writeMcpConfig x c s with
          | (Throw err, s) =>
              failed "Error removing MCP server:" "Failed to remove MCP server" err s
          | (Ok _, s) =>
              let s := say (ConsoleLog ["✅ MCP server removed successfully:"; name]) s in
              Answer {| status := 200;
                        body := Removed (quoted name +:+ " removed successfully") |} s
          end
      end
  end.

(** GET /get/:name *)
Definition get (name : string) (x : io) (s : store) : answer :=
  let s := say (ConsoleLog ["📄 Getting MCP server details from Q Developer CLI config:";
                            name]) s in
  match readMcpConfig x s with
  | Throw err =>
      failed "Error getting MCP server details:" "Failed to get MCP server details" err s
  | Ok c =>
      match lookup_server c name with
      | Missing =>
          Answer {| status := 404; body := Failure (quoted name +:+ " not found") None |} s
      | Own sc =>
          let s := say (ConsoleLog ["✅ MCP server details retrieved:"; name]) s in
          Answer {| status := 200; body := Details (to_api name sc) |} s
      | Inherited =>
          let s := say (ConsoleLog ["✅ MCP server details retrieved:"; name]) s in
          Answer {| status := 200; body := Details (phantom name) |} s
      end
  end.

Definition show_enabled (enabled : option bool) : string :=
  match enabled with
  | Some true => "true"
  | Some false => "false"
  | None => "undefined"
  end.

(** POST /toggle/:name; [enabled] is [req.body.enabled]. *)
Definition toggle (name : string) (enabled : option bool) (x : io) (s : store) : answer :=
  let s := say (ConsoleLog ["🔄 Toggling MCP server state:"; name; "enabled:";
                            show_enabled enabled]) s in
  match readMcpConfig x s with
  | Throw err =>
      failed "Error toggling MCP server state:" "Failed to toggle MCP server state" err s
  | Ok c =>
      match lookup_server c name with
      | Missing =>
          Answer {| status := 404; body := Failure (quoted name +:+ " not found") None |} s
      | Inherited => NotModelled
      | Own sc =>
          let sc :=
            {| sc_enabled := enabled; sc_command := sc_command sc; sc_args := sc_args sc;
               sc_url := sc_url sc; sc_headers := sc_headers sc; sc_env := sc_env sc;
               sc_other := sc_other sc |} in
          let c := set_servers (<[name := sc]> (default ∅ (mcpServers c))) c in
          match writeMcpConfig x c s with
          | (Throw err, s) =>
              failed "Error toggling MCP server state:" "Failed to toggle MCP server state"
                err s
          | (Ok _, s) =>
              let s := say (ConsoleLog ["✅ MCP server state toggled successfully:"; name]) s in
              Answer {| status := 200;
                        body := Toggled (quoted name +:+ " "
                                         +:+ (if default false enabled then "enabled"
                                              else "disabled") +:+ " successfully")
                                  enabled |} s
          end
      end
  end.

(** GET /config *)
Definition get_config (homedir : string) (x : io) (s : store) : answer :=
  let s := say (ConsoleLog ["📄 Getting raw MCP configuration"]) s in
  match readMcpConfig x s with
  | Throw err => failed "Error getting MCP config:" "Failed to get MCP configuration" err s
  | Ok c => Answer {| status := 200; body := Raw c (getMcpConfigPath homedir) |} s
  end.

(** POST /config; [c] is [req.body.config]. *)
Definition post_config (c : option config) (x : io) (s : store) : answer :=
  match c with
  | None =>
      Answer {| status := 400; body := Failure "Valid configuration object is required" None |} s
  | Some c =>
      let s := say (ConsoleLog ["💾 Updating raw MCP configuration"]) s in
      match writeMcpConfig x c s with
      | (Throw err, s) =>
          failed "Error updating MCP config:" "Failed to update MCP configuration" err s
      | (Ok _, s) =>
          let s := say (ConsoleLog ["✅ MCP configuration updated successfully"]) s in
          Answer {| status := 200;
                    body := Replaced "MCP configuration updated successfully" c |} s
      end
  end.

(** The file after a request, and its answer. *)
Definition file_after (a : answer) : option file :=
  match a with
  | Answer _ s => Some (config_file s)
  | NotModelled => None
  end.

Definition status_of (a : answer) : option nat :=
  match a with
  | Answer r _ => Some (status r)
  | NotModelled => None
  end.

Definition body_of (a : answer) : option payload :=
  match a with
  | Answer r _ => Some (body r)
  | NotModelled => None
  end.

(** The servers a file holds, as the routes see them. *)
Definition servers_of (f : file) : gmap string server_config :=
  match f with
  | Holds c => default ∅ (mcpServers c)
  | _ => ∅
  end.

(** The file after a request that did not write it: as it was, or, when
    the request failed with 500 in a write that had already opened the
    file, cut off and not JSON any more. *)
Definition left_or_cut (x : io) (s : store) (a : answer) : Prop :=
  file_after a = Some (config_file s)
  ∨ (status_of a = Some 500 ∧ write_error x = true ∧ write_after_open x = true
     ∧ file_after a = Some Garbled).

(** The file system lets every call succeed. *)
Definition sound : io :=
  {| read_error := false; mkdir_error := false; write_error := false;
     write_after_open := false |}.

End Mcp.

(** Requests and files to run the routes on. *)
Module McpScenario.

(** [{ name: 'files', command: 'npx', args: ['-y', 'server-filesystem'] }] *)
Definition files_body : Mcp.server_body :=
  {| Mcp.b_name := Some "files"; Mcp.b_type := None; Mcp.b_command := Some "npx";
     Mcp.b_args := Some ["-y"; "server-filesystem"]; Mcp.b_url := None;
     Mcp.b_headers := None; Mcp.b_env := None; Mcp.b_enabled := None |}.

(** [{ enabled: false }] *)
Definition flag_body : Mcp.server_body :=
  {| Mcp.b_name := None; Mcp.b_type := None; Mcp.b_command := None; Mcp.b_args := None;
     Mcp.b_url := None; Mcp.b_headers := None; Mcp.b_env := None;
     Mcp.b_enabled := Some false |}.

(** No configuration file yet. *)
Definition fresh : Mcp.store :=
  {| Mcp.config_file := Mcp.Absent; Mcp.config_dir := false; Mcp.log := [] |}.

Definition after (a : Mcp.answer) : Mcp.store :=
  match a with
  | Mcp.Answer _ s => s
  | Mcp.NotModelled => fresh
  end.

(** The file after "files" was added. *)
Definition with_files : Mcp.store := after (Mcp.add files_body Mcp.sound fresh).

(** A file that is not JSON. *)
Definition broken : Mcp.store :=
  {| Mcp.config_file := Mcp.Garbled; Mcp.config_dir := true; Mcp.log := [] |}.

(** The file [{}]. *)
Definition no_servers : Mcp.store :=
  {| Mcp.config_file := Mcp.Holds {| Mcp.mcpServers := None; Mcp.rest := ∅ |};
     Mcp.config_dir := true; Mcp.log := [] |}.

(** [{ name: '__proto__', type: 'sse', url: 'http://localhost:3000/sse' }] *)
Definition proto_body : Mcp.server_body :=
  {| Mcp.b_name := Some "__proto__"; Mcp.b_type := Some "sse"; Mcp.b_command := None;
     Mcp.b_args := None; Mcp.b_url := Some "http://localhost:3000/sse";
     Mcp.b_headers := None; Mcp.b_env := None; Mcp.b_enabled := None |}.

End McpScenario.

(** * Properties *)

(** ** The helpers on concrete strings *)

Example trim_blank : JS.trim (JS.of_bytes [32; 9; 10; 226; 128; 168]) = "".
Proof. reflexivity. Qed.

Example trim_both : JS.trim "  list files  " = "list files".
Proof. reflexivity. Qed.

Example match_png :
  match_data_url "data:image/png;base64,iVBORw0KGgo="
  = Some ("image/png", "iVBORw0KGgo=").
Proof. reflexivity. Qed.

Example match_no_prefix : match_data_url "iVBORw0KGgo=" = None.
Proof. reflexivity. Qed.

Example match_no_payload : match_data_url "data:image/png;base64," = None.
Proof. reflexivity. Qed.

Example extension_png : extension_of "image/png" = "png".
Proof. reflexivity. Qed.

Example extension_default : extension_of "image" = "png".
Proof. reflexivity. Qed.

Example extension_empty : extension_of "image/" = "png".
Proof. reflexivity. Qed.

Example extension_svg : extension_of "image/svg+xml" = "svg+xml".
Proof. reflexivity. Qed.

Example match_two_lines :
  match_data_url ("data:image/png;base64,iVBOR" +:+ nl +:+ "w0KGgo=") = None.
Proof. reflexivity. Qed.

Example prefixes_of_staging_dir :
  path_prefixes "/srv/.tmp/images/17"
  = ["/srv"; "/srv/.tmp"; "/srv/.tmp/images"; "/srv/.tmp/images/17"].
Proof. reflexivity. Qed.

Example note_for_two_paths :
  image_note ["/srv/a.png"; "/srv/b.png"]
  = nl +:+ nl +:+ "[Images provided at the following paths:]" +:+ nl
    +:+ "1. /srv/a.png" +:+ nl +:+ "2. /srv/b.png".
Proof. reflexivity. Qed.

Example blank_prompt_is_no_argument :
  (args ∘ request) <$> children (spawnQ "   " (Scenario.request None None None) false
                                   Scenario.env Scenario.idle).2
  = [["chat"; "--verbose"]].
Proof. vm_compute. reflexivity. Qed.

(** ** Building the command *)

Section Command.

Variables (command : string) (e : start_env).

(** '--message' is never among the arguments when the note is written,
    so the note is dropped: the arguments come back as they were. *)
Lemma include_image_paths_prompt_args (paths : list string) :
  include_image_paths command paths (prompt_args command) = prompt_args command.
Proof.
  unfold include_image_paths, prompt_args.
  destruct (0 <? length paths)%nat; simpl; [|done].
  destruct (has_prompt command); simpl; [|done].
  destruct (String.eqb_spec command "--message") as [->|Hne]; simpl; done.
Qed.

Lemma stage_one_frame dir ok index img paths w :
  let w' := (stage_one dir ok index img paths w).2.2 in
  activeQProcesses w' = activeQProcesses w ∧ children w' = children w
  ∧ timers w' = timers w ∧ dirs w' = dirs w.
Proof.
  unfold stage_one. destruct (match_data_url (data img)) as [[mimeType base64Data]|]; simpl.
  - destruct ok; simpl; done.
  - done.
Qed.

Lemma stage_images_frame dir ok imgs : ∀ index paths w,
  let w' := (stage_images dir ok index imgs paths w).2.2 in
  activeQProcesses w' = activeQProcesses w ∧ children w' = children w
  ∧ timers w' = timers w ∧ dirs w' = dirs w.
Proof.
  induction imgs as [|img rest IH]; intros index paths w; simpl; [done|].
  pose proof (stage_one_frame dir (ok index) index img paths w) as Hone.
  destruct (stage_one dir (ok index) index img paths w) as [[[]|err] [paths' w1]];
    simpl in *; [|done].
  specialize (IH (S index) paths' w1). simpl in IH.
  destruct IH as (? & ? & ? & ?), Hone as (? & ? & ? & ?). repeat split; congruence.
Qed.

(** Staging touches the file system and the console only, and hands the
    arguments back unchanged. *)
Lemma process_images_frame workingDir imgs w :
  let res := process_images command workingDir imgs e (prompt_args command) w in
  res.1.2 = prompt_args command
  ∧ activeQProcesses res.2 = activeQProcesses w ∧ children res.2 = children w
  ∧ timers res.2 = timers w.
Proof.
  unfold process_images. destruct imgs as [[|img rest]|]; try done.
  unfold mkdir_recursive. destruct (mkdir_ok e); [|done].
  set (dir := path_join _). set (w1 := set_fs _ _ w).
  pose proof (stage_images_frame dir (write_ok e) (img :: rest) 0 [] w1) as Hst.
  destruct (stage_images dir (write_ok e) 0 (img :: rest) [] w1) as [[[]|err] [paths w2]];
    cbn in *; destruct Hst as (? & ? & ? & _);
    rewrite ?include_image_paths_prompt_args; repeat split; congruence.
Qed.

End Command.

Lemma send_session_created_world t r w :
  let w' := (send_session_created t (r, w)).2 in
  activeQProcesses w' = activeQProcesses w ∧ children w' = children w
  ∧ timers w' = timers w ∧ dirs w' = dirs w ∧ files w' = files w.
Proof.
  unfold send_session_created.
  destruct (ws_open r t && negb (sessionCreatedSent r)); simpl; [|done].
  destruct (send_throws t); done.
Qed.

Lemma store_process_children sid p w :
  children (store_process sid p w) = children w ∧ timers (store_process sid p w) = timers w
  ∧ dirs (store_process sid p w) = dirs w ∧ files (store_process sid p w) = files w.
Proof. unfold store_process. destruct sid as [s|]; [destruct (JS.truthy s)|]; done. Qed.

(** The child object of a run sits at the end of [children], and is what
    [spawned] describes: whatever the images, '--verbose' follows the
    prompt as the caller gave it. *)
Lemma spawnQ_children command o socket e w :
  children (spawnQ command o socket e w).2 = children w ++ [spawned command o e].
Proof.
  unfold spawnQ. fold (prompt_args command). fold (working_dir o e).
  pose proof (process_images_frame command e (working_dir o e) (images o) w) as Hpi.
  destruct (process_images command (working_dir o e) (images o) e (prompt_args command) w)
    as [[[dir paths] args'] w1]; simpl in Hpi.
  destruct Hpi as (-> & _ & Hch & _).
  match goal with |- children (send_session_created ?t (?r, ?w)).2 = _ =>
    destruct (send_session_created_world t r w) as (_ & -> & _) end.
  destruct (store_process_children (sessionId o)
    (length (children w1)) (set_children (children w1 ++ [spawned command o e])
      (print (ConsoleLog ["📁 Working directory: " +:+ working_dir o e])
         (print (ConsoleLog ("🚀 Spawning Q CLI with args:" :: prompt_args command ++ ["--verbose"])) w1))))
    as (Hc & _).
  unfold spawned in *. simpl in *. rewrite Hc, Hch. done.
Qed.

(** [tempDir] is set as soon as there are images, also when [fs.mkdir]
    then fails. *)
Lemma process_images_tempDir command e workingDir imgs args w :
  (process_images command workingDir imgs e args w).1.1.1
  = match imgs with
    | Some (_ :: _) =>
        Some (path_join [workingDir; ".tmp"; "images"; JS.decN (staged_at e)])
    | _ => None
    end.
Proof.
  unfold process_images. destruct imgs as [[|img rest]|]; try done.
  destruct (mkdir_recursive _ _ _) as [[[]|err] w1]; [|done].
  destruct (stage_images _ _ _ _ _ _) as [[[]|err] [paths w2]]; done.
Qed.

(** The closure variables when [spawnQ] returns. *)
Lemma spawnQ_run command o socket e w :
  let r := (spawnQ command o socket e w).1 in
  capturedSessionId r = sessionId o ∧ ws r = socket ∧ promise r = Pending
  ∧ outputBuffer r = "" ∧ errorBuffer r = "" ∧ qProcess r = length (children w)
  ∧ tempDir r = (if has_images o then Some (staging_dir o e) else None)
  ∧ sent r = (if socket && sink_ready (created e) then [created_message o (created e)] else []).
Proof.
  unfold spawnQ. fold (prompt_args command). fold (working_dir o e).
  pose proof (process_images_frame command e (working_dir o e) (images o) w) as Hpi.
  pose proof (process_images_tempDir command e (working_dir o e) (images o)
                (prompt_args command) w) as Htd.
  destruct (process_images command (working_dir o e) (images o) e (prompt_args command) w)
    as [[[dir paths] args'] w1]; simpl in Hpi, Htd.
  destruct Hpi as (_ & _ & Hch & _).
  unfold send_session_created, ws_open, sink_ready, has_images, staging_dir, created_message.
  cbn [capturedSessionId sessionCreatedSent ws sent].
  destruct socket, (readyState (created e) =? 1)%N, (send_throws (created e));
    cbn; rewrite ?Hch, Htd; repeat split; by destruct (images o) as [[|??]|].
Qed.

(** The shared state when [spawnQ] returns, the file system apart. *)
Lemma spawnQ_world command o socket e w :
  let w' := (spawnQ command o socket e w).2 in
  activeQProcesses w'
  = (if JS.truthy_opt (sessionId o)
     then <[default "" (sessionId o) := length (children w)]> (activeQProcesses w)
     else activeQProcesses w)
  ∧ timers w' = timers w.
Proof.
  unfold spawnQ. fold (prompt_args command). fold (working_dir o e).
  pose proof (process_images_frame command e (working_dir o e) (images o) w) as Hpi.
  destruct (process_images command (working_dir o e) (images o) e (prompt_args command) w)
    as [[[dir paths] args'] w1]; simpl in Hpi.
  destruct Hpi as (_ & Hreg & Hch & Htm).
  match goal with |- context [send_session_created ?t (?r, ?w)] =>
    destruct (send_session_created_world t r w) as (-> & _ & -> & _) end.
  unfold store_process. destruct (sessionId o) as [s|]; simpl; [|done].
  destruct (JS.truthy s); simpl; rewrite ?Hreg, ?Hch, ?Htm; done.
Qed.

(** C10: two runs whose options differ only in [resume], [toolsSettings]
    and [permissionMode] launch the same child (same argument vector,
    environment and working directory); the whole call has the same
    outcome, so the three options have no effect on it. *)
Theorem C10_flags_do_not_reach_the_child command socket e w (o1 o2 : options) :
  same_but_flags o1 o2 →
  (∃ c, children (spawnQ command o1 socket e w).2 = children w ++ [c]
        ∧ children (spawnQ command o2 socket e w).2 = children w ++ [c]
        ∧ args (request c) = prompt_args command ++ ["--verbose"]
        ∧ env (request c) = <["NO_COLOR" := "1"]> (<["FORCE_COLOR" := "0"]> (process_env e))
        ∧ spawn_cwd (request c) = working_dir o1 e)
  ∧ spawnQ command o1 socket e w = spawnQ command o2 socket e w.
Proof.
  destruct o1 as [sid1 pp1 cwd1 res1 ts1 pm1 im1], o2 as [sid2 pp2 cwd2 res2 ts2 pm2 im2].
  unfold same_but_flags; simpl. intros (-> & -> & -> & ->). split; [|reflexivity].
  eexists. rewrite !spawnQ_children. split; [reflexivity|]. split; [reflexivity|]. done.
Qed.

Lemma C10_flags_do_not_reach_the_child_witness :
  let o1 := Scenario.request (Some "s1") (Some "/srv") None in
  let o2 := {| sessionId := Some "s1"; projectPath := None; cwd := Some "/srv";
               resume := Some true;
               toolsSettings := Some {| allowedTools := ["fs_read"]; disallowedTools := ["execute_bash"];
                                        skipPermissions := true |};
               permissionMode := Some "bypassPermissions"; images := None |} in
  spawnQ "list files" o1 true Scenario.env Scenario.idle
  = spawnQ "list files" o2 true Scenario.env Scenario.idle.
Proof.
  intros o1 o2.
  apply (C10_flags_do_not_reach_the_child "list files" true Scenario.env Scenario.idle o1 o2).
  repeat split; reflexivity.
Defined.

(** C1, at a run with one staged image and the prompt "describe this":
    the file is staged and the prompt is not blank, yet the child is given
    the prompt as the caller wrote it, without the note on the staged
    paths. *)
Theorem C1_note_never_reaches_the_child :
  let o := Scenario.request (Some "s1") (Some "/srv") (Some [Scenario.png]) in
  let rw := spawnQ "describe this" o true Scenario.env Scenario.idle in
  tempImagePaths rw.1 = ["/srv/.tmp/images/1700000000000/image_0.png"]
  ∧ has_prompt "describe this" = true
  ∧ (args ∘ request) <$> children rw.2 = [["chat"; "describe this"; "--verbose"]]
  ∧ "describe this" +:+ image_note (tempImagePaths rw.1) ≠ "describe this".
Proof.
  intros o rw. split; [vm_compute; reflexivity|]. split; [vm_compute; reflexivity|].
  split; [subst rw; rewrite spawnQ_children; vm_compute; reflexivity|].
  vm_compute. discriminate.
Qed.

(** ** [abortQSession] *)

(** C8: aborting a session identifier that has no entry in
    [activeQProcesses] answers [false]; the map, the processes, the
    timers and the file system are as before, and all the call leaves
    behind is its two console lines. *)
Theorem C8_abort_unknown_session (sid : string) (os : uv_status) (w : world) :
  activeQProcesses w !! sid = None →
  let '(answer, w') := abortQSession sid os w in
  answer = false
  ∧ activeQProcesses w' = activeQProcesses w ∧ children w' = children w
  ∧ timers w' = timers w ∧ dirs w' = dirs w ∧ files w' = files w
  ∧ console w'
    = console w ++ [ConsoleLog ["🛑 Attempting to abort Q session: " +:+ sid];
                    ConsoleLog ["⚠️ No active Q process found for session: " +:+ sid]].
Proof.
  intros Hnone. unfold abortQSession. cbn [activeQProcesses print].
  rewrite Hnone. cbn. rewrite <- app_assoc. done.
Qed.

Lemma C8_abort_unknown_session_witness :
  (abortQSession "s2" UV_OK Scenario.one_live).1 = false
  ∧ activeQProcesses (abortQSession "s2" UV_OK Scenario.one_live).2
    = activeQProcesses Scenario.one_live.
Proof.
  pose proof (C8_abort_unknown_session "s2" UV_OK Scenario.one_live) as H.
  destruct (abortQSession "s2" UV_OK Scenario.one_live) as [answer w'].
  destruct H as (H1 & H2 & _); [vm_compute; reflexivity|]. split; assumption.
Defined.

(** A timer whose process has been sent a signal does nothing when it
    fires, whether or not the process is still running. *)
Lemma force_kill_after_signal tm os w c :
  children w !! timer_process tm = Some c → killed c = true → force_kill tm os w = w.
Proof. intros Hc Hk. unfold force_kill. rewrite Hc, Hk. done. Qed.

(** Aborting a registered process that runs and was never signalled. *)
Lemma abort_live sid p c w :
  activeQProcesses w !! sid = Some p → children w !! p = Some c →
  killed c = false → handle c = true →
  let '(answer, w') := abortQSession sid UV_OK w in
  answer = true
  ∧ activeQProcesses w' = delete sid (activeQProcesses w)
  ∧ timers w' = timers w ++ [{| delay := 5000; timer_process := p; timer_session := sid |}]
  ∧ children w' !! p = Some {| request := request c; handle := true; killed := true;
                                signals := signals c ++ [SIGTERM] |}.
Proof.
  intros Hreg Hc Hk Hh. unfold abortQSession, kill. cbn [activeQProcesses children print].
  rewrite Hreg, Hc, Hk, Hh. cbn. repeat split.
  apply list_lookup_insert_eq. by eapply lookup_lt_Some.
Qed.

(** C2, at the one live session "s1": the abort answers [true], takes
    "s1" out of the map at once and leaves one timer of 5000 ms; when
    that timer fires with the process still running, no SIGKILL is sent,
    because the SIGTERM already set [killed]. *)
Theorem C2_no_forced_termination :
  let o := Scenario.request (Some "s1") (Some "/srv") None in
  let rw0 := spawnQ "list files" o true Scenario.env Scenario.idle in
  let rw1 := step (Abort "s1" UV_OK) rw0 in
  let rw2 := step (TimerFires UV_OK) rw1 in
  activeQProcesses rw0.2 !! "s1" = Some 0
  ∧ (abortQSession "s1" UV_OK rw0.2).1 = true
  ∧ activeQProcesses rw1.2 !! "s1" = None
  ∧ timers rw1.2 = [{| delay := 5000; timer_process := 0; timer_session := "s1" |}]
  ∧ timers rw2.2 = []
  ∧ handle <$> children rw2.2 !! 0 = Some true
  ∧ signals <$> children rw2.2 !! 0 = Some [SIGTERM].
Proof. vm_compute. repeat split; reflexivity. Qed.

(** ** The listeners *)

Lemma string_app_assoc (a b c : string) : (a +:+ b) +:+ c = a +:+ (b +:+ c).
Proof.
  induction a as [|x a IH]; [done|].
  change (String x ((a +:+ b) +:+ c) = String x (a +:+ (b +:+ c))). by f_equal.
Qed.

Lemma string_app_nil_r (a : string) : a +:+ "" = a.
Proof.
  induction a as [|x a IH]; [done|].
  change (String x (a +:+ "") = String x a). by f_equal.
Qed.

(** What one action does to the closure variables of the run. *)
Lemma step_run a r w :
  let r' := (step a (r, w)).1 in
  capturedSessionId r' = capturedSessionId r ∧ ws r' = ws r
  ∧ tempDir r' = tempDir r ∧ qProcess r' = qProcess r
  ∧ sent r' = sent r ++ accepted (ws r) (capturedSessionId r) a
  ∧ outputBuffer r' = outputBuffer r +:+ stdout_text [a]
  ∧ errorBuffer r' = errorBuffer r +:+ stderr_text [a]
  ∧ (is_terminal a = false → promise r' = promise r).
Proof.
  destruct r as [sid scs td tip q ob eb pr sock snt].
  destruct a as [chunk t|chunk t|code t|message t|sid' os|os];
    unfold step, on_stdout, on_stderr, on_close, on_error, released, ws_send, ws_open,
      accepted, sink_ready; cbn.
  - destruct sock, (readyState t =? 1)%N, (send_throws t); cbn;
      rewrite ?app_nil_r, ?string_app_nil_r; done.
  - destruct sock, (readyState t =? 1)%N, (send_throws t); cbn;
      rewrite ?app_nil_r, ?string_app_nil_r; done.
  - destruct sock, (readyState t =? 1)%N, (send_throws t), code as [[|?|?]|]; cbn;
      rewrite ?app_nil_r, ?string_app_nil_r; done.
  - destruct sock, (readyState t =? 1)%N, (send_throws t); cbn;
      rewrite ?app_nil_r, ?string_app_nil_r; done.
  - rewrite ?app_nil_r, ?string_app_nil_r. done.
  - destruct (timers w); cbn; rewrite ?app_nil_r, ?string_app_nil_r; done.
Qed.

Lemma exec_cons a trace rw : exec (a :: trace) rw = exec trace (step a rw).
Proof. reflexivity. Qed.

Lemma exec_app t1 t2 rw : exec (t1 ++ t2) rw = exec t2 (exec t1 rw).
Proof. unfold exec. apply foldl_app. Qed.

Lemma stdout_text_cons a trace : stdout_text (a :: trace) = stdout_text [a] +:+ stdout_text trace.
Proof. destruct a; simpl; rewrite ?string_app_nil_r; done. Qed.

Lemma stderr_text_cons a trace : stderr_text (a :: trace) = stderr_text [a] +:+ stderr_text trace.
Proof. destruct a; simpl; rewrite ?string_app_nil_r; done. Qed.

(** The same over a trace: the socket's share of every action is added
    in order, the two buffers collect what the child wrote, and the
    promise stays as it is until the process ends or fails to start. *)
Lemma exec_run trace : ∀ r w,
  let r' := (exec trace (r, w)).1 in
  capturedSessionId r' = capturedSessionId r ∧ ws r' = ws r
  ∧ tempDir r' = tempDir r ∧ qProcess r' = qProcess r
  ∧ sent r' = sent r ++ concat (accepted (ws r) (capturedSessionId r) <$> trace)
  ∧ outputBuffer r' = outputBuffer r +:+ stdout_text trace
  ∧ errorBuffer r' = errorBuffer r +:+ stderr_text trace
  ∧ (forallb (negb ∘ is_terminal) trace = true → promise r' = promise r).
Proof.
  induction trace as [|a trace IH]; intros r w.
  - cbn. rewrite !app_nil_r, !string_app_nil_r. done.
  - rewrite exec_cons. pose proof (step_run a r w) as Hs.
    destruct (step a (r, w)) as [r1 w1]. cbn [fst] in Hs.
    destruct Hs as (Hsid & Hws & Htd & Hq & Hsent & Hout & Herr & Hp).
    specialize (IH r1 w1). cbn zeta in IH.
    destruct IH as (IHsid & IHws & IHtd & IHq & IHsent & IHout & IHerr & IHp).
    cbn zeta. rewrite IHsid, IHws, IHtd, IHq, IHsent, IHout, IHerr, Hsid, Hws, Hsent, Hout, Herr.
    rewrite (stdout_text_cons a trace), (stderr_text_cons a trace).
    rewrite fmap_cons. cbn [concat]. rewrite <- !app_assoc, !string_app_assoc.
    repeat split; try done.
    cbn [forallb]. intros [Ha Ht]%andb_true_iff. rewrite IHp by done.
    apply Hp. unfold compose in Ha. by destruct (is_terminal a).
Qed.

(** A data listener leaves the shared state alone, the console apart. *)
Lemma data_world a r w :
  is_terminal a = false → is_Some (tick_of a) →
  let w' := (step a (r, w)).2 in
  activeQProcesses w' = activeQProcesses w ∧ children w' = children w
  ∧ timers w' = timers w ∧ dirs w' = dirs w ∧ files w' = files w.
Proof.
  destruct r as [sid scs td tip q ob eb pr sock snt].
  destruct a as [chunk t|chunk t|code t|message t|sid' os|os]; cbn;
    intros ? [? ?]; try done;
    unfold on_stdout, on_stderr, ws_send, ws_open; cbn;
    destruct sock, (readyState t =? 1)%N, (send_throws t); done.
Qed.

(** 'close' and 'error' do the same to the shared state: the staging
    directory is removed if [fs.rmdir] succeeds, the entry of a truthy
    session identifier is deleted, and nothing else changes but the
    console and the released process object. *)
Lemma terminal_world a t r w :
  is_terminal a = true → tick_of a = Some t →
  let w' := (step a (r, w)).2 in
  activeQProcesses w' = activeQProcesses (remove_from_active r w)
  ∧ children w' = alter release (qProcess r) (children w)
  ∧ timers w' = timers w
  ∧ dirs w' = dirs (clean_up_temp_images t r w)
  ∧ files w' = files (clean_up_temp_images t r w).
Proof.
  destruct r as [sid scs td tip q ob eb pr sock snt].
  destruct a as [chunk t'|chunk t'|code t'|message t'|sid' os|os]; cbn;
    intros ? [= <-]; try done;
    unfold on_close, on_error, released, ws_send, ws_open, clean_up_temp_images,
      remove_from_active, rmdir_recursive; cbn;
    destruct sock, (readyState t' =? 1)%N, (send_throws t'), td as [dir|],
      (rmdir_ok t'), sid as [[|??]|]; cbn; try done;
    destruct code as [[|?|?]|]; done.
Qed.

(** What 'close' makes of a pending promise. *)
Lemma close_promise code t r w :
  promise r = Pending →
  promise (step (Close code t) (r, w)).1
  = match code with
    | Some 0%Z => Resolved (outputBuffer r) (capturedSessionId r)
    | _ => Rejected ("Q CLI exited with code " +:+ JS.show_code code +:+ ": " +:+ errorBuffer r)
    end.
Proof.
  destruct r as [sid scs td tip q ob eb pr sock snt]. cbn. intros ->.
  unfold on_close, ws_send, ws_open. cbn.
  destruct sock, (readyState t =? 1)%N, (send_throws t), code as [[|?|?]|]; done.
Qed.

(** What 'error' makes of a pending promise. *)
Lemma error_promise message t r w :
  promise r = Pending → promise (step (Error message t) (r, w)).1 = Rejected message.
Proof.
  destruct r as [sid scs td tip q ob eb pr sock snt]. cbn. intros ->.
  unfold on_error, ws_send, ws_open. cbn.
  destruct sock, (readyState t =? 1)%N, (send_throws t); done.
Qed.

(** C5: when the process exits, the promise is resolved exactly when the
    exit code is 0, with everything the child wrote to its standard
    output and the session identifier; for any other code (also [null])
    it is rejected with an error whose message holds the code and
    everything the child wrote to its standard error. *)
Theorem C5_exit_code_decides command o socket e w body code t :
  forallb (negb ∘ is_terminal) body = true →
  let r := (run_spawnQ command o socket e w (body ++ [Close code t])).1 in
  (code = Some 0%Z ∧ promise r = Resolved (stdout_text body) (sessionId o))
  ∨ (code ≠ Some 0%Z
     ∧ promise r = Rejected ("Q CLI exited with code " +:+ JS.show_code code +:+ ": "
                             +:+ stderr_text body)).
Proof.
  intros Hbody. unfold run_spawnQ. rewrite exec_app.
  destruct (spawnQ_run command o socket e w) as (Hsid & _ & Hp & Hout & Herr & _).
  destruct (spawnQ command o socket e w) as [r0 w0]. cbn [fst] in *.
  destruct (exec_run body r0 w0) as (Hsid' & _ & _ & _ & _ & Hout' & Herr' & Hp').
  destruct (exec body (r0, w0)) as [r1 w1]. cbn [fst] in *.
  cbn zeta. change (exec [Close code t] (r1, w1)) with (step (Close code t) (r1, w1)).
  rewrite close_promise by (rewrite Hp'; done).
  rewrite Hout', Herr', Hsid', Hout, Herr, Hsid.
  destruct code as [[|?|?]|]; [left|right..]; done.
Qed.

Lemma C5_exit_code_decides_witness :
  let o := Scenario.request (Some "s1") (Some "/srv") None in
  promise (run_spawnQ "list files" o true Scenario.env Scenario.idle
             ([StdoutData "a.txt" (Scenario.open_at 1700000000100);
               StderrData "warning" (Scenario.open_at 1700000000200)]
              ++ [Close (Some 2%Z) (Scenario.open_at 1700000000300)])).1
  = Rejected "Q CLI exited with code 2: warning".
Proof.
  intros o.
  destruct (C5_exit_code_decides "list files" o true Scenario.env Scenario.idle
              [StdoutData "a.txt" (Scenario.open_at 1700000000100);
               StderrData "warning" (Scenario.open_at 1700000000200)]
              (Some 2%Z) (Scenario.open_at 1700000000300)) as [[H _]|[_ H]].
  - reflexivity.
  - discriminate H.
  - exact H.
Defined.

(** ** The messages of one run *)

Lemma count_type_app ty ms1 ms2 :
  count_type ty (ms1 ++ ms2) = count_type ty ms1 + count_type ty ms2.
Proof. unfold count_type. by rewrite filter_app, length_app. Qed.

(** Only 'close' makes a completed message. *)
Lemma accepted_no_complete socket sid a :
  is_close a = false → count_type q_complete (accepted socket sid a) = 0.
Proof.
  destruct a as [chunk t|chunk t|code t|message t|sid' os|os]; cbn; try done;
    intros _; unfold accepted; cbn; destruct (socket && sink_ready t); done.
Qed.

Lemma trace_no_complete socket sid trace :
  forallb (negb ∘ is_close) trace = true →
  count_type q_complete (concat (accepted socket sid <$> trace)) = 0.
Proof.
  induction trace as [|a trace IH]; [done|].
  cbn [forallb]. intros [Ha Ht]%andb_true_iff.
  rewrite fmap_cons. cbn [concat]. rewrite count_type_app, IH by done.
  rewrite accepted_no_complete; [done|]. unfold compose in Ha. by destruct (is_close a).
Qed.

(** While the socket takes every message, the data listeners deliver one
    message per chunk, in the order of the chunks. *)
Lemma accepted_body sid body :
  forallb (negb ∘ is_terminal) body = true →
  sink_ready_throughout body →
  concat (accepted true sid <$> body) = omap (chunk_message sid) body.
Proof.
  induction body as [|a body IH]; [done|].
  cbn [forallb]. intros [Ha Hb]%andb_true_iff Hready.
  rewrite fmap_cons. cbn [concat omap]. rewrite IH; [|done|].
  - destruct a as [chunk t|chunk t|code t|message t|sid' os|os];
      try discriminate Ha; try done; unfold accepted; cbn.
    + rewrite (Hready (StdoutData chunk t) t); [done|by left|done].
    + rewrite (Hready (StderrData chunk t) t); [done|by left|done].
  - intros a' t' Hin. apply Hready. by right.
Qed.

Lemma chunk_messages_are_chunks sid body :
  Forall is_chunk (omap (chunk_message sid) body).
Proof.
  induction body as [|a body IH]; [constructor|].
  destruct a; cbn; try done; constructor; try done; split; eauto.
Qed.

Lemma count_type_chunks ty ms :
  Forall is_chunk ms → ty ≠ q_output → ty ≠ q_error → count_type ty ms = 0.
Proof.
  intros Hms Ho He. unfold count_type.
  induction Hms as [|m ms [[Hm|Hm] _] _ IH]; [done|..];
    rewrite filter_cons_False; try done; congruence.
Qed.

(** What the data listeners deliver are chunks. *)
Lemma accepted_chunks socket sid body :
  forallb (negb ∘ is_terminal) body = true →
  Forall is_chunk (concat (accepted socket sid <$> body)).
Proof.
  induction body as [|a body IH]; [constructor|].
  cbn [forallb]. intros [Ha Hb]%andb_true_iff.
  rewrite fmap_cons. cbn [concat]. apply Forall_app. split; [|by apply IH].
  destruct a as [chunk t|chunk t|code t|message t|sid' os|os]; try discriminate Ha;
    unfold accepted; cbn; try (by constructor);
    (destruct (socket && sink_ready t); [|by constructor]);
    (constructor; [|by constructor]); (split; [auto|by eexists]).
Qed.

(** C3, as the code has it. In a run whose process was started and exits,
    what the socket is sent is, in this order, the session-created
    message, the output or error message of each chunk in the order of
    arrival, and the completed message with the exit code: each of them
    if a socket was passed, is open and [send] returns at that instant,
    and not at all otherwise. So the session-created and the completed
    message are delivered at most once each, and a socket that takes
    every message of the run gets the whole sequence, with exactly one of
    each of the two. *)
Theorem C3_events_in_order command o socket e w body code t :
  forallb (negb ∘ is_terminal) body = true →
  let sid := sessionId o in
  let ms := sent (run_spawnQ command o socket e w (body ++ [Close code t])).1 in
  ms = (if socket && sink_ready (created e) then [created_message o (created e)] else [])
       ++ concat (accepted socket sid <$> body)
       ++ (if socket && sink_ready t then [complete_message sid code t] else [])
  ∧ Forall is_chunk (concat (accepted socket sid <$> body))
  ∧ count_type session_created ms = (if socket && sink_ready (created e) then 1 else 0)
  ∧ count_type q_complete ms = (if socket && sink_ready t then 1 else 0)
  ∧ (socket = true → sink_ready (created e) = true →
     sink_ready_throughout (body ++ [Close code t]) →
     (∃ first middle last,
         ms = first :: middle ++ [last]
         ∧ first = created_message o (created e) ∧ type first = session_created
         ∧ middle = omap (chunk_message sid) body ∧ Forall is_chunk middle
         ∧ last = complete_message sid code t
         ∧ type last = q_complete ∧ msg_exitCode last = Some code)
     ∧ count_type session_created ms = 1 ∧ count_type q_complete ms = 1).
Proof.
  intros Hbody sid ms.
  pose proof (accepted_chunks socket sid body Hbody) as Hchunks.
  assert (Hms : ms = (if socket && sink_ready (created e)
                      then [created_message o (created e)] else [])
                     ++ concat (accepted socket sid <$> body)
                     ++ (if socket && sink_ready t
                         then [complete_message sid code t] else [])).
  { subst ms sid. unfold run_spawnQ.
    destruct (spawnQ_run command o socket e w) as (Hsid & Hws & _ & _ & _ & _ & _ & Hsent).
    destruct (spawnQ command o socket e w) as [r0 w0]. cbn [fst] in *.
    destruct (exec_run (body ++ [Close code t]) r0 w0) as (_ & _ & _ & _ & -> & _).
    rewrite Hsent, Hws, Hsid, fmap_app, concat_app. do 2 f_equal.
    unfold accepted. cbn. by rewrite app_nil_r. }
  assert (Hcreated : count_type session_created ms
                     = (if socket && sink_ready (created e) then 1 else 0)).
  { rewrite Hms, !count_type_app, (count_type_chunks _ _ Hchunks) by done.
    destruct (socket && sink_ready (created e)), (socket && sink_ready t); done. }
  assert (Hcomplete : count_type q_complete ms = (if socket && sink_ready t then 1 else 0)).
  { rewrite Hms, !count_type_app, (count_type_chunks _ _ Hchunks) by done.
    destruct (socket && sink_ready (created e)), (socket && sink_ready t); done. }
  split; [exact Hms|]. split; [exact Hchunks|]. split; [exact Hcreated|].
  split; [exact Hcomplete|].
  intros -> Hc Hready.
  assert (Ht : sink_ready t = true).
  { apply (Hready (Close code t) t); [|done]. apply elem_of_app. right. by left. }
  rewrite Hc in Hms, Hcreated. rewrite Ht in Hms, Hcomplete. cbn [andb] in *.
  rewrite accepted_body in Hms; [|done|].
  - split; [|done]. eexists _, _, _. split; [exact Hms|].
    repeat split; try done. apply chunk_messages_are_chunks.
  - intros a t' Hin. apply Hready. apply elem_of_app. by left.
Qed.

Lemma C3_events_in_order_witness :
  let o := Scenario.request (Some "s1") (Some "/srv") None in
  let ms := sent (run_spawnQ "list files" o true Scenario.env Scenario.idle
                    ([StdoutData "a.txt" (Scenario.open_at 1700000000100)]
                     ++ [Close (Some 0%Z) (Scenario.open_at 1700000000200)])).1 in
  count_type session_created ms = 1 ∧ count_type q_complete ms = 1.
Proof.
  intros o ms.
  destruct (C3_events_in_order "list files" o true Scenario.env Scenario.idle
              [StdoutData "a.txt" (Scenario.open_at 1700000000100)] (Some 0%Z)
              (Scenario.open_at 1700000000200) eq_refl) as (_ & _ & H1 & H2 & _).
  exact (conj H1 H2).
Defined.

(** C3 as it is worded fails twice. When the socket closes during the
    run, the process was started and exits with code 0, the promise is
    resolved, and the socket got the session-created message and the
    chunk but no completed message. And when the process cannot be
    started, the runtime reports 'error' and then 'close' with the code
    -2, and a socket that is open is sent a completed message with that
    code after the error message. *)
Lemma C3_counterexample :
  let o := Scenario.request (Some "s1") (Some "/srv") None in
  let r := (run_spawnQ "list files" o true Scenario.env Scenario.idle
              [StdoutData "a.txt" (Scenario.open_at 1700000000100);
               Close (Some 0%Z) (Scenario.closed_at 1700000000200)]).1 in
  let r' := (run_spawnQ "list files" o true Scenario.env Scenario.idle
               (launch_failure "spawn q ENOENT" (Scenario.open_at 1700000000006)
                  (-2) (Scenario.open_at 1700000000007))).1 in
  (promise r = Resolved "a.txt" (Some "s1")
   ∧ type <$> sent r = [session_created; q_output]
   ∧ count_type q_complete (sent r) = 0)
  ∧ (promise r' = Rejected "spawn q ENOENT"
     ∧ type <$> sent r' = [session_created; q_error; q_complete]
     ∧ msg_exitCode <$> sent r' = [None; None; Some (Some (-2)%Z)]
     ∧ count_type q_complete (sent r') = 1).
Proof. vm_compute. repeat split; reflexivity. Qed.

(** ** Failure to start *)

(** After a successful recursive [fs.rmdir] nothing is left at or below
    the directory. *)
Lemma rmdir_recursive_gone dir p w :
  under dir p = true →
  (p ∉ dirs (rmdir_recursive true dir w)) ∧ (files (rmdir_recursive true dir w) !! p = None).
Proof.
  intros Hunder. cbn. split.
  - intros [Hnot _]%elem_of_filter. apply Hnot. by rewrite Hunder.
  - apply map_lookup_filter_None. right. intros x _ Hnot. cbn in Hnot.
    apply Hnot. by rewrite Hunder.
Qed.

Lemma under_refl dir : under dir dir = true.
Proof. unfold under. by rewrite String.eqb_refl. Qed.

(** A settled promise stays as it is. *)
Lemma step_settled a r w :
  promise r ≠ Pending → promise (step a (r, w)).1 = promise r.
Proof.
  destruct r as [sid scs td tip q ob eb pr sock snt]. cbn. intros Hp.
  destruct a as [chunk t|chunk t|code t|message t|sid' os|os];
    unfold step, on_stdout, on_stderr, on_close, on_error, released, ws_send, ws_open; cbn.
  - destruct sock, (readyState t =? 1)%N, (send_throws t); done.
  - destruct sock, (readyState t =? 1)%N, (send_throws t); done.
  - destruct sock, (readyState t =? 1)%N, (send_throws t), code as [[|?|?]|], pr; done.
  - destruct sock, (readyState t =? 1)%N, (send_throws t), pr; done.
  - done.
  - by destruct (timers w).
Qed.

(** What a recursive [fs.rmdir] did not find it does not bring back. *)
Lemma rmdir_recursive_absent ok dir p w :
  (p ∉ dirs w) ∧ (files w !! p = None) →
  (p ∉ dirs (rmdir_recursive ok dir w)) ∧ (files (rmdir_recursive ok dir w) !! p = None).
Proof.
  intros [Hd Hf]. destruct ok; cbn; [|done]. split.
  - by intros [_ ?]%elem_of_filter.
  - apply map_lookup_filter_None. by left.
Qed.

(** C4, as the code has it. When the process could not be started, the
    promise is rejected with that error, the entry of a truthy session
    identifier is deleted (a falsy one never had an entry), the staging
    directory and what is in it are removed when images were given and
    [fs.rmdir] succeeds, and the error message with the text of the
    failure is sent if a socket was passed, is open and [send] returns,
    and not otherwise. All of this holds once 'error' has been handled
    and still after the 'close' that the runtime reports next. *)
Theorem C4_launch_failure command o socket e w message t1 errno t2 :
  let failed (rw : run * world) :=
    promise rw.1 = Rejected message
    ∧ activeQProcesses rw.2
      = (if JS.truthy_opt (sessionId o)
         then delete (default "" (sessionId o)) (activeQProcesses w)
         else activeQProcesses w)
    ∧ (has_images o = true → rmdir_ok t1 = true →
       ∀ p, under (staging_dir o e) p = true → (p ∉ dirs rw.2) ∧ (files rw.2 !! p = None))
    ∧ filter (λ m, type m = q_error) (sent rw.1)
      = (if socket && sink_ready t1
         then [failure_message (sessionId o) message t1] else []) in
  failed (run_spawnQ command o socket e w [Error message t1])
  ∧ failed (run_spawnQ command o socket e w (launch_failure message t1 errno t2)).
Proof.
  intros failed.
  assert (Hfirst : failed (run_spawnQ command o socket e w [Error message t1])).
  { subst failed. cbv beta. unfold run_spawnQ.
    change (exec [Error message t1] ?rw) with (step (Error message t1) rw).
    destruct (spawnQ_run command o socket e w)
      as (Hsid & Hws & Hp & _ & _ & _ & Htd & Hsent).
    destruct (spawnQ_world command o socket e w) as (Hreg & _).
    destruct (spawnQ command o socket e w) as [r0 w0]. cbn [fst snd] in *.
    destruct (step_run (Error message t1) r0 w0) as (_ & _ & _ & _ & Hsent' & _).
    destruct (terminal_world (Error message t1) t1 r0 w0 eq_refl eq_refl)
      as (Hreg' & _ & _ & Hdirs & Hfiles).
    cbn zeta in *. split; [by apply error_promise|]. split; [|split].
    - rewrite Hreg'. unfold remove_from_active. rewrite Hsid.
      destruct (sessionId o) as [s|]; cbn in *; [|done].
      destruct (JS.truthy s); cbn; [|done]. by rewrite Hreg, delete_insert_eq.
    - intros Himg Hrm p Hunder. rewrite Hdirs, Hfiles.
      unfold clean_up_temp_images. rewrite Htd, Himg, Hrm.
      by apply rmdir_recursive_gone.
    - rewrite Hsent', Hsent, Hws, Hsid, filter_app.
      unfold accepted, created_message, failure_message. cbn.
      destruct (socket && sink_ready (created e)), (socket && sink_ready t1);
        rewrite ?filter_cons, ?filter_nil; repeat case_decide; done. }
  split; [exact Hfirst|].
  subst failed. cbv beta in *. unfold launch_failure, run_spawnQ in *.
  change (exec [Error message t1; Close (Some errno) t2] ?rw)
    with (step (Close (Some errno) t2) (exec [Error message t1] rw)).
  destruct (spawnQ_run command o socket e w) as (Hsid & Hws & _ & _ & _ & _ & Htd & _).
  destruct (exec_run [Error message t1] (spawnQ command o socket e w).1
              (spawnQ command o socket e w).2) as (Hsid1 & Hws1 & Htd1 & _).
  rewrite <- surjective_pairing in Hsid1, Hws1, Htd1.
  destruct (exec [Error message t1] (spawnQ command o socket e w)) as [r1 w1].
  cbn [fst snd] in *. destruct Hfirst as (Hp & Hreg & Hgone & Hsent).
  destruct (step_run (Close (Some errno) t2) r1 w1) as (_ & _ & _ & _ & Hsent' & _).
  destruct (terminal_world (Close (Some errno) t2) t2 r1 w1 eq_refl eq_refl)
    as (Hreg' & _ & _ & Hdirs & Hfiles).
  cbn zeta in *. split; [|split; [|split]].
  - rewrite step_settled; [done|]. by rewrite Hp.
  - rewrite Hreg'. unfold remove_from_active. rewrite Hsid1, Hsid.
    destruct (sessionId o) as [s|]; cbn in *; [|done].
    destruct (JS.truthy s); cbn in *; [|done]. by rewrite Hreg, delete_delete_eq.
  - intros Himg Hrm p Hunder. rewrite Hdirs, Hfiles.
    unfold clean_up_temp_images. destruct (tempDir r1) as [dir|]; [|by apply Hgone].
    apply rmdir_recursive_absent. by apply Hgone.
  - rewrite Hsent', filter_app, Hsent. unfold accepted, complete_message. cbn.
    destruct (ws r1 && sink_ready t2);
      rewrite ?filter_cons, ?filter_nil; repeat case_decide; try done;
      by rewrite app_nil_r.
Qed.

Lemma C4_launch_failure_witness :
  let o := Scenario.request (Some "s1") (Some "/srv") (Some [Scenario.png]) in
  let rw := run_spawnQ "describe this" o true Scenario.env Scenario.idle
              (launch_failure "spawn q ENOENT" (Scenario.open_at 1700000000006)
                 (-2) (Scenario.open_at 1700000000007)) in
  promise rw.1 = Rejected "spawn q ENOENT"
  ∧ activeQProcesses rw.2 = ∅
  ∧ filter (λ m, type m = q_error) (sent rw.1)
    = [failure_message (Some "s1") "spawn q ENOENT" (Scenario.open_at 1700000000006)].
Proof.
  intros o rw.
  destruct (C4_launch_failure "describe this" o true Scenario.env Scenario.idle
              "spawn q ENOENT" (Scenario.open_at 1700000000006) (-2)
              (Scenario.open_at 1700000000007)) as (_ & H1 & H2 & _ & H4).
  split; [exact H1|]. split; [|exact H4].
  etrans; [exact H2|]. by vm_compute.
Defined.

(** C4 as it is worded fails twice. When the socket is not open, the
    promise is rejected with the launch failure and no error message (no
    message at all) reaches the socket. And when the socket is open, the
    'close' that the runtime reports after 'error' makes the 'close'
    listener send a completed message, with the code -2, after the error
    message. *)
Lemma C4_counterexample :
  let o := Scenario.request (Some "s1") (Some "/srv") None in
  let e := {| process_cwd := "/srv"; process_env := ∅; staged_at := 1700000000000;
              mkdir_ok := true; write_ok := fun _ => true;
              created := Scenario.closed_at 1700000000005 |} in
  let r := (run_spawnQ "list files" o true e Scenario.idle
              (launch_failure "spawn q ENOENT" (Scenario.closed_at 1700000000006)
                 (-2) (Scenario.closed_at 1700000000007))).1 in
  let r' := (run_spawnQ "list files" o true Scenario.env Scenario.idle
               (launch_failure "spawn q ENOENT" (Scenario.open_at 1700000000006)
                  (-2) (Scenario.open_at 1700000000007))).1 in
  (promise r = Rejected "spawn q ENOENT" ∧ sent r = [])
  ∧ (promise r' = Rejected "spawn q ENOENT"
     ∧ type <$> sent r' = [session_created; q_error; q_complete]
     ∧ count_type q_complete (sent r') = 1).
Proof. vm_compute. repeat split; reflexivity. Qed.

(** ** The working directory and the staged images *)


Lemma path_prefixes_go_parent s rest : ∀ cur,
  JS.truthy (cur +:+ s) = true →
  cur +:+ s ∈ path_prefixes_go cur (s +:+ "/" +:+ rest).
Proof.
  induction s as [|c s IH]; intros cur Htruthy.
  - rewrite string_app_nil_r in *.
    change ("" +:+ "/" +:+ rest) with (String "/"%char rest).
    cbn [path_prefixes_go]. rewrite Ascii.eqb_refl, Htruthy.
    apply elem_of_app. left. by left.
  - assert (Hstep : cur +:+ String c s = (cur +:+ String c "") +:+ s)
      by (by rewrite string_app_assoc).
    change (String c s +:+ "/" +:+ rest) with (String c (s +:+ "/" +:+ rest)).
    cbn [path_prefixes_go]. destruct (Ascii.eqb_spec c "/"%char) as [->|Hne].
    + apply elem_of_app. right. rewrite Hstep. apply IH. by rewrite <- Hstep.
    + rewrite Hstep. apply IH. by rewrite <- Hstep.
Qed.


(** The directories after [spawnQ]: those of the staging directory are
    added when there are images and [fs.mkdir] succeeds; nothing is
    looked up and nothing else is made. *)
Lemma spawnQ_dirs command o socket e w :
  dirs (spawnQ command o socket e w).2
  = (if has_images o && mkdir_ok e
     then dirs w ∪ list_to_set (path_prefixes (staging_dir o e))
     else dirs w).
Proof.
  unfold spawnQ. fold (prompt_args command). fold (working_dir o e).
  assert (Hpi : dirs (process_images command (working_dir o e) (images o) e
                        (prompt_args command) w).2
                = (if has_images o && mkdir_ok e
                   then dirs w ∪ list_to_set (path_prefixes (staging_dir o e))
                   else dirs w)).
  { unfold process_images, has_images, staging_dir.
    destruct (images o) as [[|img rest]|]; try done.
    unfold mkdir_recursive. destruct (mkdir_ok e); [|done].
    set (dir := path_join _). set (w1 := set_fs _ _ w).
    pose proof (stage_images_frame dir (write_ok e) (img :: rest) 0 [] w1) as Hst.
    destruct (stage_images dir (write_ok e) 0 (img :: rest) [] w1) as [[[]|err] [paths w2]];
      cbn in *; destruct Hst as (_ & _ & _ & ->); done. }
  destruct (process_images command (working_dir o e) (images o) e (prompt_args command) w)
    as [[[dir paths] args'] w1]; cbn [snd] in Hpi.
  match goal with |- context [send_session_created ?t (?r, ?w)] =>
    destruct (send_session_created_world t r w) as (_ & _ & _ & -> & _) end.
  match goal with |- context [store_process ?s ?p ?w] =>
    destruct (store_process_children s p w) as (_ & _ & -> & _) end.
  exact Hpi.
Qed.





Lemma count_line_app l ls1 ls2 :
  count_line l (ls1 ++ ls2) = count_line l ls1 + count_line l ls2.
Proof. unfold count_line. by rewrite filter_app, length_app. Qed.

Lemma count_line_replicate l n : count_line l (replicate n l) = n.
Proof.
  unfold count_line. induction n as [|n IH]; [done|].
  cbn [replicate]. rewrite filter_cons_True by done. cbn. by rewrite IH.
Qed.

(** The loop over the images when every [fs.writeFile] succeeds: it runs
    to its end, writes one file per well-formed entry and prints one
    diagnostic per malformed one. *)
Lemma stage_images_ok dir ok imgs :
  (∀ i, ok i = true) → ∀ index paths w,
  ∃ w', stage_images dir ok index imgs paths w
        = (Ok (), (paths ++ staged_paths dir index imgs, w'))
    ∧ console w' = console w ++ replicate (length (malformed imgs)) diagnostic
    ∧ (∀ p, p ∈ staged_paths dir index imgs → is_Some (files w' !! p))
    ∧ (∀ p, p ∉ staged_paths dir index imgs → files w' !! p = files w !! p).
Proof.
  intros Hok. induction imgs as [|img rest IH]; intros index paths w.
  - exists w. cbn. rewrite !app_nil_r. repeat split; try done.
    intros p Hin. by apply elem_of_nil in Hin.
  - cbn [stage_images staged_paths]. unfold stage_one, staged_path, malformed.
    rewrite Hok.
    assert (Hwf : well_formed img = match match_data_url (data img) with
                                    | Some _ => true | None => false end) by done.
    destruct (match_data_url (data img)) as [[mimeType base64Data]|] eqn:Hmatch.
    + cbn [writeFile]. set (path := path_join _). set (w1 := set_fs _ _ w).
      destruct (IH (S index) (paths ++ [path]) w1) as (w' & -> & Hcon & Hin & Hout).
      exists w'. rewrite <- app_assoc. split; [done|].
      rewrite filter_cons_False by (rewrite Hwf; cbn; tauto). split; [exact Hcon|]. split.
      * intros p Hp. destruct (decide (p ∈ staged_paths dir (S index) rest)) as [Hr|Hr];
          [by apply Hin|].
        apply elem_of_cons in Hp as [->|Hp]; [|done].
        rewrite Hout by done. subst w1. cbn. rewrite lookup_insert_eq. eauto.
      * intros p Hp. apply not_elem_of_cons in Hp as [Hne Hp].
        rewrite Hout by done. subst w1. cbn. by rewrite lookup_insert_ne.
    + destruct (IH (S index) paths (print (ConsoleError ["Invalid image data format"]) w))
        as (w' & -> & Hcon & Hin & Hout).
      exists w'. split; [done|].
      rewrite filter_cons_True by (rewrite Hwf; cbn; tauto). cbn [length replicate].
      split; [|done]. rewrite Hcon. cbn. by rewrite <- app_assoc.
Qed.

(** The console after [spawnQ]: what staging printed, the two lines on
    the command, and a line if sending the first message threw. *)
Lemma spawnQ_console command o socket e w :
  let w1 := (process_images command (working_dir o e) (images o) e (prompt_args command) w).2 in
  ∃ tail, console (spawnQ command o socket e w).2 = console w1 ++ tail
          ∧ count_line diagnostic tail = 0
          ∧ files (spawnQ command o socket e w).2 = files w1.
Proof.
  unfold spawnQ. fold (prompt_args command). fold (working_dir o e).
  destruct (process_images command (working_dir o e) (images o) e (prompt_args command) w)
    as [[[dir paths] args'] w1]. cbn [snd].
  unfold send_session_created, store_process.
  destruct (ws_open _ _ && negb _), (send_throws (created e)), (sessionId o) as [[|??]|];
    cbn; rewrite <- ?app_assoc; eexists; (split; [reflexivity|]); split; done.
Qed.

Lemma staged_paths_length dir imgs : ∀ index,
  length (staged_paths dir index imgs) + length (malformed imgs) = length imgs.
Proof.
  induction imgs as [|img rest IH]; intros index; [done|].
  cbn [staged_paths]. unfold staged_path, malformed.
  assert (Hwf : well_formed img = match match_data_url (data img) with
                                  | Some _ => true | None => false end) by done.
  destruct (match_data_url (data img)) as [[mimeType base64Data]|].
  - rewrite filter_cons_False by (rewrite Hwf; cbn; tauto). cbn [length].
    specialize (IH (S index)). unfold malformed in IH. lia.
  - rewrite filter_cons_True by (rewrite Hwf; cbn; tauto). cbn [length].
    specialize (IH (S index)). unfold malformed in IH. lia.
Qed.

(** Staging when the directory can be made and every file written. *)
Lemma process_images_ok command e workingDir imgs args w :
  imgs ≠ [] → mkdir_ok e = true → (∀ i, write_ok e i = true) →
  let dir := path_join [workingDir; ".tmp"; "images"; JS.decN (staged_at e)] in
  ∃ w2, process_images command workingDir (Some imgs) e args w
        = (Some dir, staged_paths dir 0 imgs,
           include_image_paths command (staged_paths dir 0 imgs) args, w2)
    ∧ console w2 = console w ++ replicate (length (malformed imgs)) diagnostic
    ∧ (∀ p, p ∈ staged_paths dir 0 imgs → is_Some (files w2 !! p))
    ∧ (∀ p, p ∉ staged_paths dir 0 imgs → files w2 !! p = files w !! p).
Proof.
  intros Hne Hmk Hwr dir. unfold process_images.
  destruct imgs as [|img rest]; [done|].
  unfold mkdir_recursive. rewrite Hmk. fold dir. set (w1 := set_fs _ _ w).
  destruct (stage_images_ok dir (write_ok e) (img :: rest) Hwr 0 [] w1)
    as (w2 & -> & Hcon & Hin & Hout).
  exists w2. cbn [app]. repeat split; done.
Qed.

Lemma spawnQ_tempImagePaths command o socket e w :
  tempImagePaths (spawnQ command o socket e w).1
  = (process_images command (working_dir o e) (images o) e (prompt_args command) w).1.1.2.
Proof.
  unfold spawnQ. fold (prompt_args command). fold (working_dir o e).
  destruct (process_images command (working_dir o e) (images o) e (prompt_args command) w)
    as [[[dir paths] args'] w1]. cbn [fst snd].
  unfold send_session_created.
  destruct (ws_open _ _ && negb _), (send_throws (created e)); done.
Qed.

(** C6: when the staging directory can be made and the files written,
    [spawnQ] stages exactly the well-formed entries of the attachment
    list, in order (one file for a list of one well-formed and one
    malformed entry), prints one diagnostic per malformed entry, throws
    nothing and goes on to start the child with the promise pending. *)
Theorem C6_malformed_images_are_skipped command o socket e w imgs :
  images o = Some imgs →
  mkdir_ok e = true → (∀ i, write_ok e i = true) →
  let rw := spawnQ command o socket e w in
  tempImagePaths rw.1 = staged_paths (staging_dir o e) 0 imgs
  ∧ length (tempImagePaths rw.1) = length imgs - length (malformed imgs)
  ∧ (∀ p, p ∈ tempImagePaths rw.1 → is_Some (files rw.2 !! p))
  ∧ (∀ p, p ∉ tempImagePaths rw.1 → files rw.2 !! p = files w !! p)
  ∧ count_line diagnostic (console rw.2)
    = count_line diagnostic (console w) + length (malformed imgs)
  ∧ children rw.2 = children w ++ [spawned command o e]
  ∧ promise rw.1 = Pending.
Proof.
  intros Himgs Hmk Hwr rw. subst rw.
  destruct (spawnQ_console command o socket e w) as (tail & Hcon & Htail & Hfiles).
  pose proof (spawnQ_tempImagePaths command o socket e w) as Hpaths.
  destruct (spawnQ_run command o socket e w) as (_ & _ & Hp & _).
  rewrite Himgs in *.
  assert (∃ dir args' w2,
            process_images command (working_dir o e) (Some imgs) e (prompt_args command) w
            = (dir, staged_paths (staging_dir o e) 0 imgs, args', w2)
            ∧ console w2 = console w ++ replicate (length (malformed imgs)) diagnostic
            ∧ (∀ p, p ∈ staged_paths (staging_dir o e) 0 imgs → is_Some (files w2 !! p))
            ∧ (∀ p, p ∉ staged_paths (staging_dir o e) 0 imgs → files w2 !! p = files w !! p))
    as (dir & args' & w2 & Hpi & Hcon2 & Hin & Hout).
  { destruct (decide (imgs = [])) as [->|Hne].
    - exists None, (prompt_args command), w. cbn. rewrite app_nil_r.
      repeat split; try done. intros p Hnil. by apply elem_of_nil in Hnil.
    - destruct (process_images_ok command e (working_dir o e) imgs (prompt_args command) w
                  Hne Hmk Hwr) as (w2 & Hpi & Hrest).
      eexists _, _, w2. split; [exact Hpi|exact Hrest]. }
  rewrite Hpi in *. cbn [fst snd] in *.
  rewrite Hpaths, Hfiles, Hcon, Hcon2.
  repeat split; try done.
  - pose proof (staged_paths_length (staging_dir o e) imgs 0). lia.
  - rewrite !count_line_app, count_line_replicate, Htail. lia.
  - apply spawnQ_children.
Qed.

Lemma C6_malformed_images_are_skipped_witness :
  let o := Scenario.request (Some "s1") (Some "/srv") (Some [Scenario.png; Scenario.bare]) in
  let o' := Scenario.request (Some "s1") (Some "/srv") (Some [Scenario.bare; Scenario.png]) in
  tempImagePaths (spawnQ "describe this" o true Scenario.env Scenario.idle).1
  = ["/srv/.tmp/images/1700000000000/image_0.png"]
  ∧ tempImagePaths (spawnQ "describe this" o' true Scenario.env Scenario.idle).1
    = ["/srv/.tmp/images/1700000000000/image_1.png"].
Proof.
  intros o o'. split.
  - apply (C6_malformed_images_are_skipped "describe this" o true Scenario.env Scenario.idle
             [Scenario.png; Scenario.bare]); done.
  - apply (C6_malformed_images_are_skipped "describe this" o' true Scenario.env Scenario.idle
             [Scenario.bare; Scenario.png]); done.
Defined.

(** ** A run without a session identifier *)

Lemma abort_untouched q sid os w :
  untouched q w → untouched q (abortQSession sid os w).2.
Proof.
  intros (Hreg & Htm & c & Hc & Hsig & Hk). unfold abortQSession.
  cbn [activeQProcesses children print].
  destruct (activeQProcesses w !! sid) as [p|] eqn:Hp; [|by repeat split; eauto].
  assert (Hpq : p ≠ q) by (intros ->; by apply (Hreg sid)).
  destruct (children w !! p) as [c'|] eqn:Hc'; [|by repeat split; eauto].
  destruct (killed c'); cbn [negb]; [by repeat split; eauto|].
  destruct (kill os SIGTERM c') as [[answer|err] c''];
    unfold untouched; cbn; (split; [|split]); try done.
  - intros s. destruct (decide (s = sid)) as [->|Hne].
    + by rewrite lookup_delete_eq.
    + rewrite lookup_delete_ne by done. apply Hreg.
  - intros tm [Hin| ->%list_elem_of_singleton]%elem_of_app; [by apply Htm|done].
  - exists c. by rewrite list_lookup_insert_ne.
  - by exists c.
Qed.

Lemma timeout_untouched q os r w :
  untouched q w → untouched q (step (TimerFires os) (r, w)).2.
Proof.
  intros Hun. cbn. destruct (timers w) as [|tm rest] eqn:Htimers; [exact Hun|].
  destruct Hun as (Hreg & Htm & c & Hc & Hsig & Hk). rewrite Htimers in Htm.
  assert (Hne : timer_process tm ≠ q) by (apply Htm; by left).
  assert (Hrest : ∀ tm', tm' ∈ rest → timer_process tm' ≠ q)
    by (intros tm' Hin; apply Htm; by right).
  unfold force_kill, untouched. cbn.
  destruct (children w !! timer_process tm) as [c'|]; [|by repeat split; eauto].
  destruct (killed c'); cbn; [by repeat split; eauto|].
  repeat split; try done. exists c. by rewrite list_lookup_insert_ne.
Qed.

Lemma step_untouched q a r w :
  capturedSessionId r = None → qProcess r = q →
  untouched q w → untouched q (step a (r, w)).2.
Proof.
  intros Hsid Hq Hun.
  destruct a as [chunk t|chunk t|code t|message t|sid os|os].
  - destruct (data_world (StdoutData chunk t) r w) as (Hr & Hc & Ht & _); [done|by eexists|].
    unfold untouched. by rewrite Hr, Hc, Ht.
  - destruct (data_world (StderrData chunk t) r w) as (Hr & Hc & Ht & _); [done|by eexists|].
    unfold untouched. by rewrite Hr, Hc, Ht.
  - destruct (terminal_world (Close code t) t r w eq_refl eq_refl) as (Hr & Hc & Ht & _).
    destruct Hun as (Hreg & Htm & c & Hcq & Hsig & Hk).
    unfold untouched. rewrite Hr, Hc, Ht. unfold remove_from_active. rewrite Hsid, Hq.
    repeat split; try done. exists (release c).
    by rewrite list_lookup_alter_eq, Hcq.
  - destruct (terminal_world (Error message t) t r w eq_refl eq_refl) as (Hr & Hc & Ht & _).
    destruct Hun as (Hreg & Htm & c & Hcq & Hsig & Hk).
    unfold untouched. rewrite Hr, Hc, Ht. unfold remove_from_active. rewrite Hsid, Hq.
    repeat split; try done. exists (release c).
    by rewrite list_lookup_alter_eq, Hcq.
  - by apply abort_untouched.
  - by apply timeout_untouched.
Qed.

Lemma exec_untouched q trace : ∀ r w,
  capturedSessionId r = None → qProcess r = q →
  untouched q w → untouched q (exec trace (r, w)).2.
Proof.
  induction trace as [|a trace IH]; intros r w Hsid Hq Hun; [done|].
  rewrite exec_cons. pose proof (step_untouched q a r w Hsid Hq Hun) as Hun'.
  destruct (step_run a r w) as (Hsid' & _ & _ & Hq' & _).
  destruct (step a (r, w)) as [r1 w1]. cbn [fst snd] in *.
  apply IH; congruence.
Qed.

(** A message of a listener carries the session identifier of the run
    and is not the session-created message. *)
Lemma accepted_session socket sid a m :
  m ∈ accepted socket sid a → type m ≠ session_created ∧ msg_sessionId m = sid.
Proof.
  destruct a as [chunk t|chunk t|code t|message t|sid' os|os]; unfold accepted; cbn;
    try (by intros ?%elem_of_nil);
    destruct (socket && sink_ready t);
    try (by intros ?%elem_of_nil); intros ->%list_elem_of_singleton; done.
Qed.

Lemma trace_session socket sid trace m :
  m ∈ concat (accepted socket sid <$> trace) → type m ≠ session_created ∧ msg_sessionId m = sid.
Proof.
  induction trace as [|a trace IH]; [by intros ?%elem_of_nil|].
  rewrite fmap_cons. cbn [concat]. intros [Hm|Hm]%elem_of_app; [|by apply IH].
  by apply accepted_session in Hm.
Qed.

(** C9: in a run started without a session identifier the process object
    is never put into [activeQProcesses], so that no call of
    [abortQSession] and no timer ever signals it. The session-created
    message, which is the first the socket gets when it is open and
    [send] returns, carries the generated "q-session-<time>"; every
    message after it is what a listener sent and carries no session
    identifier. *)
Theorem C9_run_without_session_id command o socket e w trace :
  sessionId o = None → world_ok w →
  let rw := run_spawnQ command o socket e w trace in
  let q := length (children w) in
  let first :=
    {| type := session_created;
       msg_sessionId := Some ("q-session-" +:+ JS.decN (at_time (created e)));
       msg_data := None; msg_error := None; msg_exitCode := None;
       timestamp := at_time (created e) |} in
  qProcess rw.1 = q
  ∧ (∀ s, activeQProcesses rw.2 !! s ≠ Some q)
  ∧ (∃ c, children rw.2 !! q = Some c ∧ signals c = [] ∧ killed c = false)
  ∧ (∀ m, m ∈ sent rw.1 →
       (type m = session_created
        ∧ msg_sessionId m = Some ("q-session-" +:+ JS.decN (at_time (created e))))
       ∨ (type m ≠ session_created ∧ msg_sessionId m = None))
  ∧ sent rw.1
    = (if socket && sink_ready (created e) then [first] else [])
      ++ concat (accepted socket None <$> trace)
  ∧ Forall (λ m, type m ≠ session_created ∧ msg_sessionId m = None)
      (concat (accepted socket None <$> trace)).
Proof.
  intros Hnone [Hwreg Hwtm] rw q first. subst rw q first. unfold run_spawnQ.
  destruct (spawnQ_run command o socket e w) as (Hsid & Hws & _ & _ & _ & Hq & _ & Hsent).
  destruct (spawnQ_world command o socket e w) as (Hreg & Htm).
  pose proof (spawnQ_children command o socket e w) as Hch.
  destruct (spawnQ command o socket e w) as [r0 w0]. cbn [fst snd] in *.
  rewrite Hnone in *. cbn in Hreg.
  assert (Hun : untouched (length (children w)) w0).
  { split; [|split].
    - intros s Hs. rewrite Hreg in Hs. apply Hwreg in Hs. lia.
    - intros tm Hin Heq. rewrite Htm in Hin. apply Hwtm in Hin. lia.
    - exists (spawned command o e). rewrite Hch. split; [|done].
      by rewrite lookup_app_r, Nat.sub_diag by lia. }
  pose proof (exec_untouched _ trace r0 w0 Hsid Hq Hun) as (Hreg' & _ & Hc').
  destruct (exec_run trace r0 w0) as (_ & _ & _ & Hq' & Hsent' & _).
  destruct (exec trace (r0, w0)) as [r1 w1]. cbn [fst snd] in *.
  split; [congruence|]. split; [done|]. split; [done|].
  assert (Hrest : Forall (λ m, type m ≠ session_created ∧ msg_sessionId m = None)
                    (concat (accepted socket None <$> trace))).
  { apply Forall_forall. intros m Hm. by apply trace_session in Hm. }
  split; [|split; [|exact Hrest]].
  - intros m. rewrite Hsent', Hsent, Hsid, Hws.
    intros [Hm|Hm]%elem_of_app.
    + left. destruct (socket && sink_ready (created e)); [|by apply elem_of_nil in Hm].
      apply list_elem_of_singleton in Hm as ->. unfold created_message. rewrite Hnone. done.
    + right. by apply trace_session in Hm.
  - rewrite Hsent', Hsent, Hsid, Hws. unfold created_message. by rewrite Hnone.
Qed.

Lemma C9_run_without_session_id_witness :
  let o := Scenario.request None (Some "/srv") None in
  let rw := run_spawnQ "list files" o true Scenario.env Scenario.idle
              [StdoutData "a.txt" (Scenario.open_at 1700000000100);
               Abort "q-session-1700000000005" UV_OK;
               Close (Some 0%Z) (Scenario.open_at 1700000000200)] in
  qProcess rw.1 = 0
  ∧ (∃ c, children rw.2 !! 0 = Some c ∧ signals c = [] ∧ killed c = false)
  ∧ (λ m, (type m, msg_sessionId m)) <$> sent rw.1
    = [(session_created, Some "q-session-1700000000005"); (q_output, None);
       (q_complete, None)].
Proof.
  intros o rw.
  destruct (C9_run_without_session_id "list files" o true Scenario.env Scenario.idle
              [StdoutData "a.txt" (Scenario.open_at 1700000000100);
               Abort "q-session-1700000000005" UV_OK;
               Close (Some 0%Z) (Scenario.open_at 1700000000200)])
    as (Hq & _ & Hc & _ & Hsent & _).
  - reflexivity.
  - split.
    + intros s p Hs. cbn in Hs. by rewrite lookup_empty in Hs.
    + intros tm Hin. cbn in Hin. by apply elem_of_nil in Hin.
  - split; [exact Hq|]. split; [exact Hc|].
    etrans; [exact (f_equal (fmap (λ m, (type m, msg_sessionId m))) Hsent)|].
    by vm_compute.
Defined.

(** ** Further facts on the two functions *)

(** A second abort of the same session finds nothing and answers [false]. *)
Example abort_twice :
  let w1 := (abortQSession "s1" UV_OK Scenario.one_live).2 in
  (abortQSession "s1" UV_OK w1).1 = false.
Proof. vm_compute. reflexivity. Qed.

(** If the runtime reports 'close' after 'error', the 'close' listener
    sends its completed message all the same: nothing in [spawnQ]
    records that the run has already failed. The promise stays rejected
    with the first error. *)
Remark close_after_error command o e w message code t1 t2 :
  sink_ready (created e) = true → sink_ready t1 = true → sink_ready t2 = true →
  let r := (run_spawnQ command o true e w [Error message t1; Close code t2]).1 in
  sent r = [created_message o (created e); failure_message (sessionId o) message t1;
            complete_message (sessionId o) code t2]
  ∧ promise r = Rejected message.
Proof.
  intros Hc H1 H2. unfold run_spawnQ.
  destruct (spawnQ_run command o true e w) as (Hsid & Hws & Hp & _ & _ & _ & _ & Hsent).
  destruct (spawnQ command o true e w) as [r0 w0]. cbn [fst] in *.
  destruct (exec_run [Error message t1; Close code t2] r0 w0) as (_ & _ & _ & _ & Hs & _).
  cbn zeta. split.
  - rewrite Hs, Hsent, Hws, Hsid, Hc. unfold accepted. cbn. by rewrite H1, H2.
  - pose proof (error_promise message t1 r0 w0 Hp) as Hrej.
    change (exec [Error message t1; Close code t2] (r0, w0))
      with (step (Close code t2) (step (Error message t1) (r0, w0))).
    destruct (step (Error message t1) (r0, w0)) as [r1 w1]. cbn [fst] in *.
    destruct r1 as [sid scs td tip q ob eb pr sock snt]. cbn in Hrej. subst pr.
    unfold step, on_close, released, ws_send, ws_open. cbn.
    destruct sock, (readyState t2 =? 1)%N, (send_throws t2), code as [[|?|?]|]; done.
Qed.

(** After an abort that sent SIGTERM, the timer it left never sends
    SIGKILL, whatever the operating system would answer. *)
Lemma abort_then_timer sid p c w os :
  activeQProcesses w !! sid = Some p → children w !! p = Some c →
  killed c = false → handle c = true →
  let w1 := (abortQSession sid UV_OK w).2 in
  force_kill {| delay := grace_period; timer_process := p; timer_session := sid |} os w1 = w1.
Proof.
  intros Hreg Hc Hk Hh. pose proof (abort_live sid p c w Hreg Hc Hk Hh) as Habort.
  destruct (abortQSession sid UV_OK w) as [answer w1]. cbn [snd].
  destruct Habort as (_ & _ & _ & Hc1). by eapply force_kill_after_signal.
Qed.

(** * Further properties of the module *)

(** ** Registration and abort *)

(** An abort for an identifier without an entry, as a fact on the world. *)
Lemma abort_no_entry sid os w :
  activeQProcesses w !! sid = None →
  (abortQSession sid os w).1 = false
  ∧ activeQProcesses (abortQSession sid os w).2 = activeQProcesses w
  ∧ children (abortQSession sid os w).2 = children w
  ∧ timers (abortQSession sid os w).2 = timers w.
Proof.
  intros Hnone. unfold abortQSession. cbn [activeQProcesses print]. by rewrite Hnone.
Qed.

(** An abort that answers [true] has taken the entry out of the map. *)
Lemma abort_true_unregisters sid os w :
  (abortQSession sid os w).1 = true → activeQProcesses (abortQSession sid os w).2 !! sid = None.
Proof.
  unfold abortQSession. cbn [activeQProcesses children print].
  destruct (activeQProcesses w !! sid) as [p|]; [|done].
  destruct (children w !! p) as [c|]; [|done].
  destruct (killed c); [done|]. cbn [negb].
  destruct (kill os SIGTERM c) as [[answer|err] c']; [|done].
  intros _. cbn. apply lookup_delete_eq.
Qed.

(** X1: a call without images registers the process before it returns:
    the promise executor has no [await] on that path, so an abort that
    comes first of all finds the process, answers [true], sends it
    SIGTERM and unregisters it. (With images the executor waits for the
    file system before it spawns, and an abort right after the call finds
    nothing yet.) *)
Theorem abort_right_after_spawn command o socket e w sid :
  has_images o = false →
  sessionId o = Some sid → JS.truthy sid = true →
  let rw := spawnQ command o socket e w in
  let '(answer, w') := abortQSession sid UV_OK rw.2 in
  answer = true
  ∧ activeQProcesses w' !! sid = None
  ∧ children w' !! qProcess rw.1
    = Some {| request := request (spawned command o e); handle := true; killed := true;
              signals := [SIGTERM] |}.
Proof.
  intros _ Hsid Htruthy rw. subst rw.
  destruct (spawnQ_run command o socket e w) as (_ & _ & _ & _ & _ & Hq & _).
  destruct (spawnQ_world command o socket e w) as (Hreg & _).
  pose proof (spawnQ_children command o socket e w) as Hch.
  destruct (spawnQ command o socket e w) as [r0 w0]. cbn [fst snd] in *.
  rewrite Hsid in Hreg. cbn in Hreg. rewrite Htruthy in Hreg.
  assert (Hentry : activeQProcesses w0 !! sid = Some (length (children w)))
    by (rewrite Hreg; apply lookup_insert_eq).
  assert (Hchild : children w0 !! length (children w) = Some (spawned command o e))
    by (by rewrite Hch, lookup_app_r, Nat.sub_diag by lia).
  pose proof (abort_live sid _ _ w0 Hentry Hchild eq_refl eq_refl) as Habort.
  destruct (abortQSession sid UV_OK w0) as [answer w'].
  destruct Habort as (-> & -> & _ & Hc'). rewrite Hq, Hc'. split; [done|].
  split; [apply lookup_delete_eq|done].
Qed.

Lemma abort_right_after_spawn_witness :
  let o := Scenario.request (Some "s1") (Some "/srv") None in
  (abortQSession "s1" UV_OK (spawnQ "list files" o true Scenario.env Scenario.idle).2).1 = true.
Proof.
  intros o.
  pose proof (abort_right_after_spawn "list files" o true Scenario.env Scenario.idle "s1"
                eq_refl eq_refl eq_refl) as H.
  cbn zeta in H.
  destruct (abortQSession "s1" UV_OK (spawnQ "list files" o true Scenario.env Scenario.idle).2)
    as [answer w']. by destruct H as (-> & _).
Defined.

(** X2: abort is idempotent: after an abort that answered [true], a second
    abort of the same identifier answers [false] and signals nothing,
    whatever has become of the process. *)
Theorem second_abort_is_refused sid os os' w :
  (abortQSession sid os w).1 = true →
  let w1 := (abortQSession sid os w).2 in
  (abortQSession sid os' w1).1 = false
  ∧ activeQProcesses (abortQSession sid os' w1).2 = activeQProcesses w1
  ∧ children (abortQSession sid os' w1).2 = children w1
  ∧ timers (abortQSession sid os' w1).2 = timers w1.
Proof. intros Htrue w1. apply abort_no_entry. by apply abort_true_unregisters. Qed.

Lemma second_abort_is_refused_witness :
  (abortQSession "s1" UV_ESRCH (abortQSession "s1" UV_OK Scenario.one_live).2).1 = false.
Proof.
  apply (second_abort_is_refused "s1" UV_OK UV_ESRCH Scenario.one_live).
  vm_compute. reflexivity.
Defined.

(** X3: the map is keyed by the session identifier alone. When a second run
    is started under the identifier of a run that is still going, the
    entry passes to the second process; when the first run then ends,
    its 'close' listener deletes that entry, and the second process,
    still running, can no longer be aborted. *)
Theorem reused_session_id_orphans_the_second_run
    command1 o1 socket1 e1 command2 o2 socket2 e2 w sid code t os :
  sessionId o1 = Some sid → sessionId o2 = Some sid → JS.truthy sid = true →
  let '(r1, w1) := spawnQ command1 o1 socket1 e1 w in
  let '(r2, w2) := spawnQ command2 o2 socket2 e2 w1 in
  let w3 := (step (Close code t) (r1, w2)).2 in
  qProcess r2 = S (qProcess r1)
  ∧ activeQProcesses w2 !! sid = Some (qProcess r2)
  ∧ activeQProcesses w3 !! sid = None
  ∧ children w3 !! qProcess r2 = Some (spawned command2 o2 e2)
  ∧ (abortQSession sid os w3).1 = false
  ∧ children (abortQSession sid os w3).2 = children w3.
Proof.
  intros Hsid1 Hsid2 Htruthy.
  destruct (spawnQ_run command1 o1 socket1 e1 w) as (Hc1 & _ & _ & _ & _ & Hq1 & _).
  pose proof (spawnQ_children command1 o1 socket1 e1 w) as Hch1.
  destruct (spawnQ command1 o1 socket1 e1 w) as [r1 w1]. cbn [fst snd] in *.
  destruct (spawnQ_run command2 o2 socket2 e2 w1) as (_ & _ & _ & _ & _ & Hq2 & _).
  destruct (spawnQ_world command2 o2 socket2 e2 w1) as (Hreg2 & _).
  pose proof (spawnQ_children command2 o2 socket2 e2 w1) as Hch2.
  destruct (spawnQ command2 o2 socket2 e2 w1) as [r2 w2]. cbn [fst snd] in *.
  rewrite Hsid2 in Hreg2. cbn in Hreg2. rewrite Htruthy in Hreg2.
  destruct (terminal_world (Close code t) t r1 w2 eq_refl eq_refl) as (Hreg3 & Hch3 & _).
  cbn zeta in *.
  assert (Hlen : length (children w1) = S (length (children w)))
    by (rewrite Hch1, length_app; cbn; lia).
  assert (Hgone : activeQProcesses (step (Close code t) (r1, w2)).2 !! sid = None).
  { rewrite Hreg3. unfold remove_from_active. rewrite Hc1, Hsid1, Htruthy. cbn.
    apply lookup_delete_eq. }
  split; [lia|]. split; [rewrite Hreg2, Hq2; apply lookup_insert_eq|].
  split; [exact Hgone|]. split.
  - rewrite Hch3, list_lookup_alter_ne by lia.
    by rewrite Hch2, Hq2, lookup_app_r, Nat.sub_diag by lia.
  - by destruct (abort_no_entry sid os _ Hgone) as (? & _ & ? & _).
Qed.

Lemma reused_session_id_orphans_the_second_run_witness :
  let o := Scenario.request (Some "s1") (Some "/srv") None in
  let w1 := (spawnQ "first" o true Scenario.env Scenario.idle).2 in
  let r1 := (spawnQ "first" o true Scenario.env Scenario.idle).1 in
  let w2 := (spawnQ "second" o true Scenario.env w1).2 in
  (abortQSession "s1" UV_OK
     (step (Close (Some 0%Z) (Scenario.open_at 1700000000300)) (r1, w2)).2).1 = false.
Proof.
  intros o w1 r1 w2. subst w1 r1 w2.
  pose proof (reused_session_id_orphans_the_second_run
                "first" o true Scenario.env "second" o true Scenario.env Scenario.idle "s1"
                (Some 0%Z) (Scenario.open_at 1700000000300) UV_OK eq_refl eq_refl eq_refl) as H.
  destruct (spawnQ "first" o true Scenario.env Scenario.idle) as [r1 w1].
  cbn [fst snd]. destruct (spawnQ "second" o true Scenario.env w1) as [r2 w2].
  cbn [fst snd]. by destruct H as (_ & _ & _ & _ & H & _).
Defined.

(** X4: once 'close' or 'error' has been handled, the identifier of the run
    has no entry, and an abort that comes afterwards answers [false]
    and touches no process. *)
Theorem ended_run_is_unregistered command o socket e w trace a sid os :
  sessionId o = Some sid → JS.truthy sid = true → is_terminal a = true →
  let rw := run_spawnQ command o socket e w (trace ++ [a]) in
  activeQProcesses rw.2 !! sid = None
  ∧ (abortQSession sid os rw.2).1 = false
  ∧ children (abortQSession sid os rw.2).2 = children rw.2.
Proof.
  intros Hsid Htruthy Hterm rw. subst rw. unfold run_spawnQ. rewrite exec_app.
  destruct (spawnQ_run command o socket e w) as (Hc & _).
  destruct (spawnQ command o socket e w) as [r0 w0]. cbn [fst] in Hc.
  destruct (exec_run trace r0 w0) as (Hc' & _).
  destruct (exec trace (r0, w0)) as [r1 w1]. cbn [fst] in Hc'.
  change (exec [a] (r1, w1)) with (step a (r1, w1)).
  assert (Htick : ∃ t, tick_of a = Some t) by (destruct a; try done; by eexists).
  destruct Htick as [t Htick].
  destruct (terminal_world a t r1 w1 Hterm Htick) as (Hreg & _).
  assert (Hgone : activeQProcesses (step a (r1, w1)).2 !! sid = None).
  { rewrite Hreg. unfold remove_from_active. rewrite Hc', Hc, Hsid, Htruthy. cbn.
    apply lookup_delete_eq. }
  split; [exact Hgone|]. by destruct (abort_no_entry sid os _ Hgone) as (? & _ & ? & _).
Qed.

Lemma ended_run_is_unregistered_witness :
  let o := Scenario.request (Some "s1") (Some "/srv") None in
  (abortQSession "s1" UV_OK
     (run_spawnQ "list files" o true Scenario.env Scenario.idle
        ([StdoutData "a.txt" (Scenario.open_at 1700000000100)]
         ++ [Close (Some 0%Z) (Scenario.open_at 1700000000200)])).2).1 = false.
Proof.
  intros o.
  apply (ended_run_is_unregistered "list files" o true Scenario.env Scenario.idle
           [StdoutData "a.txt" (Scenario.open_at 1700000000100)]
           (Close (Some 0%Z) (Scenario.open_at 1700000000200)) "s1" UV_OK);
    reflexivity.
Defined.

(** ** What the caller is told *)

Lemma exec_settled trace : ∀ r w,
  promise r ≠ Pending → promise (exec trace (r, w)).1 = promise r.
Proof.
  induction trace as [|a trace IH]; intros r w Hp; [done|].
  rewrite exec_cons. pose proof (step_settled a r w Hp) as Hs.
  destruct (step a (r, w)) as [r1 w1]. cbn [fst] in Hs.
  rewrite IH; [done|]. by rewrite Hs.
Qed.

Lemma exec_verdict trace : ∀ r w,
  promise r = Pending →
  promise (exec trace (r, w)).1
  = verdict (outputBuffer r) (errorBuffer r) (capturedSessionId r) trace.
Proof.
  induction trace as [|a trace IH]; intros r w Hp; [done|].
  rewrite exec_cons.
  destruct (step_run a r w) as (Hsid & _ & _ & _ & _ & Hout & Herr & Hsame).
  destruct a as [chunk t|chunk t|code t|message t|sid' os|os].
  - destruct (step (StdoutData chunk t) (r, w)) as [r1 w1]. cbn [fst] in *.
    rewrite IH by (by rewrite Hsame). cbn in Hout, Herr.
    rewrite string_app_nil_r in Hout, Herr. by rewrite Hsid, Hout, Herr.
  - destruct (step (StderrData chunk t) (r, w)) as [r1 w1]. cbn [fst] in *.
    rewrite IH by (by rewrite Hsame). cbn in Hout, Herr.
    rewrite string_app_nil_r in Hout, Herr. by rewrite Hsid, Hout, Herr.
  - pose proof (close_promise code t r w Hp) as Hclose.
    destruct (step (Close code t) (r, w)) as [r1 w1]. cbn [fst] in *.
    rewrite exec_settled by (rewrite Hclose; by destruct code as [[|?|?]|]).
    rewrite Hclose. by destruct code as [[|?|?]|].
  - pose proof (error_promise message t r w Hp) as Herror.
    destruct (step (Error message t) (r, w)) as [r1 w1]. cbn [fst] in *.
    rewrite exec_settled by (by rewrite Herror). by rewrite Herror.
  - destruct (step (Abort sid' os) (r, w)) as [r1 w1]. cbn [fst] in *.
    rewrite IH by (by rewrite Hsame). cbn in Hout, Herr.
    rewrite string_app_nil_r in Hout, Herr. by rewrite Hsid, Hout, Herr.
  - destruct (step (TimerFires os) (r, w)) as [r1 w1]. cbn [fst] in *.
    rewrite IH by (by rewrite Hsame). cbn in Hout, Herr.
    rewrite string_app_nil_r in Hout, Herr. by rewrite Hsid, Hout, Herr.
Qed.

(** X5: the promise is settled once, by the first 'close' or 'error', from
    what the child had written until then; nothing else counts: not the
    socket and whether it takes the messages, not the images, not an
    abort or a timer, not what is reported after the first of the two
    events. *)
Theorem promise_follows_the_process command o socket e w trace :
  promise (run_spawnQ command o socket e w trace).1 = verdict "" "" (sessionId o) trace.
Proof.
  unfold run_spawnQ.
  destruct (spawnQ_run command o socket e w) as (Hsid & _ & Hp & Hout & Herr & _).
  destruct (spawnQ command o socket e w) as [r0 w0]. cbn [fst] in *.
  by rewrite exec_verdict, Hsid, Hout, Herr.
Qed.

(** ** Invariants of the shared state *)

Lemma abort_world_ok sid os w : world_ok w → world_ok (abortQSession sid os w).2.
Proof.
  intros [Hreg Htm]. unfold abortQSession. cbn [activeQProcesses children print].
  destruct (activeQProcesses w !! sid) as [p|] eqn:Hp; [|done].
  destruct (children w !! p) as [c|] eqn:Hc; [|done].
  destruct (killed c); cbn [negb]; [done|].
  destruct (kill os SIGTERM c) as [[answer|err] c']; [|done].
  unfold world_ok. cbn. rewrite length_insert. split.
  - intros s q [_ Hs]%lookup_delete_Some. by eapply Hreg.
  - intros tm [Hin| ->%list_elem_of_singleton]%elem_of_app; [by apply Htm|].
    cbn. by eapply Hreg.
Qed.

Lemma step_world_ok a r w :
  qProcess r < length (children w) → world_ok w → world_ok (step a (r, w)).2.
Proof.
  intros Hq Hok. destruct a as [chunk t|chunk t|code t|message t|sid os|os].
  - destruct (data_world (StdoutData chunk t) r w) as (Hr & Hc & Ht & _); [done|by eexists|].
    unfold world_ok. by rewrite Hr, Hc, Ht.
  - destruct (data_world (StderrData chunk t) r w) as (Hr & Hc & Ht & _); [done|by eexists|].
    unfold world_ok. by rewrite Hr, Hc, Ht.
  - destruct (terminal_world (Close code t) t r w eq_refl eq_refl) as (Hr & Hc & Ht & _).
    destruct Hok as [Hreg Htm]. unfold world_ok. rewrite Hr, Hc, Ht, length_alter.
    split; [|done]. unfold remove_from_active.
    destruct (capturedSessionId r) as [s|]; [|done]. destruct (JS.truthy s); [|done].
    cbn. intros s' q [_ Hs]%lookup_delete_Some. by eapply Hreg.
  - destruct (terminal_world (Error message t) t r w eq_refl eq_refl) as (Hr & Hc & Ht & _).
    destruct Hok as [Hreg Htm]. unfold world_ok. rewrite Hr, Hc, Ht, length_alter.
    split; [|done]. unfold remove_from_active.
    destruct (capturedSessionId r) as [s|]; [|done]. destruct (JS.truthy s); [|done].
    cbn. intros s' q [_ Hs]%lookup_delete_Some. by eapply Hreg.
  - by apply abort_world_ok.
  - cbn. destruct (timers w) as [|tm rest] eqn:Htimers; [done|].
    destruct Hok as [Hreg Htm]. rewrite Htimers in Htm.
    unfold force_kill, world_ok. cbn.
    destruct (children w !! timer_process tm) as [c|]; cbn.
    + destruct (killed c); cbn; rewrite ?length_insert;
        (split; [done|]); intros tm' Hin; apply Htm; by right.
    + split; [done|]. intros tm' Hin. apply Htm. by right.
Qed.

Lemma step_children_length a r w :
  length (children (step a (r, w)).2) = length (children w).
Proof.
  destruct a as [chunk t|chunk t|code t|message t|sid os|os].
  - by destruct (data_world (StdoutData chunk t) r w) as (_ & -> & _); [|eexists|].
  - by destruct (data_world (StderrData chunk t) r w) as (_ & -> & _); [|eexists|].
  - destruct (terminal_world (Close code t) t r w eq_refl eq_refl) as (_ & -> & _).
    apply length_alter.
  - destruct (terminal_world (Error message t) t r w eq_refl eq_refl) as (_ & -> & _).
    apply length_alter.
  - cbn. unfold abortQSession. cbn [activeQProcesses children print].
    destruct (activeQProcesses w !! sid) as [p|]; [|done].
    destruct (children w !! p) as [c|]; [|done].
    destruct (killed c); cbn [negb]; [done|].
    destruct (kill os SIGTERM c) as [[answer|err] c']; [|done].
    cbn. apply length_insert.
  - cbn. destruct (timers w) as [|tm rest]; [done|]. unfold force_kill. cbn.
    destruct (children w !! timer_process tm) as [c|]; [|done].
    destruct (killed c); [done|]. cbn. apply length_insert.
Qed.

Lemma exec_world_ok trace : ∀ r w,
  qProcess r < length (children w) → world_ok w → world_ok (exec trace (r, w)).2.
Proof.
  induction trace as [|a trace IH]; intros r w Hq Hok; [done|].
  rewrite exec_cons. pose proof (step_world_ok a r w Hq Hok) as Hok'.
  pose proof (step_children_length a r w) as Hlen.
  destruct (step_run a r w) as (_ & _ & _ & Hq' & _).
  destruct (step a (r, w)) as [r1 w1]. cbn [fst snd] in *.
  apply IH; [lia|done].
Qed.

Lemma spawnQ_world_ok command o socket e w :
  world_ok w → world_ok (spawnQ command o socket e w).2.
Proof.
  intros [Hreg Htm].
  destruct (spawnQ_world command o socket e w) as (Hreg' & Htm').
  pose proof (spawnQ_children command o socket e w) as Hch.
  unfold world_ok. rewrite Hreg', Htm', Hch, length_app. cbn [length]. split.
  - destruct (JS.truthy_opt (sessionId o)).
    + intros s p [[_ <-]|[_ Hs]]%lookup_insert_Some; [lia|]. apply Hreg in Hs. lia.
    + intros s p Hs. apply Hreg in Hs. lia.
  - intros tm Hin. apply Htm in Hin. lia.
Qed.

(** X6: no entry of [activeQProcesses] and no pending timer ever refers to
    something that is not a process object: [spawnQ], the listeners,
    [abortQSession] and the timers keep this, in any order. *)
Theorem handles_stay_valid command o socket e w trace :
  world_ok w → world_ok (run_spawnQ command o socket e w trace).2.
Proof.
  intros Hok. unfold run_spawnQ.
  pose proof (spawnQ_world_ok command o socket e w Hok) as Hok0.
  destruct (spawnQ_run command o socket e w) as (_ & _ & _ & _ & _ & Hq & _).
  pose proof (spawnQ_children command o socket e w) as Hch.
  destruct (spawnQ command o socket e w) as [r0 w0]. cbn [fst snd] in *.
  apply exec_world_ok; [|done]. rewrite Hq, Hch, length_app. cbn. lia.
Qed.

Lemma handles_stay_valid_witness :
  world_ok (run_spawnQ "list files" (Scenario.request (Some "s1") (Some "/srv") None) true
              Scenario.env Scenario.idle
              [Abort "s1" UV_OK; TimerFires UV_OK;
               Close None (Scenario.open_at 1700000000200)]).2.
Proof.
  apply handles_stay_valid. split.
  - intros s p Hs. cbn in Hs. by rewrite lookup_empty in Hs.
  - intros tm Hin. cbn in Hin. by apply elem_of_nil in Hin.
Defined.

(** ** The forced termination *)

Lemma kill_sigterm_never_forced c :
  SIGKILL ∉ signals c →
  (SIGKILL ∉ signals (kill UV_OK SIGTERM c).2)
  ∧ (killed (kill UV_OK SIGTERM c).2 = true ∨ handle (kill UV_OK SIGTERM c).2 = false).
Proof.
  intros Hno. unfold kill. destruct (handle c) eqn:Hh; cbn.
  - split; [|by left]. intros [Hin|Hin%list_elem_of_singleton]%elem_of_app; done.
  - split; [done|by right].
Qed.

Lemma abort_never_forced sid w :
  never_forced w → never_forced (abortQSession sid UV_OK w).2.
Proof.
  intros [Hsig Htm]. unfold abortQSession. cbn [activeQProcesses children print].
  destruct (activeQProcesses w !! sid) as [p|] eqn:Hp; [|done].
  destruct (children w !! p) as [c|] eqn:Hc; [|done].
  destruct (killed c) eqn:Hk; cbn [negb]; [done|].
  destruct (kill_sigterm_never_forced c (Hsig _ _ Hc)) as [Hno Hdone].
  assert (Hok : (kill UV_OK SIGTERM c).1 = Ok (handle c))
    by (unfold kill; by destruct (handle c)).
  destruct (kill UV_OK SIGTERM c) as [[answer|err] c']; [|done]. cbn [snd] in *.
  assert (Hlt : p < length (children w)) by (by eapply lookup_lt_Some).
  unfold never_forced. cbn. split.
  - intros q cq. destruct (decide (p = q)) as [<-|Hne].
    + rewrite list_lookup_insert_eq by done. by intros [= <-].
    + rewrite list_lookup_insert_ne by done. apply Hsig.
  - intros tm cq Hin. destruct (decide (p = timer_process tm)) as [<-|Hne].
    + rewrite list_lookup_insert_eq by done. by intros [= <-].
    + rewrite list_lookup_insert_ne by done.
      apply elem_of_app in Hin as [Hin| ->%list_elem_of_singleton]; [by apply Htm|done].
Qed.

Lemma timer_never_forced r w :
  never_forced w → never_forced (step (TimerFires UV_OK) (r, w)).2.
Proof.
  intros Hnf. cbn. destruct (timers w) as [|tm rest] eqn:Htimers; [exact Hnf|].
  destruct Hnf as [Hsig Htm]. rewrite Htimers in Htm.
  assert (Hrest : ∀ tm' c, tm' ∈ rest → children w !! timer_process tm' = Some c →
                    killed c = true ∨ handle c = false)
    by (intros tm' c Hin; apply Htm; by right).
  unfold force_kill. cbn.
  destruct (children w !! timer_process tm) as [c|] eqn:Hc; [|by split].
  destruct (killed c) eqn:Hk; cbn; [by split|].
  destruct (Htm tm c) as [Hk'|Hh]; [by left|done|congruence|].
  unfold kill. rewrite Hh. cbn. rewrite list_insert_id by done. by split.
Qed.

Lemma step_never_forced a r w :
  signals_delivered a = true → never_forced w → never_forced (step a (r, w)).2.
Proof.
  intros Hos Hnf. destruct a as [chunk t|chunk t|code t|message t|sid os|os].
  - destruct (data_world (StdoutData chunk t) r w) as (_ & Hc & Ht & _); [done|by eexists|].
    unfold never_forced. by rewrite Hc, Ht.
  - destruct (data_world (StderrData chunk t) r w) as (_ & Hc & Ht & _); [done|by eexists|].
    unfold never_forced. by rewrite Hc, Ht.
  - destruct (terminal_world (Close code t) t r w eq_refl eq_refl) as (_ & Hc & Ht & _).
    destruct Hnf as [Hsig Htm]. unfold never_forced. rewrite Hc, Ht. split.
    + intros p c. rewrite list_lookup_alter. case_match; [|apply Hsig].
      destruct (children w !! qProcess r) as [c'|] eqn:Hc'; [|done].
      intros [= <-]. cbn. by eapply Hsig.
    + intros tm c Hin. rewrite list_lookup_alter. case_match; [|by apply Htm].
      destruct (children w !! qProcess r) as [c'|] eqn:Hc'; [|done].
      intros [= <-]. by right.
  - destruct (terminal_world (Error message t) t r w eq_refl eq_refl) as (_ & Hc & Ht & _).
    destruct Hnf as [Hsig Htm]. unfold never_forced. rewrite Hc, Ht. split.
    + intros p c. rewrite list_lookup_alter. case_match; [|apply Hsig].
      destruct (children w !! qProcess r) as [c'|] eqn:Hc'; [|done].
      intros [= <-]. cbn. by eapply Hsig.
    + intros tm c Hin. rewrite list_lookup_alter. case_match; [|by apply Htm].
      destruct (children w !! qProcess r) as [c'|] eqn:Hc'; [|done].
      intros [= <-]. by right.
  - destruct os; try discriminate Hos. by apply abort_never_forced.
  - destruct os; try discriminate Hos. by apply timer_never_forced.
Qed.

Lemma exec_never_forced trace : ∀ r w,
  forallb signals_delivered trace = true →
  never_forced w → never_forced (exec trace (r, w)).2.
Proof.
  induction trace as [|a trace IH]; intros r w Hos Hnf; [done|].
  cbn [forallb] in Hos. apply andb_true_iff in Hos as [Ha Ht].
  rewrite exec_cons. pose proof (step_never_forced a r w Ha Hnf) as Hnf'.
  destruct (step a (r, w)) as [r1 w1]. by apply IH.
Qed.

(** X7: SIGKILL is never sent. Whenever the operating system delivers the
    signals it is asked to deliver, a timer left by [abortQSession]
    finds its process either already signalled ([killed] is [true], the
    SIGTERM has seen to that) or gone, and in both cases sends nothing:
    in no run, after any sequence of chunks, exits, aborts and timers,
    is SIGKILL among the signals of any process. *)
Theorem sigkill_is_never_sent command o socket e w trace :
  world_ok w → never_forced w → forallb signals_delivered trace = true →
  ∀ p c, children (run_spawnQ command o socket e w trace).2 !! p = Some c →
         SIGKILL ∉ signals c.
Proof.
  intros [_ Hwtm] [Hsig Htm] Hos. unfold run_spawnQ.
  destruct (spawnQ_world command o socket e w) as (_ & Htm0).
  pose proof (spawnQ_children command o socket e w) as Hch.
  assert (Hnf : never_forced (spawnQ command o socket e w).2).
  { unfold never_forced. rewrite Hch, Htm0. split.
    - intros p c [Hp|[_ Hp]]%lookup_app_Some; [by eapply Hsig|].
      apply list_lookup_singleton_Some in Hp as [_ <-]. cbn. by intros ?%elem_of_nil.
    - intros tm c Hin [Hp|[Hge _]]%lookup_app_Some; [by eapply Htm|].
      apply Hwtm in Hin. lia. }
  destruct (spawnQ command o socket e w) as [r0 w0]. cbn [snd] in *.
  by apply (exec_never_forced trace r0 w0 Hos Hnf).
Qed.

Lemma sigkill_is_never_sent_witness :
  ∃ c, children (run_spawnQ "list files" (Scenario.request (Some "s1") (Some "/srv") None)
                   true Scenario.env Scenario.idle
                   [Abort "s1" UV_OK; TimerFires UV_OK]).2 !! 0 = Some c
       ∧ (SIGKILL ∉ signals c).
Proof.
  eexists. split; [vm_compute; reflexivity|].
  apply (sigkill_is_never_sent "list files" (Scenario.request (Some "s1") (Some "/srv") None)
           true Scenario.env Scenario.idle [Abort "s1" UV_OK; TimerFires UV_OK]) with (p := 0).
  - split.
    + intros s p Hs. cbn in Hs. by rewrite lookup_empty in Hs.
    + intros tm Hin. cbn in Hin. by apply elem_of_nil in Hin.
  - split.
    + intros p c Hp. cbn in Hp. by rewrite lookup_nil in Hp.
    + intros tm c Hin. cbn in Hin. by apply elem_of_nil in Hin.
  - reflexivity.
  - vm_compute. reflexivity.
Defined.

(** ** The staged files *)

Lemma prefix_app (a b : string) : String.prefix a (a +:+ b) = true.
Proof.
  induction a as [|x a IH]; [by destruct b|].
  change (String x a +:+ b) with (String x (a +:+ b)). cbn.
  by destruct (Ascii.ascii_dec x x).
Qed.

Lemma prefix_length (a b : string) :
  String.prefix a b = true → (String.length a ≤ String.length b)%nat.
Proof.
  revert a. induction b as [|y b IH]; intros [|x a]; cbn; try done; try lia.
  destruct (Ascii.ascii_dec x y); [|done]. intros H%IH. lia.
Qed.

Lemma string_length_app (a b : string) :
  String.length (a +:+ b) = String.length a + String.length b.
Proof.
  induction a as [|x a IH]; [done|].
  change (String x a +:+ b) with (String x (a +:+ b)). cbn. by rewrite IH.
Qed.

(** What is joined to a directory lies below it. *)
Lemma under_join dir name : under dir (path_join [dir; name]) = true.
Proof.
  unfold under, path_join. cbn [JS.join].
  rewrite <- (string_app_assoc dir "/" name), prefix_app. apply orb_true_r.
Qed.

(** A directory does not lie below what is joined to it. *)
Lemma not_under_join dir name : under (dir +:+ "/" +:+ name) dir = false.
Proof.
  unfold under. apply orb_false_iff. split.
  - apply String.eqb_neq. intros Heq. apply (f_equal String.length) in Heq.
    rewrite !string_length_app in Heq. cbn in Heq. lia.
  - destruct (String.prefix _ dir) eqn:Hp; [|done].
    apply prefix_length in Hp. rewrite !string_length_app in Hp. cbn in Hp. lia.
Qed.

Lemma rmdir_recursive_outside ok dir p w :
  under dir p = false →
  files (rmdir_recursive ok dir w) !! p = files w !! p
  ∧ (p ∈ dirs (rmdir_recursive ok dir w) ↔ p ∈ dirs w).
Proof.
  intros Hout. destruct ok; cbn; [|done]. split.
  - destruct (files w !! p) as [c|] eqn:Hc.
    + apply map_lookup_filter_Some. split; [done|]. cbn. rewrite Hout. cbn. tauto.
    + apply map_lookup_filter_None. by left.
  - rewrite elem_of_filter. rewrite Hout. cbn. tauto.
Qed.

(** The loop writes below the staging directory only. *)
Lemma stage_images_outside dir ok imgs p : ∀ index paths w,
  under dir p = false → files (stage_images dir ok index imgs paths w).2.2 !! p = files w !! p.
Proof.
  induction imgs as [|img rest IH]; intros index paths w Hout; [done|].
  cbn [stage_images]. unfold stage_one.
  destruct (match_data_url (data img)) as [[mimeType base64Data]|].
  - unfold writeFile. destruct (ok index); [|done].
    rewrite IH by done. cbn [files set_fs]. apply lookup_insert_ne. intros <-.
    by rewrite under_join in Hout.
  - by rewrite IH.
Qed.

Lemma spawnQ_files_outside command o socket e w p :
  under (staging_dir o e) p = false → files (spawnQ command o socket e w).2 !! p = files w !! p.
Proof.
  intros Hout. destruct (spawnQ_console command o socket e w) as (tail & _ & _ & ->).
  unfold process_images. destruct (images o) as [[|img rest]|]; try done.
  unfold mkdir_recursive. destruct (mkdir_ok e); [|done].
  fold (working_dir o e). fold (staging_dir o e). set (w1 := set_fs _ _ w).
  pose proof (stage_images_outside (staging_dir o e) (write_ok e) (img :: rest) p 0 [] w1 Hout)
    as Hst.
  destruct (stage_images (staging_dir o e) (write_ok e) 0 (img :: rest) [] w1)
    as [[[]|err] [paths w2]]; cbn in *; by rewrite Hst.
Qed.

Lemma abort_fs sid os w :
  dirs (abortQSession sid os w).2 = dirs w ∧ files (abortQSession sid os w).2 = files w.
Proof.
  unfold abortQSession. cbn [activeQProcesses children print].
  destruct (activeQProcesses w !! sid) as [p|]; [|done].
  destruct (children w !! p) as [c|]; [|done].
  destruct (killed c); cbn [negb]; [done|].
  by destruct (kill os SIGTERM c) as [[answer|err] c'].
Qed.

(** A step changes the file system below the staging directory of the
    run at most. *)
Lemma step_fs_outside a r w p :
  (∀ dir, tempDir r = Some dir → under dir p = false) →
  files (step a (r, w)).2 !! p = files w !! p
  ∧ (p ∈ dirs (step a (r, w)).2 ↔ p ∈ dirs w).
Proof.
  intros Hout. destruct a as [chunk t|chunk t|code t|message t|sid os|os].
  - by destruct (data_world (StdoutData chunk t) r w) as (_ & _ & _ & -> & ->); [|eexists|].
  - by destruct (data_world (StderrData chunk t) r w) as (_ & _ & _ & -> & ->); [|eexists|].
  - destruct (terminal_world (Close code t) t r w eq_refl eq_refl) as (_ & _ & _ & -> & ->).
    unfold clean_up_temp_images. destruct (tempDir r) as [dir|]; [|done].
    by apply rmdir_recursive_outside, Hout.
  - destruct (terminal_world (Error message t) t r w eq_refl eq_refl) as (_ & _ & _ & -> & ->).
    unfold clean_up_temp_images. destruct (tempDir r) as [dir|]; [|done].
    by apply rmdir_recursive_outside, Hout.
  - cbn. by destruct (abort_fs sid os w) as [-> ->].
  - cbn. destruct (timers w) as [|tm rest]; [done|]. unfold force_kill. cbn.
    destruct (children w !! timer_process tm) as [c|]; [|done]. by destruct (killed c).
Qed.

Lemma exec_fs_outside trace p : ∀ r w,
  (∀ dir, tempDir r = Some dir → under dir p = false) →
  files (exec trace (r, w)).2 !! p = files w !! p
  ∧ (p ∈ dirs (exec trace (r, w)).2 ↔ p ∈ dirs w).
Proof.
  induction trace as [|a trace IH]; intros r w Hout; [done|].
  rewrite exec_cons. destruct (step_fs_outside a r w p Hout) as [Hf Hd].
  destruct (step_run a r w) as (_ & _ & Htd & _).
  destruct (step a (r, w)) as [r1 w1]. cbn [fst snd] in *.
  destruct (IH r1 w1) as [Hf' Hd']; [by rewrite Htd|]. rewrite Hf', Hd'. done.
Qed.

(** X8: staging is confined and cleaned up. Whatever happens in a run, a
    file that does not lie below the staging directory of the run is
    never written, changed or removed; and once 'close' or 'error' has
    been handled with a successful [fs.rmdir], no file and no directory
    is left at or below the staging directory, whatever the exit code. *)
Theorem staging_is_confined_and_removed command o socket e w trace :
  let dir := staging_dir o e in
  (∀ p, under dir p = false →
        files (run_spawnQ command o socket e w trace).2 !! p = files w !! p)
  ∧ (∀ a t p, is_terminal a = true → tick_of a = Some t → rmdir_ok t = true →
              has_images o = true → under dir p = true →
              (p ∉ dirs (run_spawnQ command o socket e w (trace ++ [a])).2)
              ∧ (files (run_spawnQ command o socket e w (trace ++ [a])).2 !! p = None)).
Proof.
  cbn zeta. unfold run_spawnQ.
  destruct (spawnQ_run command o socket e w) as (_ & _ & _ & _ & _ & _ & Htd & _).
  split.
  - intros p Hout. pose proof (spawnQ_files_outside command o socket e w p Hout) as H0.
    destruct (spawnQ command o socket e w) as [r0 w0]. cbn [fst snd] in *.
    destruct (exec_fs_outside trace p r0 w0) as [-> _]; [|done].
    intros dir. rewrite Htd. destruct (has_images o); [|done]. by intros [= <-].
  - intros a t p Hterm Htick Hrm Himg Hunder. rewrite exec_app.
    destruct (spawnQ command o socket e w) as [r0 w0]. cbn [fst] in Htd.
    destruct (exec_run trace r0 w0) as (_ & _ & Htd' & _).
    destruct (exec trace (r0, w0)) as [r1 w1]. cbn [fst] in Htd'.
    change (exec [a] (r1, w1)) with (step a (r1, w1)).
    destruct (terminal_world a t r1 w1 Hterm Htick) as (_ & _ & _ & -> & ->).
    unfold clean_up_temp_images. rewrite Htd', Htd, Himg, Hrm.
    by apply rmdir_recursive_gone.
Qed.

(** X9: the parents stay behind: when images were staged, the directories
    [.tmp] and [.tmp/images] that the recursive [fs.mkdir] made below
    the working directory are still there after every run, also after a
    successful clean-up, which removes the innermost directory only. *)
Theorem staging_parents_are_left_behind command o socket e w trace :
  has_images o = true → mkdir_ok e = true → JS.truthy (working_dir o e) = true →
  let ds := dirs (run_spawnQ command o socket e w trace).2 in
  path_join [working_dir o e; ".tmp"] ∈ ds
  ∧ path_join [working_dir o e; ".tmp"; "images"] ∈ ds.
Proof.
  intros Himg Hmk Htruthy. cbn zeta. unfold run_spawnQ.
  destruct (spawnQ_run command o socket e w) as (_ & _ & _ & _ & _ & _ & Htd & _).
  pose proof (spawnQ_dirs command o socket e w) as Hdirs.
  rewrite Himg, Hmk in Hdirs. cbn [andb] in Hdirs. rewrite Himg in Htd.
  destruct (spawnQ command o socket e w) as [r0 w0]. cbn [fst snd] in *.
  assert (Hwd : working_dir o e ≠ "") by (by destruct (working_dir o e)).
  assert (Hin : ∀ inner rest,
             staging_dir o e = (working_dir o e +:+ inner) +:+ "/" +:+ rest →
             working_dir o e +:+ inner ∈ dirs (exec trace (r0, w0)).2).
  { intros inner rest Heq.
    assert (Hout : ∀ dir, tempDir r0 = Some dir → under dir (working_dir o e +:+ inner) = false).
    { intros dir. rewrite Htd. intros [= <-]. rewrite Heq. apply not_under_join. }
    apply (exec_fs_outside trace _ r0 w0 Hout).
    rewrite Hdirs. apply elem_of_union. right. apply elem_of_list_to_set.
    unfold path_prefixes. rewrite Heq.
    apply (path_prefixes_go_parent (working_dir o e +:+ inner) rest "").
    cbn. by destruct (working_dir o e). }
  unfold path_join. cbn [JS.join]. split.
  - apply (Hin "/.tmp" ("images/" +:+ JS.decN (staged_at e))).
    unfold staging_dir, path_join. cbn [JS.join]. by rewrite !string_app_assoc.
  - rewrite <- (string_app_assoc ".tmp" "/" "images").
    apply (Hin "/.tmp/images" (JS.decN (staged_at e))).
    unfold staging_dir, path_join. cbn [JS.join]. by rewrite !string_app_assoc.
Qed.

Lemma staging_parents_are_left_behind_witness :
  let o := Scenario.request (Some "s1") (Some "/srv") (Some [Scenario.png]) in
  "/srv/.tmp/images"
  ∈ dirs (run_spawnQ "describe this" o true Scenario.env Scenario.idle
            [Close (Some 0%Z) (Scenario.open_at 1700000000200)]).2.
Proof.
  intros o.
  apply (staging_parents_are_left_behind "describe this" o true Scenario.env Scenario.idle
           [Close (Some 0%Z) (Scenario.open_at 1700000000200)]); reflexivity.
Defined.

(** *** The names of the staged files *)

Lemma has_char_app c (a b : string) : has_char c (a +:+ b) = has_char c a || has_char c b.
Proof.
  induction a as [|x a IH]; [done|].
  change (String x a +:+ b) with (String x (a +:+ b)). cbn. rewrite IH. by rewrite orb_assoc.
Qed.

Lemma digits_no_char c s : is_digit c = false → all_digits s = true → has_char c s = false.
Proof.
  intros Hc. induction s as [|x s IH]; [done|]. cbn.
  intros [Hx Hs]%andb_true_iff. rewrite IH by done. rewrite orb_false_r.
  apply Ascii.eqb_neq. by intros ->; rewrite Hc in Hx.
Qed.

Lemma pretty_N_char_digit x : is_digit (pretty_N_char x) = true.
Proof. unfold pretty_N_char. by repeat case_match. Qed.

Lemma pretty_N_go_digits x : ∀ s, all_digits s = true → all_digits (pretty_N_go x s) = true.
Proof.
  induction (N.lt_wf_0 x) as [x _ IH]; intros s Hs.
  assert (x = 0 ∨ 0 < x)%N as [->|Hpos] by lia; [by rewrite pretty_N_go_0|].
  rewrite pretty_N_go_step by done. apply IH; [by apply N.div_lt|].
  cbn. by rewrite pretty_N_char_digit, Hs.
Qed.

Lemma dec_digits n : all_digits (JS.dec n) = true.
Proof.
  unfold JS.dec, pretty, pretty_nat, pretty, pretty_N.
  case_decide; [done|]. by apply pretty_N_go_digits.
Qed.

(** A run of digits before a "." is determined by the whole string. *)
Lemma digits_dot_inj d1 : ∀ d2 r1 r2,
  all_digits d1 = true → all_digits d2 = true →
  d1 +:+ "." +:+ r1 = d2 +:+ "." +:+ r2 → d1 = d2.
Proof.
  induction d1 as [|x d1 IH]; intros [|y d2] r1 r2 H1 H2; try done.
  - change (String y d2 +:+ "." +:+ r2) with (String y (d2 +:+ "." +:+ r2)).
    cbn. intros [= <- _]. cbn in H2. done.
  - change (String x d1 +:+ "." +:+ r1) with (String x (d1 +:+ "." +:+ r1)).
    cbn. intros [= -> _]. cbn in H1. done.
  - change (String x d1 +:+ "." +:+ r1) with (String x (d1 +:+ "." +:+ r1)).
    change (String y d2 +:+ "." +:+ r2) with (String y (d2 +:+ "." +:+ r2)).
    cbn in H1, H2. apply andb_true_iff in H1 as [_ H1], H2 as [_ H2].
    intros [= -> Heq]. f_equal. by eapply IH.
Qed.

(** The index can be read back from the name of a staged file. *)
Lemma staged_name_inj i j e1 e2 : staged_name i e1 = staged_name j e2 → i = j.
Proof.
  unfold staged_name. intros Heq%(inj (String.append "image_")).
  apply digits_dot_inj in Heq; [|apply dec_digits..].
  by apply (inj pretty) in Heq.
Qed.

Lemma split_go_no_sep sep s : ∀ cur x,
  has_char sep cur = false → x ∈ JS.split_go sep cur s → has_char sep x = false.
Proof.
  induction s as [|c s IH]; intros cur x Hcur; cbn.
  - by intros ->%list_elem_of_singleton.
  - destruct (Ascii.eqb c sep) eqn:Hc.
    + intros [->|Hin]%elem_of_cons; [done|]. exact (IH "" x eq_refl Hin).
    + apply IH. rewrite has_char_app, Hcur. cbn. by rewrite Hc.
Qed.

Lemma extension_no_slash mimeType : has_char "/" (extension_of mimeType) = false.
Proof.
  unfold extension_of, JS.or_else, JS.split.
  destruct (JS.split_go "/" "" mimeType !! 1%nat) as [x|] eqn:Hx; [|done].
  destruct (JS.truthy x); [|done].
  eapply split_go_no_sep; [|by eapply list_elem_of_lookup_2]. done.
Qed.

Lemma staged_name_no_slash index extension :
  has_char "/" extension = false → has_char "/" (staged_name index extension) = false.
Proof.
  intros He. unfold staged_name. rewrite !has_char_app, He.
  rewrite (digits_no_char "/" (JS.dec index)); [done|done|apply dec_digits].
Qed.

(** Every path the loop can write for the entries from [index] on. *)
Lemma staged_paths_shape dir imgs : ∀ index p,
  p ∈ staged_paths dir index imgs →
  ∃ k extension, (index ≤ k)%nat ∧ p = path_join [dir; staged_name k extension]
                 ∧ has_char "/" (staged_name k extension) = false.
Proof.
  induction imgs as [|img rest IH]; intros index p; [by intros ?%elem_of_nil|].
  cbn [staged_paths]. unfold staged_path.
  destruct (match_data_url (data img)) as [[mimeType base64Data]|].
  - intros [->|Hin]%elem_of_cons.
    + exists index, (extension_of mimeType). split; [lia|]. split; [done|].
      apply staged_name_no_slash, extension_no_slash.
    + destruct (IH _ _ Hin) as (k & ext & Hk & Hp & Hs). exists k, ext. split; [lia|done].
  - intros Hin. destruct (IH _ _ Hin) as (k & ext & Hk & Hp & Hs).
    exists k, ext. split; [lia|done].
Qed.

Lemma staged_paths_NoDup dir imgs : ∀ index, NoDup (staged_paths dir index imgs).
Proof.
  induction imgs as [|img rest IH]; intros index; [constructor|].
  cbn [staged_paths]. unfold staged_path.
  destruct (match_data_url (data img)) as [[mimeType base64Data]|]; [|apply IH].
  constructor; [|apply IH]. intros Hin.
  destruct (staged_paths_shape _ _ _ _ Hin) as (k & ext & Hk & Hp & _).
  unfold path_join in Hp. cbn [JS.join] in Hp.
  apply (inj (String.append dir)), (inj (String.append "/")) in Hp.
  apply staged_name_inj in Hp. lia.
Qed.

(** The paths collected are the first of the paths that would be
    written if every [fs.writeFile] succeeded. *)
Lemma stage_images_prefix dir ok imgs : ∀ index paths w,
  ∃ done_ rest_, (stage_images dir ok index imgs paths w).2.1 = paths ++ done_
                 ∧ staged_paths dir index imgs = done_ ++ rest_.
Proof.
  induction imgs as [|img rest IH]; intros index paths w.
  - exists [], []. cbn. by rewrite app_nil_r.
  - cbn [stage_images staged_paths]. unfold stage_one, staged_path.
    destruct (match_data_url (data img)) as [[mimeType base64Data]|].
    + unfold writeFile. destruct (ok index).
      * set (path := path_join _). set (w1 := set_fs _ _ w).
        destruct (IH (S index) (paths ++ [path]) w1) as (d & r & -> & ->).
        exists (path :: d), r. by rewrite <- app_assoc.
      * eexists [], _. cbn. by rewrite app_nil_r.
    + destruct (IH (S index) paths (print (ConsoleError ["Invalid image data format"]) w))
        as (d & r & -> & ->). by exists d, r.
Qed.

(** X10: the staged files cannot collide or escape. In every call of
    [spawnQ], whatever the attachments and their MIME types and whether
    or not the writes succeed, the paths in [tempImagePaths] are pairwise
    different, and each is the staging directory followed by one file
    name without a "/": a file directly inside the staging directory. *)
Theorem staged_files_are_distinct_children command o socket e w :
  let paths := tempImagePaths (spawnQ command o socket e w).1 in
  NoDup paths
  ∧ ∀ p, p ∈ paths →
         ∃ name, p = staging_dir o e +:+ "/" +:+ name ∧ has_char "/" name = false.
Proof.
  cbn zeta. rewrite spawnQ_tempImagePaths.
  assert (Hsub : ∃ rest_, staged_paths (staging_dir o e) 0 (default [] (images o))
                          = (process_images command (working_dir o e) (images o) e
                               (prompt_args command) w).1.1.2 ++ rest_).
  { unfold process_images. destruct (images o) as [[|img rest]|]; try by eexists.
    unfold mkdir_recursive. destruct (mkdir_ok e); [|by eexists].
    fold (staging_dir o e). set (w1 := set_fs _ _ w).
    destruct (stage_images_prefix (staging_dir o e) (write_ok e) (img :: rest) 0 [] w1)
      as (d & r & Hd & Hr).
    destruct (stage_images (staging_dir o e) (write_ok e) 0 (img :: rest) [] w1)
      as [[[]|err] [paths w2]]; cbn in Hd; subst paths; by exists r. }
  destruct Hsub as [rest_ Hsub].
  pose proof (staged_paths_NoDup (staging_dir o e) (default [] (images o)) 0) as Hnd.
  rewrite Hsub in Hnd. apply NoDup_app in Hnd as (Hnd & _). split; [exact Hnd|].
  intros p Hp.
  destruct (staged_paths_shape (staging_dir o e) (default [] (images o)) 0 p)
    as (k & ext & _ & -> & Hs).
  { rewrite Hsub. apply elem_of_app. by left. }
  by exists (staged_name k ext).
Qed.

(** ** The payloads that are accepted *)

Lemma drop_prefix_app p r : JS.drop_prefix p (p +:+ r) = Some r.
Proof.
  induction p as [|x p IH]; [by destruct r|].
  change (String x p +:+ r) with (String x (p +:+ r)). cbn. by rewrite Ascii.eqb_refl.
Qed.

Lemma drop_prefix_Some p : ∀ s r, JS.drop_prefix p s = Some r → s = p +:+ r.
Proof.
  induction p as [|x p IH]; intros [|y s] r; cbn; try done.
  - by intros [= <-].
  - by intros [= <-].
  - destruct (Ascii.eqb_spec x y) as [->|]; [|done]. intros ->%IH. done.
Qed.

Lemma span_not_app c a b :
  has_char c a = false → JS.span_not c (a +:+ String c b) = (a, String c b).
Proof.
  induction a as [|x a IH]; cbn.
  - intros _. change ("" +:+ String c b) with (String c b). cbn. by rewrite Ascii.eqb_refl.
  - intros [Hx Ha]%orb_false_iff.
    change (String x a +:+ String c b) with (String x (a +:+ String c b)). cbn.
    by rewrite Hx, IH.
Qed.

Lemma span_not_spec c s : ∀ a b,
  JS.span_not c s = (a, b) → s = a +:+ b ∧ has_char c a = false.
Proof.
  induction s as [|x s IH]; intros a b; cbn.
  - by intros [= <- <-].
  - destruct (Ascii.eqb x c) eqn:Hx.
    + by intros [= <- <-].
    + destruct (JS.span_not c s) as [a' b']. intros [= <- <-].
      destruct (IH a' b' eq_refl) as [-> Ha]. split; [done|]. cbn. by rewrite Hx.
Qed.

(** X11: the payloads the loop stages are exactly the strings
    "data:" <mime> ";base64," <payload> with a non-empty <mime> free of
    ";" and a non-empty <payload> free of line terminators, and the
    match hands back these two parts unchanged. *)
Theorem data_url_round_trip s mimeType base64Data :
  match_data_url s = Some (mimeType, base64Data)
  ↔ s = "data:" +:+ mimeType +:+ ";base64," +:+ base64Data
    ∧ JS.truthy mimeType = true ∧ has_char ";" mimeType = false
    ∧ JS.truthy base64Data = true ∧ JS.has_line_terminator base64Data = false.
Proof.
  unfold match_data_url. split.
  - destruct (JS.drop_prefix "data:" s) as [rest|] eqn:Hrest; [|done].
    apply drop_prefix_Some in Hrest as ->.
    destruct (JS.span_not ";" rest) as [m tail] eqn:Hspan.
    apply span_not_spec in Hspan as [-> Hm].
    destruct (JS.truthy m) eqn:Htm; [|done].
    destruct (JS.drop_prefix ";base64," tail) as [b|] eqn:Htail; [|done].
    apply drop_prefix_Some in Htail as ->.
    destruct (JS.truthy b) eqn:Htb; [|done].
    destruct (JS.has_line_terminator b) eqn:Hlt; [done|].
    cbn. by intros [= <- <-].
  - intros (-> & Htm & Hm & Htb & Hlt).
    rewrite drop_prefix_app.
    change (";base64," +:+ base64Data) with (String ";" ("base64," +:+ base64Data)).
    rewrite span_not_app by done. rewrite Htm.
    change (String ";" ("base64," +:+ base64Data)) with (";base64," +:+ base64Data).
    by rewrite drop_prefix_app, Htb, Hlt.
Qed.

(** ** Shutting down *)

Lemma terminate_throw os err w entries :
  foldl (terminate os) (Throw err, w) entries = (Throw err, w).
Proof. induction entries as [|entry entries IH]; [done|]. cbn. exact IH. Qed.

(** One entry: a process that is not the one of the entry is as before. *)
Lemma terminate_other os w entry q :
  q ≠ entry.2 → children (terminate os (Ok (), w) entry).2 !! q = children w !! q.
Proof.
  intros Hne. unfold terminate.
  destruct (children w !! entry.2) as [c|]; [|done].
  destruct (killed c); cbn [negb]; [done|].
  destruct (kill os SIGTERM c) as [[answer|err] c']; [|done].
  cbn. by rewrite list_lookup_insert_ne.
Qed.

Lemma terminate_frame os w entry :
  let w' := (terminate os (Ok (), w) entry).2 in
  activeQProcesses w' = activeQProcesses w ∧ timers w' = timers w
  ∧ dirs w' = dirs w ∧ files w' = files w ∧ length (children w') = length (children w).
Proof.
  unfold terminate.
  destruct (children w !! entry.2) as [c|]; [|done].
  destruct (killed c); cbn [negb]; [done|].
  destruct (kill os SIGTERM c) as [[answer|err] c']; [|done].
  cbn. by rewrite length_insert.
Qed.

(** The loop leaves alone every process that no entry refers to. *)
Lemma terminate_all_other os entries q : ∀ ow,
  q ∉ entries.*2 → children (foldl (terminate os) ow entries).2 !! q = children ow.2 !! q.
Proof.
  induction entries as [|entry entries IH]; intros [[[]|err] w] Hq; try done.
  - cbn [foldl]. apply not_elem_of_cons in Hq as [Hne Hq].
    rewrite IH by done.
    pose proof (terminate_other os w entry q Hne) as Hone.
    by destruct (terminate os (Ok (), w) entry) as [[[]|err] w1].
  - by rewrite terminate_throw.
Qed.

(** With signals delivered, the loop does not throw, and a process that
    some entry refers to ends up signalled; it is sent SIGTERM, once, if
    it was running and had not been signalled. *)
Lemma terminate_all_ok entries : ∀ w,
  ∃ w', foldl (terminate UV_OK) (Ok (), w) entries = (Ok (), w')
    ∧ activeQProcesses w' = activeQProcesses w
    ∧ ∀ q c, q ∈ entries.*2 → children w !! q = Some c →
        children w' !! q
        = Some (if negb (killed c) && handle c
                then {| request := request c; handle := true; killed := true;
                        signals := signals c ++ [SIGTERM] |}
                else c).
Proof.
  induction entries as [|[sid p] entries IH]; intros w.
  - exists w. repeat split; try done. intros q c Hq. by apply elem_of_nil in Hq.
  - cbn [foldl]. pose proof (terminate_other UV_OK w (sid, p)) as Hother.
    destruct (terminate_frame UV_OK w (sid, p)) as (Hreg & _).
    assert (Hone : ∃ w1, terminate UV_OK (Ok (), w) (sid, p) = (Ok (), w1)
                     ∧ ∀ c, children w !! p = Some c →
                         children w1 !! p
                         = Some (if negb (killed c) && handle c
                                 then {| request := request c; handle := true; killed := true;
                                         signals := signals c ++ [SIGTERM] |}
                                 else c)).
    { unfold terminate, kill. cbn [snd]. destruct (children w !! p) as [c|] eqn:Hc.
      - destruct (killed c) eqn:Hk, (handle c) eqn:Hh; cbn; eexists; (split; [done|]);
          intros c' [= <-]; cbn; rewrite ?Hk, ?Hh; cbn; try done.
        + rewrite list_lookup_insert_eq by (by eapply lookup_lt_Some). done.
        + rewrite list_lookup_insert_eq by (by eapply lookup_lt_Some). done.
      - eexists. split; [done|]. done. }
    destruct Hone as (w1 & Hw1 & Hp). rewrite Hw1 in *. cbn [snd] in *.
    destruct (IH w1) as (w' & Hw' & Hreg' & Hall). exists w'.
    split; [exact Hw'|]. split; [congruence|].
    intros q c Hq Hc. rewrite fmap_cons in Hq. cbn [snd] in Hq.
    destruct (decide (q = p)) as [->|Hne].
    + specialize (Hp c Hc).
      destruct (decide (p ∈ entries.*2)) as [Hin|Hnot].
      * rewrite (Hall p _ Hin Hp).
        destruct (killed c) eqn:Hk, (handle c) eqn:Hh; cbn; rewrite ?Hk, ?Hh; done.
      * pose proof (terminate_all_other UV_OK entries p (Ok (), w1) Hnot) as Hsame.
        rewrite Hw' in Hsame. cbn [snd] in Hsame. by rewrite Hsame.
    + apply elem_of_cons in Hq as [?|Hq]; [done|].
      apply Hall; [done|]. by rewrite Hother.
Qed.

(** Shutting down leaves alone a process that no entry refers to. *)
Lemma shutdown_other w q :
  (∀ s, activeQProcesses w !! s ≠ Some q) →
  ∃ w', shutdown UV_OK w = (Ok (), w') ∧ children w' !! q = children w !! q.
Proof.
  intros Hq. unfold shutdown. cbn [activeQProcesses print].
  set (w0 := print _ w). set (entries := map_to_list (activeQProcesses w)).
  destruct (terminate_all_ok entries w0) as (w' & Hw' & _).
  rewrite Hw'. eexists. split; [done|]. cbn.
  pose proof (terminate_all_other UV_OK entries q (Ok (), w0)) as Hother.
  rewrite Hw' in Hother. cbn [snd] in Hother. apply Hother.
  intros [[s q'] [-> Hin]]%list_elem_of_fmap.
  apply elem_of_map_to_list in Hin. by apply (Hq s).
Qed.

(** X12: shutting down reaches the registered processes only. When the
    server is told to stop, every process that has an entry in
    [activeQProcesses], is running and was not signalled before is sent
    SIGTERM once, and the map is emptied; a process without an entry
    (one started without a session identifier, or one whose entry an
    abort or a later run took away) is sent nothing and outlives the
    server. *)
Theorem shutdown_reaches_registered_only w :
  ∃ w', shutdown UV_OK w = (Ok (), w')
    ∧ activeQProcesses w' = ∅
    ∧ (∀ s q c, activeQProcesses w !! s = Some q → children w !! q = Some c →
         children w' !! q
         = Some (if negb (killed c) && handle c
                 then {| request := request c; handle := true; killed := true;
                         signals := signals c ++ [SIGTERM] |}
                 else c))
    ∧ (∀ q, (∀ s, activeQProcesses w !! s ≠ Some q) → children w' !! q = children w !! q).
Proof.
  unfold shutdown. cbn [activeQProcesses print].
  set (w0 := print _ w). set (entries := map_to_list (activeQProcesses w)).
  destruct (terminate_all_ok entries w0) as (w' & Hw' & Hreg & Hall).
  rewrite Hw'. eexists. split; [done|]. cbn. split; [done|]. split.
  - intros s q c Hs Hc. apply Hall; [|done].
    apply list_elem_of_fmap. exists (s, q). split; [done|]. by apply elem_of_map_to_list.
  - intros q Hq.
    pose proof (terminate_all_other UV_OK entries q (Ok (), w0)) as Hother.
    rewrite Hw' in Hother. cbn [snd] in Hother. apply Hother.
    intros [[s q'] [-> Hin]]%list_elem_of_fmap.
    apply elem_of_map_to_list in Hin. by apply (Hq s).
Qed.

(** X13: a run without a session identifier is out of reach of the shutdown
    as well: after any sequence of events, stopping the server sends its
    process no signal. *)
Theorem shutdown_misses_the_unregistered_run command o socket e w trace :
  sessionId o = None → world_ok w →
  let rw := run_spawnQ command o socket e w trace in
  ∃ w' c, shutdown UV_OK rw.2 = (Ok (), w')
          ∧ children w' !! qProcess rw.1 = Some c ∧ signals c = [] ∧ killed c = false.
Proof.
  intros Hnone [Hwreg Hwtm] rw. subst rw. unfold run_spawnQ.
  destruct (spawnQ_run command o socket e w) as (Hsid & _ & _ & _ & _ & Hq & _).
  destruct (spawnQ_world command o socket e w) as (Hreg & Htm).
  pose proof (spawnQ_children command o socket e w) as Hch.
  destruct (spawnQ command o socket e w) as [r0 w0]. cbn [fst snd] in *.
  rewrite Hnone in *. cbn in Hreg.
  assert (Hun : untouched (length (children w)) w0).
  { split; [|split].
    - intros s Hs. rewrite Hreg in Hs. apply Hwreg in Hs. lia.
    - intros tm Hin Heq. rewrite Htm in Hin. apply Hwtm in Hin. lia.
    - exists (spawned command o e). rewrite Hch. split; [|done].
      by rewrite lookup_app_r, Nat.sub_diag by lia. }
  pose proof (exec_untouched _ trace r0 w0 Hsid Hq Hun) as (Hreg' & _ & c & Hc & Hs & Hk).
  destruct (exec_run trace r0 w0) as (_ & _ & _ & Hq' & _).
  destruct (exec trace (r0, w0)) as [r1 w1]. cbn [fst snd] in *.
  destruct (shutdown_other w1 (length (children w)) Hreg') as (w' & Hw' & Hother).
  exists w', c. split; [done|]. rewrite Hq', Hq, Hother. done.
Qed.

Lemma shutdown_misses_the_unregistered_run_witness :
  let rw := run_spawnQ "list files" (Scenario.request None (Some "/srv") None) true
              Scenario.env Scenario.idle
              [StdoutData "a.txt" (Scenario.open_at 1700000000100)] in
  ∃ w' c, shutdown UV_OK rw.2 = (Ok (), w')
          ∧ children w' !! qProcess rw.1 = Some c ∧ signals c = [] ∧ killed c = false.
Proof.
  apply shutdown_misses_the_unregistered_run; [reflexivity|]. split.
  - intros s p Hs. cbn in Hs. by rewrite lookup_empty in Hs.
  - intros tm Hin. cbn in Hin. by apply elem_of_nil in Hin.
Defined.

(** ** One run and the others *)

Lemma step_own a r w :
  is_own_event a = true →
  let w' := (step a (r, w)).2 in
  (∀ s, capturedSessionId r ≠ Some s → activeQProcesses w' !! s = activeQProcesses w !! s)
  ∧ (∀ p, p ≠ qProcess r → children w' !! p = children w !! p)
  ∧ timers w' = timers w.
Proof.
  intros Hown. cbn zeta.
  destruct a as [chunk t|chunk t|code t|message t|sid os|os]; try done.
  - by destruct (data_world (StdoutData chunk t) r w) as (-> & -> & -> & _); [|eexists|].
  - by destruct (data_world (StderrData chunk t) r w) as (-> & -> & -> & _); [|eexists|].
  - destruct (terminal_world (Close code t) t r w eq_refl eq_refl) as (Hr & Hc & Ht & _).
    rewrite Hr, Hc, Ht. split; [|split; [|done]].
    + intros s Hs. unfold remove_from_active.
      destruct (capturedSessionId r) as [s'|]; [|done]. destruct (JS.truthy s'); [|done].
      cbn. apply lookup_delete_ne. congruence.
    + intros p Hp. by apply list_lookup_alter_ne.
  - destruct (terminal_world (Error message t) t r w eq_refl eq_refl) as (Hr & Hc & Ht & _).
    rewrite Hr, Hc, Ht. split; [|split; [|done]].
    + intros s Hs. unfold remove_from_active.
      destruct (capturedSessionId r) as [s'|]; [|done]. destruct (JS.truthy s'); [|done].
      cbn. apply lookup_delete_ne. congruence.
    + intros p Hp. by apply list_lookup_alter_ne.
Qed.

Lemma exec_own trace : ∀ r w,
  forallb is_own_event trace = true →
  let w' := (exec trace (r, w)).2 in
  (∀ s, capturedSessionId r ≠ Some s → activeQProcesses w' !! s = activeQProcesses w !! s)
  ∧ (∀ p, p ≠ qProcess r → children w' !! p = children w !! p)
  ∧ timers w' = timers w.
Proof.
  induction trace as [|a trace IH]; intros r w Hown; [done|].
  cbn [forallb] in Hown. apply andb_true_iff in Hown as [Ha Ht].
  rewrite exec_cons. destruct (step_own a r w Ha) as (Hreg & Hch & Htm).
  destruct (step_run a r w) as (Hsid & _ & _ & Hq & _).
  destruct (step a (r, w)) as [r1 w1]. cbn [fst snd] in *.
  destruct (IH r1 w1 Ht) as (Hreg' & Hch' & Htm'). cbn zeta.
  split; [|split].
  - intros s Hs. rewrite Hreg' by (by rewrite Hsid). by apply Hreg.
  - intros p Hp. rewrite Hch' by (by rewrite Hq). by apply Hch.
  - congruence.
Qed.

(** X14: a run keeps to itself. From the call of [spawnQ] through every
    chunk to 'close' or 'error', the entry of every other session
    identifier, every process object that existed before and every
    pending timer are as they were: a run adds and removes its own entry
    only. *)
Theorem run_leaves_the_others_alone command o socket e w trace :
  forallb is_own_event trace = true →
  let rw := run_spawnQ command o socket e w trace in
  (∀ s, sessionId o ≠ Some s → activeQProcesses rw.2 !! s = activeQProcesses w !! s)
  ∧ (∀ p c, children w !! p = Some c → children rw.2 !! p = Some c)
  ∧ timers rw.2 = timers w.
Proof.
  intros Hown rw. subst rw. unfold run_spawnQ.
  destruct (spawnQ_run command o socket e w) as (Hsid & _ & _ & _ & _ & Hq & _).
  destruct (spawnQ_world command o socket e w) as (Hreg & Htm).
  pose proof (spawnQ_children command o socket e w) as Hch.
  destruct (spawnQ command o socket e w) as [r0 w0]. cbn [fst snd] in *.
  destruct (exec_own trace r0 w0 Hown) as (Hreg' & Hch' & Htm'). cbn zeta in *.
  split; [|split].
  - intros s Hs. rewrite Hreg' by (by rewrite Hsid). rewrite Hreg.
    destruct (sessionId o) as [s'|]; cbn; [|done].
    destruct (JS.truthy s'); [|done]. apply lookup_insert_ne. congruence.
  - intros p c Hp. assert (p < length (children w)) by (by eapply lookup_lt_Some).
    rewrite Hch' by lia. rewrite Hch. by rewrite lookup_app_l.
  - congruence.
Qed.

Lemma run_leaves_the_others_alone_witness :
  let rw := run_spawnQ "second" (Scenario.request (Some "s2") (Some "/srv") None) true
              Scenario.env Scenario.one_live
              [StderrData "oops" (Scenario.open_at 1700000000100);
               Close (Some 1%Z) (Scenario.open_at 1700000000200)] in
  timers rw.2 = timers Scenario.one_live.
Proof.
  intros rw.
  apply (run_leaves_the_others_alone "second" (Scenario.request (Some "s2") (Some "/srv") None)
           true Scenario.env Scenario.one_live
           [StderrData "oops" (Scenario.open_at 1700000000100);
            Close (Some 1%Z) (Scenario.open_at 1700000000200)]).
  reflexivity.
Defined.

(** ** What the socket gets *)

Lemma count_type_trace_created socket sid trace :
  count_type session_created (concat (accepted socket sid <$> trace)) = 0.
Proof.
  unfold count_type. induction trace as [|a trace IH]; [done|].
  rewrite fmap_cons. cbn [concat]. rewrite filter_app, length_app, IH.
  destruct a as [chunk t|chunk t|code t|message t|sid' os|os]; unfold accepted; cbn;
    try done; destruct (socket && sink_ready t); done.
Qed.

(** X15: the socket gets one message per event that finds it ready, in the
    order of the events, and nothing else: a message that could not be
    sent is not kept and never sent later. In particular the
    session-created message is sent when [spawnQ] returns or not at all,
    so at most once. *)
Theorem messages_follow_the_events command o socket e w trace :
  let ms := sent (run_spawnQ command o socket e w trace).1 in
  ms = (if socket && sink_ready (created e) then [created_message o (created e)] else [])
       ++ concat (accepted socket (sessionId o) <$> trace)
  ∧ count_type session_created ms = (if socket && sink_ready (created e) then 1 else 0).
Proof.
  cbn zeta. unfold run_spawnQ.
  destruct (spawnQ_run command o socket e w) as (Hsid & Hws & _ & _ & _ & _ & _ & Hsent).
  destruct (spawnQ command o socket e w) as [r0 w0]. cbn [fst] in *.
  destruct (exec_run trace r0 w0) as (_ & _ & _ & _ & -> & _).
  rewrite Hsent, Hws, Hsid. split; [done|].
  rewrite count_type_app, count_type_trace_created.
  destruct (socket && sink_ready (created e)); done.
Qed.

(** ** [path_join] and [path.join] *)

Lemma join_cons sep x y l : JS.join sep (x :: y :: l) = x +:+ sep +:+ JS.join sep (y :: l).
Proof. reflexivity. Qed.

Lemma split_go_cons sep cur s : ∃ x l, JS.split_go sep cur s = x :: l.
Proof.
  revert cur. induction s as [|c s IH]; intros cur; cbn; [by eexists _, _|].
  destruct (Ascii.eqb c sep); [by eexists _, _|apply IH].
Qed.

(** Splitting at "/" and joining with "/" gives the string back. *)
Lemma join_split_go s : ∀ cur, JS.join "/" (JS.split_go "/" cur s) = cur +:+ s.
Proof.
  induction s as [|c s IH]; intros cur; cbn.
  - by rewrite string_app_nil_r.
  - destruct (Ascii.eqb_spec c "/"%char) as [->|Hc].
    + destruct (split_go_cons "/"%char "" s) as (x & l & Hs).
      specialize (IH ""). rewrite Hs in *. rewrite join_cons, IH. done.
    + rewrite IH, string_app_assoc. done.
Qed.

Lemma join_split s : JS.join "/" (JS.split "/" s) = s.
Proof. apply (join_split_go s ""). Qed.

(** A string without "/" goes into the segment being read. *)
Lemma split_go_app x : ∀ cur rest,
  has_char "/" x = false →
  JS.split_go "/" cur (x +:+ rest) = JS.split_go "/" (cur +:+ x) rest.
Proof.
  induction x as [|c x IH]; intros cur rest Hx.
  - by rewrite string_app_nil_r.
  - change (String c x +:+ rest) with (String c (x +:+ rest)). cbn in Hx |- *.
    apply orb_false_iff in Hx as [Hc Hx]. rewrite Hc, IH by done.
    by rewrite string_app_assoc.
Qed.

(** Joining segments without "/" and splitting gives the segments back. *)
Lemma split_join segs :
  segs ≠ [] → Forall (λ seg, has_char "/" seg = false) segs →
  JS.split "/" (JS.join "/" segs) = segs.
Proof.
  unfold JS.split. induction segs as [|x [|y l] IH]; intros Hne Hsegs; [done|..].
  - cbn [JS.join]. rewrite <- (string_app_nil_r x) at 1.
    rewrite split_go_app by (by inversion Hsegs). done.
  - rewrite join_cons. inversion Hsegs as [|? ? Hx Hl]; subst.
    rewrite split_go_app by done.
    change ("/" +:+ JS.join "/" (y :: l)) with (String "/" (JS.join "/" (y :: l))).
    cbn [JS.split_go]. rewrite Ascii.eqb_refl, IH by done. done.
Qed.

Lemma split_no_slash s : Forall (λ seg, has_char "/" seg = false) (JS.split "/" s).
Proof.
  apply Forall_forall. intros x Hx. by eapply (split_go_no_sep "/"%char s "").
Qed.

Lemma join_app sep l1 l2 :
  l1 ≠ [] → l2 ≠ [] → JS.join sep (l1 ++ l2) = JS.join sep l1 +:+ sep +:+ JS.join sep l2.
Proof.
  intros H1 H2. induction l1 as [|x [|y l] IH]; [done|..].
  - destruct l2 as [|z l2]; done.
  - change ((x :: y :: l) ++ l2) with (x :: y :: (l ++ l2)).
    rewrite !join_cons. change (y :: l ++ l2) with ((y :: l) ++ l2).
    rewrite IH by done. by rewrite !string_app_assoc.
Qed.

(** [normalizeString] keeps ordinary segments as they are. *)
Lemma normalizeString_ordinary allowAboveRoot segs : ∀ res,
  forallb Path.ordinary segs = true →
  Path.normalizeString allowAboveRoot res segs = List.rev res ++ segs.
Proof.
  induction segs as [|seg segs IH]; intros res; cbn [forallb Path.normalizeString].
  - by rewrite app_nil_r.
  - intros [Hseg Hsegs]%andb_true_iff. unfold Path.ordinary in Hseg.
    apply negb_true_iff, orb_false_iff in Hseg as [[H1 H2]%orb_false_iff H3].
    rewrite H1, H2, H3. cbn [orb]. rewrite IH by done. cbn [List.rev].
    by rewrite <- app_assoc.
Qed.

Lemma ends_with_slash_app a b :
  Path.ends_with_slash (a +:+ b)
  = if JS.truthy b then Path.ends_with_slash b else Path.ends_with_slash a.
Proof.
  induction a as [|c a IH].
  - destruct b; done.
  - change (String c a +:+ b) with (String c (a +:+ b)).
    destruct b as [|d b]; [by rewrite string_app_nil_r|].
    cbn [JS.truthy] in *. rewrite <- IH. cbn.
    destruct (a +:+ String d b) eqn:Hab; [by destruct a|done].
Qed.

Lemma ends_with_slash_no_slash s : has_char "/" s = false → Path.ends_with_slash s = false.
Proof.
  induction s as [|c [|d s] IH]; [done|..]; cbn; intros H.
  - by apply orb_false_iff in H as [-> _].
  - apply orb_false_iff in H as [_ H]. by apply IH.
Qed.

Lemma ordinary_truthy seg : Path.ordinary seg = true → JS.truthy seg = true.
Proof. by destruct seg. Qed.

Lemma join_truthy sep segs :
  segs ≠ [] → Forall (λ seg, JS.truthy seg = true) segs → JS.truthy (JS.join sep segs) = true.
Proof.
  destruct segs as [|x [|y l]]; [done|..]; intros _ Hs; inversion Hs as [|? ? Hx _]; subst.
  - done.
  - rewrite join_cons. by destruct x.
Qed.

(** The last segment decides whether a joined path ends with "/". *)
Lemma ends_with_slash_join segs :
  segs ≠ [] → Forall (λ seg, Path.ordinary seg = true ∧ has_char "/" seg = false) segs →
  Path.ends_with_slash (JS.join "/" segs) = false.
Proof.
  induction segs as [|x [|y l] IH]; intros Hne Hs; [done|..];
    inversion Hs as [|? ? [Hx Hx'] Hl]; subst.
  - by apply ends_with_slash_no_slash.
  - rewrite join_cons, ends_with_slash_app.
    assert (Htr : JS.truthy ("/" +:+ JS.join "/" (y :: l)) = true) by done.
    rewrite Htr. change ("/" +:+ ?s) with (String "/" s).
    pose proof (IH ltac:(done) Hl) as Hend.
    assert (Ht : JS.truthy (JS.join "/" (y :: l)) = true).
    { apply join_truthy; [done|]. eapply Forall_impl; [exact Hl|].
      intros seg [Ho _]. by apply ordinary_truthy. }
    destruct (JS.join "/" (y :: l)); [done|]. exact Hend.
Qed.

Lemma forallb_ordinary segs :
  forallb Path.ordinary segs = true → Forall (λ seg, Path.ordinary seg = true) segs.
Proof. intros H. apply Forall_forall. intros x Hx. rewrite forallb_forall in H. apply H. by apply list_elem_of_In. Qed.

(** [path.normalize] leaves a path in normal form alone. *)
Lemma normalize_normal_form p : normal_form p = true → Path.normalize p = p.
Proof.
  unfold normal_form. intros Hn.
  pose proof (join_split p) as Hp. pose proof (split_no_slash p) as Hslash.
  destruct (JS.split "/" p) as [|first segs] eqn:Hsplit.
  { by destruct (split_go_cons "/"%char "" p) as (? & ? & ?); unfold JS.split in *; congruence. }
  assert (Hsegs : ∀ l, l ≠ [] → forallb Path.ordinary l = true →
                    Forall (λ seg, has_char "/" seg = false) l →
                    Forall (λ seg, Path.ordinary seg = true ∧ has_char "/" seg = false) l).
  { intros l _ Ho Hs. apply forallb_ordinary in Ho. apply Forall_forall. intros x Hx.
    rewrite Forall_forall in Ho, Hs. auto. }
  destruct first as [|c first].
  - destruct segs as [|y l].
    + cbn in Hn. done.
    + (* absolute *)
      rewrite join_cons in Hp. apply Forall_cons in Hslash as [_ Hl].
      pose proof (Hsegs (y :: l) ltac:(done) Hn Hl) as Hall.
      assert (Hj : JS.truthy (JS.join "/" (y :: l)) = true).
      { apply join_truthy; [done|]. eapply Forall_impl; [exact Hall|].
        intros ? [? _]. by apply ordinary_truthy. }
      assert (Hp' : p = String "/" (JS.join "/" (y :: l))) by (by rewrite <- Hp).
      assert (Hend : Path.ends_with_slash p = false).
      { rewrite Hp'. change (String "/" ?s) with ("/" +:+ s).
        rewrite ends_with_slash_app, Hj. by apply ends_with_slash_join. }
      assert (Htr : JS.truthy p = true) by (by rewrite Hp').
      assert (Hstart : Path.starts_with_slash p = true) by (by rewrite Hp').
      unfold Path.normalize. rewrite Hsplit, Hend, Htr, Hstart.
      cbn [negb].
      change (Path.normalizeString false [] ("" :: y :: l))
        with (Path.normalizeString false [] (y :: l)).
      rewrite normalizeString_ordinary by exact Hn. cbn [List.rev app]. rewrite Hj. cbn [negb].
      by rewrite Hp'.
  - (* relative *)
    pose proof (Hsegs (String c first :: segs) ltac:(done) Hn Hslash) as Hall.
    assert (Hfirst : c ≠ "/"%char).
    { apply Forall_cons in Hslash as [Hc _]. cbn in Hc.
      apply orb_false_iff in Hc as [Hc _]. by apply Ascii.eqb_neq in Hc. }
    assert (Hstart : Path.starts_with_slash p = false).
    { rewrite <- Hp. destruct segs; cbn; by apply Ascii.eqb_neq. }
    assert (Hend : Path.ends_with_slash p = false).
    { rewrite <- Hp. by apply ends_with_slash_join. }
    assert (Htr : JS.truthy p = true).
    { rewrite <- Hp. apply join_truthy; [done|]. eapply Forall_impl; [exact Hall|].
      intros ? [? _]. by apply ordinary_truthy. }
    unfold Path.normalize. rewrite Htr, Hstart, Hend, Hsplit. cbn [negb].
    rewrite normalizeString_ordinary by exact Hn. cbn [List.rev app]. rewrite Hp, Htr. done.
Qed.

Lemma filter_truthy (l : list string) :
  Forall (λ seg, JS.truthy seg = true) l →
  filter (fun arg => Is_true (JS.truthy arg)) l = l.
Proof.
  induction 1 as [|x l Hx _ IH]; [done|].
  rewrite filter_cons_True by (by rewrite Hx). by rewrite IH.
Qed.

(** Names without "/" that are neither "." nor ".." keep a path in normal
    form when they are joined to it. *)
Lemma normal_form_join wd tail :
  normal_form wd = true →
  Forall (λ seg, Path.ordinary seg = true ∧ has_char "/" seg = false) tail →
  normal_form (JS.join "/" (wd :: tail)) = true.
Proof.
  intros Hwd Htail. destruct tail as [|x tail]; [done|].
  pose proof (join_split wd) as Hjoin. pose proof (split_no_slash wd) as Hslash.
  assert (Hsplit : JS.split "/" (JS.join "/" (wd :: x :: tail))
                   = JS.split "/" wd ++ x :: tail).
  { rewrite join_cons. rewrite <- Hjoin at 1.
    destruct (split_go_cons "/"%char "" wd) as (a & l & Ha). unfold JS.split in *.
    rewrite Ha in *. rewrite <- join_app by done. apply split_join; [done|].
    apply Forall_app. split; [done|]. eapply Forall_impl; [exact Htail|]. by intros ? [_ ?]. }
  assert (Hord : forallb Path.ordinary (x :: tail) = true).
  { apply forallb_forall. intros seg Hin%list_elem_of_In.
    rewrite Forall_forall in Htail. by apply Htail. }
  unfold normal_form in *. rewrite Hsplit.
  destruct (split_go_cons "/"%char "" wd) as (first & segs & Hfirst).
  unfold JS.split in *. rewrite Hfirst in *.
  destruct first as [|c first], segs as [|y l]; [done|..]; cbn [app forallb] in Hwd |- *.
  - apply andb_true_iff in Hwd as [-> Hl]. by rewrite forallb_app, Hl.
  - apply andb_true_iff in Hwd as [-> _]. exact Hord.
  - apply andb_true_iff in Hwd as [-> [-> Hl]%andb_true_iff]. by rewrite forallb_app, Hl.
Qed.

(** For a directory in normal form and names that are one segment each,
    the concatenation with "/" is what [path.join] returns. *)
Lemma path_join_exact wd tail :
  normal_form wd = true →
  Forall (λ seg, Path.ordinary seg = true ∧ has_char "/" seg = false) tail →
  Path.join (wd :: tail) = path_join (wd :: tail).
Proof.
  intros Hwd Htail. unfold Path.join, path_join.
  rewrite filter_truthy.
  - by rewrite normalize_normal_form by (by apply normal_form_join).
  - constructor; [by destruct wd|]. eapply Forall_impl; [exact Htail|].
    intros seg [Hseg _]. by apply ordinary_truthy.
Qed.

Lemma pretty_N_go_truthy x : ∀ s, JS.truthy s = true → JS.truthy (pretty_N_go x s) = true.
Proof.
  induction (N.lt_wf_0 x) as [x _ IH]; intros s Hs.
  assert (x = 0 ∨ 0 < x)%N as [->|Hpos] by lia; [by rewrite pretty_N_go_0|].
  rewrite pretty_N_go_step by done. apply IH; [by apply N.div_lt|done].
Qed.

Lemma decN_digits n : all_digits (JS.decN n) = true ∧ JS.truthy (JS.decN n) = true.
Proof.
  unfold JS.decN, pretty, pretty_N. case_decide; [done|]. split.
  - by apply pretty_N_go_digits.
  - rewrite pretty_N_go_step by lia. by apply pretty_N_go_truthy.
Qed.

Lemma digits_ordinary s :
  all_digits s = true → JS.truthy s = true → Path.ordinary s = true.
Proof.
  destruct s as [|c s]; [done|]. cbn [all_digits]. intros [Hc _]%andb_true_iff _.
  unfold Path.ordinary. cbn.
  assert (Ascii.eqb c "." = false) as ->; [|done].
  apply Ascii.eqb_neq. by intros ->.
Qed.

(** The paths of lines 41 and 56. For a working directory in normal
    form, the staging directory and the path of every staged file, which
    the embedding makes by concatenation, are what [path.join] returns. *)
Lemma staging_paths_exact o e index mimeType :
  normal_form (working_dir o e) = true →
  Path.join [working_dir o e; ".tmp"; "images"; JS.decN (staged_at e)] = staging_dir o e
  ∧ normal_form (staging_dir o e) = true
  ∧ Path.join [staging_dir o e; staged_name index (extension_of mimeType)]
    = path_join [staging_dir o e; staged_name index (extension_of mimeType)].
Proof.
  intros Hwd. destruct (decN_digits (staged_at e)) as [Hd Ht].
  assert (Htail : Forall (λ seg, Path.ordinary seg = true ∧ has_char "/" seg = false)
                    [".tmp"; "images"; JS.decN (staged_at e)]).
  { repeat constructor. - by apply digits_ordinary. - by apply digits_no_char. }
  assert (Hdir : normal_form (staging_dir o e) = true) by (by apply normal_form_join).
  split; [by apply path_join_exact|]. split; [done|].
  apply path_join_exact; [done|]. repeat constructor.
  apply staged_name_no_slash, extension_no_slash.
Qed.

(** Where the working directory is not in normal form the two differ:
    [path.join] drops the "/" at the end of "/srv/" and resolves "..". *)
Example path_join_not_normal :
  Path.join ["/srv/"; ".tmp"; "images"; "1700000000000"] = "/srv/.tmp/images/1700000000000"
  ∧ path_join ["/srv/"; ".tmp"; "images"; "1700000000000"] = "/srv//.tmp/images/1700000000000"
  ∧ Path.join ["a/.."; ".tmp"] = ".tmp"
  ∧ normal_form "/srv/" = false ∧ normal_form "a/.." = false ∧ normal_form "/srv" = true.
Proof. vm_compute. repeat split; reflexivity. Qed.

(** * Properties of the MCP routes *)

(** ** Reading and writing the file *)

Lemma mcp_write_ok x c s s' :
  Mcp.writeMcpConfig x c s = (Ok (), s') → Mcp.config_file s' = Mcp.Holds c.
Proof.
  unfold Mcp.writeMcpConfig, Mcp.ensureMcpConfigDir.
  destruct (Mcp.mkdir_error x); [done|].
  destruct (Mcp.write_error x); [by destruct (Mcp.write_after_open x)|].
  by intros [= <-].
Qed.

(** A write that fails leaves the file as it was, unless it fails after
    it has opened the file. *)
Lemma mcp_write_throw x c s s' err :
  Mcp.writeMcpConfig x c s = (Throw err, s') →
  Mcp.config_file s' = Mcp.config_file s
  ∨ (Mcp.write_error x = true ∧ Mcp.write_after_open x = true
     ∧ Mcp.config_file s' = Mcp.Garbled).
Proof.
  unfold Mcp.writeMcpConfig, Mcp.ensureMcpConfigDir.
  destruct (Mcp.mkdir_error x); [intros [= <- <-]; by left|].
  destruct (Mcp.write_error x); [|done].
  destruct (Mcp.write_after_open x); intros [= <- <-]; [by right|by left].
Qed.

(** The [catch] of a route after a write that failed. *)
Lemma mcp_failed_write x c s0 s1 s err label error :
  Mcp.writeMcpConfig x c s0 = (Throw err, s1) →
  Mcp.config_file s0 = Mcp.config_file s →
  Mcp.left_or_cut x s (Mcp.failed label error err s1).
Proof.
  intros Hw Hs0. unfold Mcp.left_or_cut, Mcp.failed. simpl.
  destruct (mcp_write_throw x c s0 s1 err Hw) as [->|(? & ? & ->)]; [left|right]; by rewrite ?Hs0.
Qed.

Lemma mcp_write_sound x c s :
  Mcp.mkdir_error x = false → Mcp.write_error x = false →
  ∃ s', Mcp.writeMcpConfig x c s = (Ok (), s') ∧ Mcp.config_file s' = Mcp.Holds c.
Proof.
  intros Hm Hw. unfold Mcp.writeMcpConfig, Mcp.ensureMcpConfigDir. rewrite Hm, Hw. eauto.
Qed.

Lemma mcp_read_holds x s c :
  Mcp.read_error x = false → Mcp.config_file s = Mcp.Holds c → Mcp.readMcpConfig x s = Ok c.
Proof. intros Hx Hc. unfold Mcp.readMcpConfig. by rewrite Hx, Hc. Qed.

Lemma mcp_read_servers x s c :
  Mcp.readMcpConfig x s = Ok c →
  default ∅ (Mcp.mcpServers c) = Mcp.servers_of (Mcp.config_file s).
Proof.
  unfold Mcp.readMcpConfig. destruct (Mcp.read_error x); [done|].
  destruct (Mcp.config_file s); by intros [= <-].
Qed.

Lemma mcp_read_rest x s c c0 :
  Mcp.readMcpConfig x s = Ok c → Mcp.config_file s = Mcp.Holds c0 → c = c0.
Proof.
  unfold Mcp.readMcpConfig. destruct (Mcp.read_error x); [done|].
  intros H Hc. rewrite Hc in H. congruence.
Qed.

Lemma mcp_read_garbled x s :
  Mcp.config_file s = Mcp.Garbled → ∃ err, Mcp.readMcpConfig x s = Throw err.
Proof.
  intros Hs. unfold Mcp.readMcpConfig. rewrite Hs. destruct (Mcp.read_error x); eauto.
Qed.

(** ** Looking a server up and assigning to it *)

Lemma mcp_lookup_own c name sc :
  Mcp.lookup_server c name = Mcp.Own sc ↔ default ∅ (Mcp.mcpServers c) !! name = Some sc.
Proof.
  unfold Mcp.lookup_server. destruct (Mcp.mcpServers c) as [servers|]; simpl.
  - destruct (servers !! name) as [sc'|]; [naive_solver|].
    destruct (Mcp.inherited name); naive_solver.
  - by rewrite lookup_empty.
Qed.

Lemma mcp_lookup_missing c name :
  Mcp.lookup_server c name = Mcp.Missing →
  default ∅ (Mcp.mcpServers c) !! name = None
  ∧ (Mcp.inherited name = false ∨ Mcp.mcpServers c = None).
Proof.
  unfold Mcp.lookup_server. destruct (Mcp.mcpServers c) as [servers|]; simpl.
  - destruct (servers !! name) as [sc'|]; [done|].
    destruct (Mcp.inherited name); [done|]. auto.
  - rewrite lookup_empty. auto.
Qed.

Lemma mcp_lookup_inherited c name :
  Mcp.lookup_server c name = Mcp.Inherited →
  default ∅ (Mcp.mcpServers c) !! name = None ∧ Mcp.inherited name = true.
Proof.
  unfold Mcp.lookup_server. destruct (Mcp.mcpServers c) as [servers|]; simpl; [|done].
  destruct (servers !! name) as [sc'|]; [done|].
  by destruct (Mcp.inherited name).
Qed.

Lemma mcp_assign_other servers name sc other :
  other ≠ name → Mcp.assign servers name sc !! other = servers !! other.
Proof.
  intros Hne. unfold Mcp.assign.
  repeat case_match; by rewrite ?lookup_insert_ne by done.
Qed.

Lemma mcp_assign_insert servers name sc :
  name ≠ "__proto__" ∨ is_Some (servers !! name) →
  Mcp.assign servers name sc = <[name := sc]> servers.
Proof.
  intros H. unfold Mcp.assign. destruct (servers !! name) eqn:Hs; [done|].
  destruct (String.eqb_spec name "__proto__") as [->|]; [|done].
  destruct H as [|[? ?]]; done.
Qed.

(** ** The routes, taken apart *)

Lemma mcp_add_ok b x s r s' :
  Mcp.add b x s = Mcp.Answer r s' → Mcp.status r = 200 →
  ∃ name c,
    Mcp.b_name b = Some name
    ∧ Mcp.readMcpConfig x s = Ok c
    ∧ Mcp.lookup_server c name = Mcp.Missing
    ∧ Mcp.config_file s'
      = Mcp.Holds (Mcp.set_servers
                     (Mcp.assign (default ∅ (Mcp.mcpServers c)) name (Mcp.build b)) c)
    ∧ Mcp.body r = Mcp.Saved (Mcp.quoted name +:+ " added successfully") name (Mcp.build b)
    ∧ String.eqb (default "stdio" (Mcp.b_type b)) "stdio"
      && negb (JS.truthy_opt (Mcp.b_command b)) = false
    ∧ String.eqb (default "stdio" (Mcp.b_type b)) "sse"
      && negb (JS.truthy_opt (Mcp.b_url b)) = false.
Proof.
  unfold Mcp.add. intros H Hr.
  destruct (Mcp.b_name b) as [name|]; [|by simplify_eq/=].
  destruct (negb (JS.truthy name)); [by simplify_eq/=|].
  destruct (String.eqb (default "stdio" (Mcp.b_type b)) "stdio"
            && negb (JS.truthy_opt (Mcp.b_command b))) eqn:H1; [by simplify_eq/=|].
  destruct (String.eqb (default "stdio" (Mcp.b_type b)) "sse"
            && negb (JS.truthy_opt (Mcp.b_url b))) eqn:H2; [by simplify_eq/=|].
  cbv zeta in H.
  change (Mcp.readMcpConfig x (Mcp.say _ s)) with (Mcp.readMcpConfig x s) in H.
  unfold Mcp.failed in H.
  destruct (Mcp.readMcpConfig x s) as [c|err] eqn:Hread; [|by simplify_eq/=].
  destruct (Mcp.lookup_server c name) eqn:Hl; [by simplify_eq/=|by simplify_eq/=|].
  destruct (Mcp.writeMcpConfig _ _ _) as [[[]|err] s1] eqn:Hw; [|by simplify_eq/=].
  apply mcp_write_ok in Hw. simplify_eq/=. exists name, c. by rewrite Hw.
Qed.

Lemma mcp_update_ok name b x s r s' :
  Mcp.update name b x s = Mcp.Answer r s' → Mcp.status r = 200 →
  ∃ c,
    Mcp.readMcpConfig x s = Ok c
    ∧ Mcp.lookup_server c name ≠ Mcp.Missing
    ∧ Mcp.config_file s'
      = Mcp.Holds (Mcp.set_servers
                     (Mcp.assign (default ∅ (Mcp.mcpServers c)) name (Mcp.build b)) c).
Proof.
  unfold Mcp.update, Mcp.failed. intros H Hr. cbv zeta in H.
  change (Mcp.readMcpConfig x (Mcp.say _ s)) with (Mcp.readMcpConfig x s) in H.
  destruct (Mcp.readMcpConfig x s) as [c|err] eqn:Hread; [|by simplify_eq/=].
  exists c. split; [done|].
  destruct (Mcp.lookup_server c name) eqn:Hl; [| |by simplify_eq/=].
  all: destruct (Mcp.writeMcpConfig _ _ _) as [[[]|err] s1] eqn:Hw; [|by simplify_eq/=].
  all: apply mcp_write_ok in Hw; simplify_eq/=; by rewrite Hw.
Qed.

Lemma mcp_remove_ok name x s r s' :
  Mcp.remove name x s = Mcp.Answer r s' → Mcp.status r = 200 →
  ∃ c,
    Mcp.readMcpConfig x s = Ok c
    ∧ Mcp.lookup_server c name ≠ Mcp.Missing
    ∧ Mcp.config_file s'
      = Mcp.Holds (Mcp.set_servers (delete name (default ∅ (Mcp.mcpServers c))) c).
Proof.
  unfold Mcp.remove, Mcp.failed. intros H Hr. cbv zeta in H.
  change (Mcp.readMcpConfig x (Mcp.say _ s)) with (Mcp.readMcpConfig x s) in H.
  destruct (Mcp.readMcpConfig x s) as [c|err] eqn:Hread; [|by simplify_eq/=].
  exists c. split; [done|].
  destruct (Mcp.lookup_server c name) eqn:Hl; [| |by simplify_eq/=].
  all: destruct (Mcp.writeMcpConfig _ _ _) as [[[]|err] s1] eqn:Hw; [|by simplify_eq/=].
  all: apply mcp_write_ok in Hw; simplify_eq/=; by rewrite Hw.
Qed.

Lemma mcp_toggle_ok name enabled x s r s' :
  Mcp.toggle name enabled x s = Mcp.Answer r s' → Mcp.status r = 200 →
  ∃ c sc,
    Mcp.readMcpConfig x s = Ok c
    ∧ default ∅ (Mcp.mcpServers c) !! name = Some sc
    ∧ Mcp.config_file s'
      = Mcp.Holds
          (Mcp.set_servers
             (<[name := {| Mcp.sc_enabled := enabled; Mcp.sc_command := Mcp.sc_command sc;
                           Mcp.sc_args := Mcp.sc_args sc; Mcp.sc_url := Mcp.sc_url sc;
                           Mcp.sc_headers := Mcp.sc_headers sc; Mcp.sc_env := Mcp.sc_env sc;
                           Mcp.sc_other := Mcp.sc_other sc |}]>
                (default ∅ (Mcp.mcpServers c))) c)
    ∧ Mcp.body r
      = Mcp.Toggled (Mcp.quoted name +:+ " "
                     +:+ (if default false enabled then "enabled" else "disabled")
                     +:+ " successfully") enabled.
Proof.
  unfold Mcp.toggle, Mcp.failed. intros H Hr. cbv zeta in H.
  change (Mcp.readMcpConfig x (Mcp.say _ s)) with (Mcp.readMcpConfig x s) in H.
  destruct (Mcp.readMcpConfig x s) as [c|err] eqn:Hread; [|by simplify_eq/=].
  destruct (Mcp.lookup_server c name) as [sc| |] eqn:Hl; [|done|by simplify_eq/=].
  apply mcp_lookup_own in Hl.
  destruct (Mcp.writeMcpConfig _ _ _) as [[[]|err] s1] eqn:Hw; [|by simplify_eq/=].
  apply mcp_write_ok in Hw. simplify_eq/=. exists c, sc. by rewrite Hw.
Qed.

(** [GET /get] on a file that can be read. *)
Lemma mcp_get_own name x s c sc :
  Mcp.read_error x = false → Mcp.config_file s = Mcp.Holds c →
  default ∅ (Mcp.mcpServers c) !! name = Some sc →
  Mcp.status_of (Mcp.get name x s) = Some 200
  ∧ Mcp.body_of (Mcp.get name x s) = Some (Mcp.Details (Mcp.to_api name sc)).
Proof.
  intros Hx Hs Hsc. unfold Mcp.get. cbv zeta.
  change (Mcp.readMcpConfig x (Mcp.say _ s)) with (Mcp.readMcpConfig x s).
  rewrite (mcp_read_holds x s c Hx Hs).
  apply mcp_lookup_own in Hsc. by rewrite Hsc.
Qed.

Lemma mcp_get_missing name x s c :
  Mcp.read_error x = false → Mcp.config_file s = Mcp.Holds c →
  default ∅ (Mcp.mcpServers c) !! name = None → Mcp.inherited name = false →
  Mcp.status_of (Mcp.get name x s) = Some 404.
Proof.
  intros Hx Hs Hsc Hn. unfold Mcp.get. cbv zeta.
  change (Mcp.readMcpConfig x (Mcp.say _ s)) with (Mcp.readMcpConfig x s).
  rewrite (mcp_read_holds x s c Hx Hs).
  unfold Mcp.lookup_server. destruct (Mcp.mcpServers c) as [servers|]; [|done].
  simpl in Hsc. by rewrite Hsc, Hn.
Qed.

Lemma mcp_size_default (m : option (gmap string string)) :
  default ∅ (if (0 <? size (default ∅ m))%nat then Some (default ∅ m) else None)
  = default ∅ m.
Proof.
  destruct (Nat.ltb_spec 0 (size (default ∅ m))) as [|Hz]; [done|].
  simpl. symmetry. apply map_size_empty_iff. lia.
Qed.

Lemma mcp_length_default (l : option (Datatypes.list string)) :
  default [] (if (0 <? length (default [] l))%nat then Some (default [] l) else None)
  = default [] l.
Proof.
  by destruct (default [] l) as [|a l'].
Qed.

(** ** What the routes guarantee *)

Lemma mcp_add_refused b x s :
  Mcp.status_of (Mcp.add b x s) ≠ Some 200 → Mcp.left_or_cut x s (Mcp.add b x s).
Proof.
  unfold Mcp.add. destruct (Mcp.b_name b) as [name|]; [|by left].
  repeat (case_match; try (by left)); try done.
  intros _. by eapply mcp_failed_write.
Qed.

Lemma mcp_update_refused name b x s :
  Mcp.status_of (Mcp.update name b x s) ≠ Some 200 →
  Mcp.left_or_cut x s (Mcp.update name b x s).
Proof.
  unfold Mcp.update.
  repeat (case_match; try (by left)); try done;
    intros _; by eapply mcp_failed_write.
Qed.

Lemma mcp_remove_refused name x s :
  Mcp.status_of (Mcp.remove name x s) ≠ Some 200 →
  Mcp.left_or_cut x s (Mcp.remove name x s).
Proof.
  unfold Mcp.remove.
  repeat (case_match; try (by left)); try done;
    intros _; by eapply mcp_failed_write.
Qed.

Lemma mcp_toggle_refused name enabled x s :
  Mcp.status_of (Mcp.toggle name enabled x s) ≠ Some 200 →
  Mcp.toggle name enabled x s = Mcp.NotModelled
  ∨ Mcp.left_or_cut x s (Mcp.toggle name enabled x s).
Proof.
  unfold Mcp.toggle.
  repeat (case_match; try (by right; left)); try done; try (by left);
    intros _; right; by eapply mcp_failed_write.
Qed.

Lemma mcp_post_config_refused c x s :
  Mcp.status_of (Mcp.post_config c x s) ≠ Some 200 →
  Mcp.left_or_cut x s (Mcp.post_config c x s).
Proof.
  destruct c as [c|]; [|by left]. unfold Mcp.post_config.
  repeat (case_match; try (by left)); try done.
  intros _. by eapply mcp_failed_write.
Qed.

(** X16: only a request that reaches the write changes the
    configuration file. A request that is refused (400, 404, 409) leaves
    the file exactly as it was, and so does one that fails (500) in
    reading the file, in making the directory or in opening the file for
    writing. The one other case is a write that fails after it has
    opened the file: the request answers 500 and the file is left cut
    off, not JSON any more. The three reading routes never change the
    file. *)
Theorem mcp_refused_requests_change_nothing (x : Mcp.io) (s : Mcp.store) :
  (∀ b, Mcp.status_of (Mcp.add b x s) ≠ Some 200 → Mcp.left_or_cut x s (Mcp.add b x s))
  ∧ (∀ name b, Mcp.status_of (Mcp.update name b x s) ≠ Some 200 →
               Mcp.left_or_cut x s (Mcp.update name b x s))
  ∧ (∀ name, Mcp.status_of (Mcp.remove name x s) ≠ Some 200 →
             Mcp.left_or_cut x s (Mcp.remove name x s))
  ∧ (∀ name enabled, Mcp.status_of (Mcp.toggle name enabled x s) ≠ Some 200 →
       Mcp.toggle name enabled x s = Mcp.NotModelled
       ∨ Mcp.left_or_cut x s (Mcp.toggle name enabled x s))
  ∧ (∀ c, Mcp.status_of (Mcp.post_config c x s) ≠ Some 200 →
          Mcp.left_or_cut x s (Mcp.post_config c x s))
  ∧ (∀ a, Mcp.left_or_cut x s a →
          Mcp.status_of a ≠ Some 500 ∨ Mcp.write_after_open x = false →
          Mcp.file_after a = Some (Mcp.config_file s))
  ∧ Mcp.file_after (Mcp.list x s) = Some (Mcp.config_file s)
  ∧ (∀ name, Mcp.file_after (Mcp.get name x s) = Some (Mcp.config_file s))
  ∧ (∀ homedir, Mcp.file_after (Mcp.get_config homedir x s) = Some (Mcp.config_file s)).
Proof.
  split; [intros b; apply mcp_add_refused|].
  split; [intros name b; apply mcp_update_refused|].
  split; [intros name; apply mcp_remove_refused|].
  split; [intros name enabled; apply mcp_toggle_refused|].
  split; [intros c; apply mcp_post_config_refused|].
  split; [|repeat split].
  - intros a [Ha|(Hst & _ & Hcut & _)] [Hne|Hopen]; try done; congruence.
  - unfold Mcp.list, Mcp.failed. by case_match.
  - intros name. unfold Mcp.get, Mcp.failed. by repeat case_match.
  - intros homedir. unfold Mcp.get_config, Mcp.failed. by case_match.
Qed.

(** At a write that fails after the file was opened: PUT /update of the
    one server answers 500 and the file is not JSON any more. *)
Example mcp_failed_write_cuts_the_file :
  let x := {| Mcp.read_error := false; Mcp.mkdir_error := false; Mcp.write_error := true;
              Mcp.write_after_open := true |} in
  let a := Mcp.update "files" McpScenario.flag_body x McpScenario.with_files in
  Mcp.status_of a = Some 500 ∧ Mcp.file_after a = Some Mcp.Garbled
  ∧ Mcp.status_of (Mcp.list Mcp.sound (McpScenario.after a)) = Some 500.
Proof. vm_compute. repeat split; reflexivity. Qed.

(** X17: a server stored by POST /add is the one GET /get returns
    afterwards, field by field as it was sent: an stdio server comes back
    with its command, arguments and environment, an sse server with its
    URL and headers, each with the [enabled] flag of the request, [true]
    when the request had none. The name "__proto__" is left out: an
    assignment to it stores nothing. *)
Theorem mcp_add_then_get (b : Mcp.server_body) (name : string) (x x' : Mcp.io)
    (s s' : Mcp.store) (r : Mcp.response) :
  Mcp.add b x s = Mcp.Answer r s' → Mcp.status r = 200 →
  Mcp.b_name b = Some name → name ≠ "__proto__" → Mcp.read_error x' = false →
  let server := Mcp.to_api name (Mcp.build b) in
  Mcp.status_of (Mcp.get name x' s') = Some 200
  ∧ Mcp.body_of (Mcp.get name x' s') = Some (Mcp.Details server)
  ∧ Mcp.as_enabled server = default true (Mcp.b_enabled b)
  ∧ (default "stdio" (Mcp.b_type b) = "stdio" →
       Mcp.as_type server = "stdio"
       ∧ Mcp.as_command server = Mcp.b_command b
       ∧ Mcp.as_args server = default [] (Mcp.b_args b)
       ∧ Mcp.as_env server = default ∅ (Mcp.b_env b))
  ∧ (default "stdio" (Mcp.b_type b) = "sse" →
       Mcp.as_type server = "sse"
       ∧ Mcp.as_url server = Mcp.b_url b
       ∧ Mcp.as_headers server = default ∅ (Mcp.b_headers b)).
Proof.
  intros Hadd Hr Hname Hproto Hx'.
  destruct (mcp_add_ok b x s r s' Hadd Hr)
    as (name' & c & Hname' & Hread & Hl & Hfile & Hbody & Hcmd & Hurl).
  assert (name' = name) as -> by congruence.
  rewrite mcp_assign_insert in Hfile by auto.
  destruct (mcp_get_own name x' s' _ (Mcp.build b) Hx' Hfile) as [Hst Hget].
  { simpl. apply lookup_insert_eq. }
  cbv zeta. split; [done|]. split; [done|]. split; [|split].
  - unfold Mcp.build. cbv zeta. repeat case_match; simpl; by destruct (Mcp.b_enabled b) as [[]|].
  - intros Ht. rewrite Ht in Hcmd. simpl in Hcmd. apply negb_false_iff in Hcmd.
    unfold Mcp.build. cbv zeta. rewrite Ht. simpl. rewrite Hcmd.
    by rewrite mcp_length_default, mcp_size_default.
  - intros Ht. unfold Mcp.build. cbv zeta. rewrite Ht. simpl.
    by rewrite mcp_size_default.
Qed.

Lemma mcp_add_then_get_witness :
  ∃ r s',
    Mcp.add McpScenario.files_body Mcp.sound McpScenario.fresh = Mcp.Answer r s'
    ∧ Mcp.status r = 200
    ∧ Mcp.body_of (Mcp.get "files" Mcp.sound s')
      = Some (Mcp.Details
                {| Mcp.as_name := "files"; Mcp.as_type := "stdio";
                   Mcp.as_command := Some "npx";
                   Mcp.as_args := ["-y"; "server-filesystem"]; Mcp.as_url := None;
                   Mcp.as_headers := ∅; Mcp.as_env := ∅; Mcp.as_enabled := true |}).
Proof.
  eexists _, _. split; [reflexivity|]. split; [reflexivity|].
  eapply (mcp_add_then_get McpScenario.files_body "files" Mcp.sound Mcp.sound
            McpScenario.fresh); [reflexivity|reflexivity|reflexivity|done|reflexivity].
Defined.

Lemma mcp_list_ok x s c :
  Mcp.readMcpConfig x s = Ok c →
  Mcp.status_of (Mcp.list x s) = Some 200
  ∧ Mcp.body_of (Mcp.list x s)
    = Some (Mcp.Servers (map_imap (λ name sc, Some (Mcp.to_api name sc))
                           (Mcp.servers_of (Mcp.config_file s)))).
Proof.
  intros Hread. unfold Mcp.list. cbv zeta.
  change (Mcp.readMcpConfig x (Mcp.say _ s)) with (Mcp.readMcpConfig x s).
  rewrite Hread. simpl. by rewrite (mcp_read_servers x s c Hread).
Qed.

(** X18: the names every JavaScript object inherits ("constructor",
    "toString", "__proto__", ...) look like servers to the routes that
    look a name up, on any file with an [mcpServers] object that has no
    such key: GET /get answers 200 with a server that has no command and
    no URL, POST /add never stores such a server (400 or 409), and
    DELETE /remove, when the file can be written, answers 200 and
    removes nothing; GET /list does not show the name. *)
Theorem mcp_inherited_names_look_taken (name : string) (x : Mcp.io) (s : Mcp.store)
    (c : Mcp.config) (servers : gmap string Mcp.server_config) :
  Mcp.inherited name = true →
  Mcp.readMcpConfig x s = Ok c → Mcp.mcpServers c = Some servers → servers !! name = None →
  Mcp.status_of (Mcp.get name x s) = Some 200
  ∧ Mcp.body_of (Mcp.get name x s) = Some (Mcp.Details (Mcp.phantom name))
  ∧ (∃ m, Mcp.body_of (Mcp.list x s) = Some (Mcp.Servers m) ∧ m !! name = None)
  ∧ (∀ b, Mcp.b_name b = Some name →
          Mcp.status_of (Mcp.add b x s) = Some 400
          ∨ Mcp.status_of (Mcp.add b x s) = Some 409)
  ∧ (Mcp.mkdir_error x = false → Mcp.write_error x = false →
     ∃ r s', Mcp.remove name x s = Mcp.Answer r s' ∧ Mcp.status r = 200
             ∧ Mcp.servers_of (Mcp.config_file s') = servers).
Proof.
  intros Hin Hread Hc Hnone.
  assert (Mcp.lookup_server c name = Mcp.Inherited) as Hl.
  { unfold Mcp.lookup_server. by rewrite Hc, Hnone, Hin. }
  repeat split.
  - unfold Mcp.get. cbv zeta.
    change (Mcp.readMcpConfig x (Mcp.say _ s)) with (Mcp.readMcpConfig x s).
    by rewrite Hread, Hl.
  - unfold Mcp.get. cbv zeta.
    change (Mcp.readMcpConfig x (Mcp.say _ s)) with (Mcp.readMcpConfig x s).
    by rewrite Hread, Hl.
  - eexists. split; [apply (mcp_list_ok x s c Hread)|].
    rewrite map_lookup_imap, <- (mcp_read_servers x s c Hread), Hc. simpl.
    by rewrite Hnone.
  - intros b Hb. unfold Mcp.add. rewrite Hb. cbv zeta.
    change (Mcp.readMcpConfig x (Mcp.say _ s)) with (Mcp.readMcpConfig x s).
    rewrite Hread, Hl.
    repeat case_match; simpl; auto.
  - intros Hm Hw. unfold Mcp.remove. cbv zeta.
    change (Mcp.readMcpConfig x (Mcp.say _ s)) with (Mcp.readMcpConfig x s).
    rewrite Hread, Hl.
    destruct (mcp_write_sound x
                (Mcp.set_servers (delete name (default ∅ (Mcp.mcpServers c))) c)
                (Mcp.say (ConsoleLog ["🗑️ Removing MCP server from Q Developer CLI config:";
                                      name]) s) Hm Hw) as (s1 & -> & Hs1).
    eexists _, _. split; [done|]. split; [done|]. simpl. rewrite Hs1, Hc. simpl.
    by apply delete_id.
Qed.

Lemma mcp_inherited_names_look_taken_witness :
  Mcp.status_of (Mcp.get "toString" Mcp.sound McpScenario.with_files) = Some 200
  ∧ Mcp.body_of (Mcp.get "toString" Mcp.sound McpScenario.with_files)
    = Some (Mcp.Details (Mcp.phantom "toString")).
Proof.
  destruct (mcp_inherited_names_look_taken "toString" Mcp.sound McpScenario.with_files
              {| Mcp.mcpServers := Some {[ "files" := Mcp.build McpScenario.files_body ]};
                 Mcp.rest := ∅ |}
              {[ "files" := Mcp.build McpScenario.files_body ]})
    as (H1 & H2 & _); [reflexivity|reflexivity|reflexivity|reflexivity|].
  exact (conj H1 H2).
Defined.

(** X19: after DELETE /remove has answered 200 the file holds the servers
    it held before without the one removed; GET /get of that name then
    answers 404, and so does a second DELETE /remove (for a name that is
    not one of the inherited ones). *)
Theorem mcp_remove_then_get (name : string) (x x' : Mcp.io) (s s' : Mcp.store)
    (r : Mcp.response) :
  Mcp.remove name x s = Mcp.Answer r s' → Mcp.status r = 200 →
  Mcp.read_error x' = false →
  Mcp.servers_of (Mcp.config_file s') = delete name (Mcp.servers_of (Mcp.config_file s))
  ∧ (Mcp.inherited name = false →
     Mcp.status_of (Mcp.get name x' s') = Some 404
     ∧ Mcp.status_of (Mcp.remove name x' s') = Some 404).
Proof.
  intros Hrm Hr Hx'.
  destruct (mcp_remove_ok name x s r s' Hrm Hr) as (c & Hread & _ & Hfile).
  split.
  - rewrite Hfile. simpl. by rewrite (mcp_read_servers x s c Hread).
  - intros Hin. split.
    + apply (mcp_get_missing name x' s' _ Hx' Hfile); [|done].
      simpl. apply lookup_delete_eq.
    + unfold Mcp.remove. cbv zeta.
      change (Mcp.readMcpConfig x' (Mcp.say ?l s')) with (Mcp.readMcpConfig x' s').
      rewrite (mcp_read_holds x' s' _ Hx' Hfile).
      unfold Mcp.lookup_server. simpl. by rewrite lookup_delete_eq, Hin.
Qed.

Lemma mcp_remove_then_get_witness :
  ∃ r s',
    Mcp.remove "files" Mcp.sound McpScenario.with_files = Mcp.Answer r s'
    ∧ Mcp.status r = 200
    ∧ Mcp.servers_of (Mcp.config_file s') = ∅
    ∧ Mcp.status_of (Mcp.get "files" Mcp.sound s') = Some 404.
Proof.
  eexists _, _. split; [reflexivity|]. split; [reflexivity|].
  destruct (mcp_remove_then_get "files" Mcp.sound Mcp.sound McpScenario.with_files _ _
              eq_refl eq_refl eq_refl) as [H1 H2].
  split; [by vm_compute|]. exact (proj1 (H2 eq_refl)).
Defined.

(** X20: POST /toggle changes the [enabled] flag of the named server and
    nothing else of it: GET /get afterwards returns the server as it was
    before, with [enabled] false when the request said [false] and true
    otherwise. *)
Theorem mcp_toggle_changes_one_flag (name : string) (enabled : option bool)
    (x x' : Mcp.io) (s s' : Mcp.store) (r : Mcp.response) :
  Mcp.toggle name enabled x s = Mcp.Answer r s' → Mcp.status r = 200 →
  Mcp.read_error x' = false →
  ∃ sc,
    Mcp.servers_of (Mcp.config_file s) !! name = Some sc
    ∧ Mcp.body_of (Mcp.get name x' s')
      = Some (Mcp.Details
                {| Mcp.as_name := name;
                   Mcp.as_type := Mcp.as_type (Mcp.to_api name sc);
                   Mcp.as_command := Mcp.as_command (Mcp.to_api name sc);
                   Mcp.as_args := Mcp.as_args (Mcp.to_api name sc);
                   Mcp.as_url := Mcp.as_url (Mcp.to_api name sc);
                   Mcp.as_headers := Mcp.as_headers (Mcp.to_api name sc);
                   Mcp.as_env := Mcp.as_env (Mcp.to_api name sc);
                   Mcp.as_enabled := bool_decide (enabled ≠ Some false) |})
    ∧ ∃ sc', Mcp.servers_of (Mcp.config_file s') !! name = Some sc'
             ∧ Mcp.sc_other sc' = Mcp.sc_other sc.
Proof.
  intros Htg Hr Hx'.
  destruct (mcp_toggle_ok name enabled x s r s' Htg Hr) as (c & sc & Hread & Hsc & Hfile & _).
  exists sc. split; [by rewrite <- (mcp_read_servers x s c Hread)|]. split.
  - destruct (mcp_get_own name x' s' _ _ Hx' Hfile (lookup_insert_eq _ _ _)) as [_ ->].
    do 2 f_equal. unfold Mcp.to_api. simpl. f_equal. by destruct enabled as [[]|].
  - eexists. rewrite Hfile. simpl. by rewrite lookup_insert_eq.
Qed.

Lemma mcp_toggle_changes_one_flag_witness :
  ∃ r s',
    Mcp.toggle "files" (Some false) Mcp.sound McpScenario.with_files = Mcp.Answer r s'
    ∧ Mcp.status r = 200
    ∧ ∃ sc, Mcp.servers_of (Mcp.config_file McpScenario.with_files) !! "files" = Some sc
            ∧ Mcp.body_of (Mcp.get "files" Mcp.sound s')
              = Some (Mcp.Details
                        {| Mcp.as_name := "files"; Mcp.as_type := "stdio";
                           Mcp.as_command := Some "npx";
                           Mcp.as_args := ["-y"; "server-filesystem"]; Mcp.as_url := None;
                           Mcp.as_headers := ∅; Mcp.as_env := ∅; Mcp.as_enabled := false |}).
Proof.
  eexists _, _. split; [reflexivity|]. split; [reflexivity|].
  destruct (mcp_toggle_changes_one_flag "files" (Some false) Mcp.sound Mcp.sound
              McpScenario.with_files _ _ eq_refl eq_refl eq_refl) as (sc & Hsc & Hget & _).
  exists sc. split; [exact Hsc|].
  assert (Some sc = Some (Mcp.build McpScenario.files_body)) as [= ->]
    by (rewrite <- Hsc; reflexivity).
  exact Hget.
Defined.

(** X21: a POST /toggle whose body has no [enabled] answers that the
    server was "disabled successfully", and leaves it enabled: GET /get
    reports [enabled: true] afterwards. *)
Theorem mcp_toggle_without_flag (name : string) (x x' : Mcp.io) (s s' : Mcp.store)
    (r : Mcp.response) :
  Mcp.toggle name None x s = Mcp.Answer r s' → Mcp.status r = 200 →
  Mcp.read_error x' = false →
  Mcp.body r = Mcp.Toggled (Mcp.quoted name +:+ " disabled successfully") None
  ∧ ∃ a, Mcp.body_of (Mcp.get name x' s') = Some (Mcp.Details a)
         ∧ Mcp.as_enabled a = true.
Proof.
  intros Htg Hr Hx'.
  destruct (mcp_toggle_ok name None x s r s' Htg Hr) as (c & sc & Hread & Hsc & Hfile & Hbody).
  split; [exact Hbody|].
  destruct (mcp_get_own name x' s' _ _ Hx' Hfile (lookup_insert_eq _ _ _)) as [_ ->].
  by eexists.
Qed.

Lemma mcp_toggle_without_flag_witness :
  ∃ r s',
    Mcp.toggle "files" None Mcp.sound McpScenario.with_files = Mcp.Answer r s'
    ∧ Mcp.status r = 200
    ∧ Mcp.body r = Mcp.Toggled (Mcp.quoted "files" +:+ " disabled successfully") None
    ∧ ∃ a, Mcp.body_of (Mcp.get "files" Mcp.sound s') = Some (Mcp.Details a)
           ∧ Mcp.as_enabled a = true.
Proof.
  eexists _, _. split; [reflexivity|]. split; [reflexivity|].
  exact (mcp_toggle_without_flag "files" Mcp.sound Mcp.sound McpScenario.with_files _ _
           eq_refl eq_refl eq_refl).
Defined.

(** X22: PUT /update replaces the entry of an existing server by the one
    made of the request body alone; nothing of the old entry is kept, and
    GET /get afterwards returns the new one. *)
Theorem mcp_update_replaces_the_entry (name : string) (b : Mcp.server_body)
    (x x' : Mcp.io) (s s' : Mcp.store) (r : Mcp.response) :
  Mcp.update name b x s = Mcp.Answer r s' → Mcp.status r = 200 →
  is_Some (Mcp.servers_of (Mcp.config_file s) !! name) →
  Mcp.read_error x' = false →
  Mcp.servers_of (Mcp.config_file s')
  = <[name := Mcp.build b]> (Mcp.servers_of (Mcp.config_file s))
  ∧ Mcp.body_of (Mcp.get name x' s') = Some (Mcp.Details (Mcp.to_api name (Mcp.build b))).
Proof.
  intros Hup Hr Hown Hx'.
  destruct (mcp_update_ok name b x s r s' Hup Hr) as (c & Hread & _ & Hfile).
  rewrite <- (mcp_read_servers x s c Hread) in Hown |- *.
  rewrite mcp_assign_insert in Hfile by auto.
  split; [by rewrite Hfile|].
  by destruct (mcp_get_own name x' s' _ _ Hx' Hfile (lookup_insert_eq _ _ _)) as [_ ->].
Qed.

Lemma mcp_update_replaces_the_entry_witness :
  ∃ r s',
    Mcp.update "files" McpScenario.flag_body Mcp.sound McpScenario.with_files
    = Mcp.Answer r s'
    ∧ Mcp.status r = 200
    ∧ Mcp.servers_of (Mcp.config_file s')
      = <[ "files" := Mcp.build McpScenario.flag_body ]>
          (Mcp.servers_of (Mcp.config_file McpScenario.with_files)).
Proof.
  eexists _, _. split; [reflexivity|]. split; [reflexivity|].
  refine (proj1 (mcp_update_replaces_the_entry "files" McpScenario.flag_body Mcp.sound
                   Mcp.sound McpScenario.with_files _ _ eq_refl eq_refl _ eq_refl)).
  by eexists.
Defined.

(** X23: PUT /update checks nothing of the body. A body without [type]
    and [command], which POST /add refuses with 400, is accepted for an
    existing server when the file can be read and written; the server
    then has no command left and is reported as an "sse" server without
    URL and headers. *)
Theorem mcp_update_validates_nothing (name : string) (b : Mcp.server_body)
    (x : Mcp.io) (s : Mcp.store) (c : Mcp.config) :
  Mcp.config_file s = Mcp.Holds c →
  is_Some (default ∅ (Mcp.mcpServers c) !! name) →
  Mcp.read_error x = false → Mcp.mkdir_error x = false → Mcp.write_error x = false →
  Mcp.b_type b = None → Mcp.b_command b = None →
  Mcp.status_of (Mcp.add b x s) = Some 400
  ∧ ∃ r s',
      Mcp.update name b x s = Mcp.Answer r s' ∧ Mcp.status r = 200
      ∧ Mcp.body_of (Mcp.get name x s')
        = Some (Mcp.Details
                  {| Mcp.as_name := name; Mcp.as_type := "sse"; Mcp.as_command := None;
                     Mcp.as_args := default [] (Mcp.b_args b); Mcp.as_url := None;
                     Mcp.as_headers := ∅; Mcp.as_env := default ∅ (Mcp.b_env b);
                     Mcp.as_enabled := default true (Mcp.b_enabled b) |}).
Proof.
  intros Hs Hown Hx Hm Hw Ht Hc. split.
  - unfold Mcp.add. rewrite Ht, Hc. simpl. by repeat case_match.
  - assert (Mcp.lookup_server c name ≠ Mcp.Missing) as Hl.
    { destruct Hown as [sc Hsc]. apply mcp_lookup_own in Hsc. by rewrite Hsc. }
    unfold Mcp.update. cbv zeta.
    change (Mcp.readMcpConfig x (Mcp.say ?l s)) with (Mcp.readMcpConfig x s).
    rewrite (mcp_read_holds x s c Hx Hs).
    rewrite mcp_assign_insert by auto.
    destruct (mcp_write_sound x
                (Mcp.set_servers (<[name := Mcp.build b]> (default ∅ (Mcp.mcpServers c))) c)
                (Mcp.say (ConsoleLog ["🔄 Updating MCP server in Q Developer CLI config:";
                                      name]) s) Hm Hw) as (s1 & Hs1 & Hfile).
    rewrite Hs1.
    assert (Mcp.to_api name (Mcp.build b)
            = {| Mcp.as_name := name; Mcp.as_type := "sse"; Mcp.as_command := None;
                 Mcp.as_args := default [] (Mcp.b_args b); Mcp.as_url := None;
                 Mcp.as_headers := ∅; Mcp.as_env := default ∅ (Mcp.b_env b);
                 Mcp.as_enabled := default true (Mcp.b_enabled b) |}) as <-.
    { unfold Mcp.build, Mcp.to_api. rewrite Ht, Hc. simpl.
      rewrite mcp_size_default, mcp_length_default. f_equal.
      by destruct (Mcp.b_enabled b) as [[]|]. }
    destruct (Mcp.lookup_server c name) eqn:Hl'; [| |done].
    all: eexists _, _; split; [done|]; split; [done|].
    all: eapply mcp_get_own; [done|exact Hfile|]; simpl; apply lookup_insert_eq.
Qed.

Lemma mcp_update_validates_nothing_witness :
  Mcp.status_of (Mcp.add McpScenario.flag_body Mcp.sound McpScenario.with_files) = Some 400
  ∧ ∃ r s',
      Mcp.update "files" McpScenario.flag_body Mcp.sound McpScenario.with_files
      = Mcp.Answer r s'
      ∧ Mcp.status r = 200
      ∧ Mcp.body_of (Mcp.get "files" Mcp.sound s')
        = Some (Mcp.Details
                  {| Mcp.as_name := "files"; Mcp.as_type := "sse"; Mcp.as_command := None;
                     Mcp.as_args := []; Mcp.as_url := None; Mcp.as_headers := ∅;
                     Mcp.as_env := ∅; Mcp.as_enabled := false |}).
Proof.
  refine (mcp_update_validates_nothing "files" McpScenario.flag_body Mcp.sound
            McpScenario.with_files
            {| Mcp.mcpServers := Some {[ "files" := Mcp.build McpScenario.files_body ]};
               Mcp.rest := ∅ |} eq_refl _ eq_refl eq_refl eq_refl eq_refl eq_refl).
  by eexists.
Defined.

(** X24: a configuration file that does not exist reads as one without
    servers and is not created by reading: GET /list answers 200 with
    an empty list and GET /get answers 404, the file still missing. The
    first successful POST /add creates the file, holding that one server
    and nothing else. *)
Theorem mcp_missing_file_reads_as_empty (x : Mcp.io) (s : Mcp.store) :
  Mcp.config_file s = Mcp.Absent → Mcp.read_error x = false →
  Mcp.status_of (Mcp.list x s) = Some 200
  ∧ Mcp.body_of (Mcp.list x s) = Some (Mcp.Servers ∅)
  ∧ Mcp.file_after (Mcp.list x s) = Some Mcp.Absent
  ∧ (∀ name, Mcp.inherited name = false →
             Mcp.status_of (Mcp.get name x s) = Some 404
             ∧ Mcp.file_after (Mcp.get name x s) = Some Mcp.Absent)
  ∧ (∀ b name r s', Mcp.add b x s = Mcp.Answer r s' → Mcp.status r = 200 →
       Mcp.b_name b = Some name →
       Mcp.config_file s'
       = Mcp.Holds {| Mcp.mcpServers := Some {[ name := Mcp.build b ]}; Mcp.rest := ∅ |}).
Proof.
  intros Hs Hx.
  assert (Mcp.readMcpConfig x s = Ok {| Mcp.mcpServers := Some ∅; Mcp.rest := ∅ |}) as Hread.
  { unfold Mcp.readMcpConfig. by rewrite Hx, Hs. }
  destruct (mcp_list_ok x s _ Hread) as [Hst Hbody].
  split; [done|]. split; [by rewrite Hbody, Hs|]. split; [|split].
  - unfold Mcp.list. cbv zeta.
    change (Mcp.readMcpConfig x (Mcp.say ?l s)) with (Mcp.readMcpConfig x s).
    rewrite Hread. simpl. by rewrite Hs.
  - intros name Hin. unfold Mcp.get. cbv zeta.
    change (Mcp.readMcpConfig x (Mcp.say ?l s)) with (Mcp.readMcpConfig x s).
    rewrite Hread. unfold Mcp.lookup_server. simpl. rewrite lookup_empty, Hin. simpl.
    by rewrite Hs.
  - intros b name r s' Hadd Hr Hname.
    destruct (mcp_add_ok b x s r s' Hadd Hr)
      as (name' & c & Hname' & Hread' & Hl & Hfile & _).
    assert (name' = name) as -> by congruence.
    assert (c = {| Mcp.mcpServers := Some ∅; Mcp.rest := ∅ |}) as -> by congruence.
    apply mcp_lookup_missing in Hl as [_ [Hin|?]]; [|done].
    rewrite mcp_assign_insert in Hfile; [done|].
    left. intros ->. done.
Qed.

Lemma mcp_missing_file_reads_as_empty_witness :
  Mcp.status_of (Mcp.list Mcp.sound McpScenario.fresh) = Some 200
  ∧ Mcp.body_of (Mcp.list Mcp.sound McpScenario.fresh) = Some (Mcp.Servers ∅)
  ∧ Mcp.file_after (Mcp.list Mcp.sound McpScenario.fresh) = Some Mcp.Absent.
Proof.
  destruct (mcp_missing_file_reads_as_empty Mcp.sound McpScenario.fresh eq_refl eq_refl)
    as (H1 & H2 & H3 & _).
  exact (conj H1 (conj H2 H3)).
Defined.

(** X25: POST /config stores the configuration it is given without
    reading the file, so also over a file that is not JSON, and GET
    /config then returns that configuration together with the path of
    the file. *)
Theorem mcp_post_config_then_get_config (c : Mcp.config) (homedir : string)
    (x x' : Mcp.io) (s s' : Mcp.store) (r : Mcp.response) :
  Mcp.post_config (Some c) x s = Mcp.Answer r s' → Mcp.status r = 200 →
  Mcp.read_error x' = false →
  Mcp.config_file s' = Mcp.Holds c
  ∧ Mcp.status_of (Mcp.get_config homedir x' s') = Some 200
  ∧ Mcp.body_of (Mcp.get_config homedir x' s')
    = Some (Mcp.Raw c (path_join [homedir; ".aws"; "amazonq"; "mcp.json"])).
Proof.
  intros Hpost Hr Hx'. unfold Mcp.post_config, Mcp.failed in Hpost. cbv zeta in Hpost.
  destruct (Mcp.writeMcpConfig _ _ _) as [[[]|err] s1] eqn:Hw; [|by simplify_eq/=].
  apply mcp_write_ok in Hw. simplify_eq/=.
  assert (Mcp.config_file
            (Mcp.say (ConsoleLog ["✅ MCP configuration updated successfully"]) s1)
          = Mcp.Holds c) as Hfile by done.
  split; [done|]. unfold Mcp.get_config. cbv zeta.
  change (Mcp.readMcpConfig x' (Mcp.say ?l ?s0)) with (Mcp.readMcpConfig x' s0).
  by rewrite (mcp_read_holds x' _ c Hx' Hfile).
Qed.

Lemma mcp_post_config_then_get_config_witness :
  ∃ r s',
    Mcp.post_config (Some {| Mcp.mcpServers := None; Mcp.rest := ∅ |}) Mcp.sound
      McpScenario.broken = Mcp.Answer r s'
    ∧ Mcp.status r = 200
    ∧ Mcp.config_file s' = Mcp.Holds {| Mcp.mcpServers := None; Mcp.rest := ∅ |}
    ∧ Mcp.status_of (Mcp.get_config "/home/u" Mcp.sound s') = Some 200.
Proof.
  eexists _, _. split; [reflexivity|]. split; [reflexivity|].
  destruct (mcp_post_config_then_get_config {| Mcp.mcpServers := None; Mcp.rest := ∅ |}
              "/home/u" Mcp.sound Mcp.sound McpScenario.broken _ _ eq_refl eq_refl eq_refl)
    as (H1 & H2 & _).
  exact (conj H1 H2).
Defined.

(** X26: GET /list and GET /get agree. Every server of the list carries
    the name it is listed under and is what GET /get returns for that
    name; for a name that is not in the list (and not one of the
    inherited ones) GET /get answers 404. *)
Theorem mcp_list_agrees_with_get (x : Mcp.io) (s : Mcp.store)
    (m : gmap string Mcp.api_server) :
  Mcp.body_of (Mcp.list x s) = Some (Mcp.Servers m) →
  (∀ name a, m !! name = Some a →
     Mcp.as_name a = name ∧ Mcp.body_of (Mcp.get name x s) = Some (Mcp.Details a))
  ∧ (∀ name, m !! name = None → Mcp.inherited name = false →
       Mcp.status_of (Mcp.get name x s) = Some 404).
Proof.
  unfold Mcp.list, Mcp.get, Mcp.failed. cbv zeta.
  change (Mcp.readMcpConfig x (Mcp.say ?l s)) with (Mcp.readMcpConfig x s).
  destruct (Mcp.readMcpConfig x s) as [c|err]; [|done].
  intros [= <-]. split.
  - intros name a. rewrite map_lookup_imap.
    destruct (default ∅ (Mcp.mcpServers c) !! name) as [sc|] eqn:Hsc; [|done].
    intros [= <-]. apply mcp_lookup_own in Hsc. by rewrite Hsc.
  - intros name. rewrite map_lookup_imap.
    destruct (default ∅ (Mcp.mcpServers c) !! name) as [sc|] eqn:Hsc; [done|].
    intros _ Hin. unfold Mcp.lookup_server. destruct (Mcp.mcpServers c); [|done].
    simpl in Hsc. by rewrite Hsc, Hin.
Qed.

Lemma mcp_list_agrees_with_get_witness :
  ∃ m a,
    Mcp.body_of (Mcp.list Mcp.sound McpScenario.with_files) = Some (Mcp.Servers m)
    ∧ m !! "files" = Some a
    ∧ Mcp.as_name a = "files"
    ∧ Mcp.body_of (Mcp.get "files" Mcp.sound McpScenario.with_files) = Some (Mcp.Details a).
Proof.
  eexists _, _. split; [reflexivity|].
  assert (∀ (P Q : Prop) (q : Q), (Q → P) → Q ∧ P) as pair by (intros P Q q f; exact (conj q (f q))).
  apply pair; [by vm_compute|].
  exact (proj1 (mcp_list_agrees_with_get Mcp.sound McpScenario.with_files _ eq_refl)
           "files" _).
Defined.

(** X27: a configuration file that is not JSON blocks every route that
    reads it: GET /list, /get and /config, PUT /update, DELETE /remove
    and POST /toggle answer 500, POST /add answers 400 or 500, and the
    file stays as it is. POST /config is the one route that replaces it,
    when the file can be written. *)
Theorem mcp_garbled_file_blocks_the_routes (x : Mcp.io) (s : Mcp.store) :
  Mcp.config_file s = Mcp.Garbled →
  Mcp.status_of (Mcp.list x s) = Some 500
  ∧ (∀ name, Mcp.status_of (Mcp.get name x s) = Some 500)
  ∧ (∀ homedir, Mcp.status_of (Mcp.get_config homedir x s) = Some 500)
  ∧ (∀ name b, Mcp.status_of (Mcp.update name b x s) = Some 500
               ∧ Mcp.file_after (Mcp.update name b x s) = Some Mcp.Garbled)
  ∧ (∀ name, Mcp.status_of (Mcp.remove name x s) = Some 500
             ∧ Mcp.file_after (Mcp.remove name x s) = Some Mcp.Garbled)
  ∧ (∀ name enabled, Mcp.status_of (Mcp.toggle name enabled x s) = Some 500
                     ∧ Mcp.file_after (Mcp.toggle name enabled x s) = Some Mcp.Garbled)
  ∧ (∀ b, (Mcp.status_of (Mcp.add b x s) = Some 400
           ∨ Mcp.status_of (Mcp.add b x s) = Some 500)
          ∧ Mcp.file_after (Mcp.add b x s) = Some Mcp.Garbled)
  ∧ (∀ c, Mcp.mkdir_error x = false → Mcp.write_error x = false →
          Mcp.status_of (Mcp.post_config (Some c) x s) = Some 200
          ∧ Mcp.file_after (Mcp.post_config (Some c) x s) = Some (Mcp.Holds c)).
Proof.
  intros Hs. destruct (mcp_read_garbled x s Hs) as [err Hread].
  split; [|split; [|split; [|split; [|split; [|split; [|split]]]]]].
  - unfold Mcp.list. cbv zeta.
    change (Mcp.readMcpConfig x (Mcp.say ?l s)) with (Mcp.readMcpConfig x s).
    by rewrite Hread.
  - intros name. unfold Mcp.get. cbv zeta.
    change (Mcp.readMcpConfig x (Mcp.say ?l s)) with (Mcp.readMcpConfig x s).
    by rewrite Hread.
  - intros homedir. unfold Mcp.get_config. cbv zeta.
    change (Mcp.readMcpConfig x (Mcp.say ?l s)) with (Mcp.readMcpConfig x s).
    by rewrite Hread.
  - intros name b. unfold Mcp.update. cbv zeta.
    change (Mcp.readMcpConfig x (Mcp.say ?l s)) with (Mcp.readMcpConfig x s).
    rewrite Hread. simpl. by rewrite Hs.
  - intros name. unfold Mcp.remove. cbv zeta.
    change (Mcp.readMcpConfig x (Mcp.say ?l s)) with (Mcp.readMcpConfig x s).
    rewrite Hread. simpl. by rewrite Hs.
  - intros name enabled. unfold Mcp.toggle. cbv zeta.
    change (Mcp.readMcpConfig x (Mcp.say ?l s)) with (Mcp.readMcpConfig x s).
    rewrite Hread. simpl. by rewrite Hs.
  - intros b. unfold Mcp.add. cbv zeta.
    change (Mcp.readMcpConfig x (Mcp.say ?l s)) with (Mcp.readMcpConfig x s).
    rewrite Hread. repeat case_match; simpl; rewrite ?Hs; auto.
  - intros c Hm Hw. unfold Mcp.post_config. cbv zeta.
    destruct (mcp_write_sound x c
                (Mcp.say (ConsoleLog ["💾 Updating raw MCP configuration"]) s) Hm Hw)
      as (s1 & -> & Hs1).
    simpl. by rewrite Hs1.
Qed.

Lemma mcp_garbled_file_blocks_the_routes_witness :
  Mcp.status_of (Mcp.list Mcp.sound McpScenario.broken) = Some 500
  ∧ Mcp.status_of (Mcp.get "files" Mcp.sound McpScenario.broken) = Some 500.
Proof.
  destruct (mcp_garbled_file_blocks_the_routes Mcp.sound McpScenario.broken eq_refl)
    as (H1 & H2 & _).
  exact (conj H1 (H2 "files")).
Defined.

Lemma mcp_change_kept x s c servers other f :
  Mcp.readMcpConfig x s = Ok c →
  f = Mcp.Holds (Mcp.set_servers servers c) →
  servers !! other = default ∅ (Mcp.mcpServers c) !! other →
  Mcp.servers_of f !! other = Mcp.servers_of (Mcp.config_file s) !! other
  ∧ ∀ c0, Mcp.config_file s = Mcp.Holds c0 →
          ∃ c', f = Mcp.Holds c' ∧ Mcp.rest c' = Mcp.rest c0.
Proof.
  intros Hread -> Hother. split.
  - simpl. by rewrite Hother, (mcp_read_servers x s c Hread).
  - intros c0 Hc0. rewrite (mcp_read_rest x s c c0 Hread Hc0). by eexists.
Qed.

Lemma mcp_same_kept s other f :
  Some f = Some (Mcp.config_file s) →
  Mcp.servers_of f !! other = Mcp.servers_of (Mcp.config_file s) !! other
  ∧ ∀ c0, Mcp.config_file s = Mcp.Holds c0 →
          ∃ c', f = Mcp.Holds c' ∧ Mcp.rest c' = Mcp.rest c0.
Proof. intros [= ->]. split; [done|]. intros c0 ->. by eexists. Qed.

(** X28: a request for one server leaves the others alone. Whatever
    POST /add, PUT /update, DELETE /remove or POST /toggle answer for a
    name, every server of another name is in the file afterwards exactly
    as before, and so are the top-level keys of the file other than
    [mcpServers]. The one exception is the request that fails with 500
    in a write that had already opened the file: it leaves a file that
    is not JSON, with no server in it. *)
Theorem mcp_routes_touch_one_server (name other : string) (x : Mcp.io) (s : Mcp.store) :
  other ≠ name →
  let kept (a : Mcp.answer) :=
    ∀ f, Mcp.file_after a = Some f →
      (Mcp.servers_of f !! other = Mcp.servers_of (Mcp.config_file s) !! other
       ∧ ∀ c, Mcp.config_file s = Mcp.Holds c →
              ∃ c', f = Mcp.Holds c' ∧ Mcp.rest c' = Mcp.rest c)
      ∨ (Mcp.status_of a = Some 500 ∧ Mcp.write_error x = true
         ∧ Mcp.write_after_open x = true ∧ f = Mcp.Garbled) in
  (∀ b, Mcp.b_name b = Some name → kept (Mcp.add b x s))
  ∧ (∀ b, kept (Mcp.update name b x s))
  ∧ kept (Mcp.remove name x s)
  ∧ (∀ enabled, kept (Mcp.toggle name enabled x s)).
Proof.
  intros Hne kept. subst kept. cbv beta.
  assert (∀ a f, Mcp.left_or_cut x s a → Mcp.file_after a = Some f →
            (Mcp.servers_of f !! other = Mcp.servers_of (Mcp.config_file s) !! other
             ∧ ∀ c, Mcp.config_file s = Mcp.Holds c →
                    ∃ c', f = Mcp.Holds c' ∧ Mcp.rest c' = Mcp.rest c)
            ∨ (Mcp.status_of a = Some 500 ∧ Mcp.write_error x = true
               ∧ Mcp.write_after_open x = true ∧ f = Mcp.Garbled)) as Hrefused.
  { intros a f [Hsame|(Hst & Hwe & Hcut & Hg)] Hf.
    - left. apply mcp_same_kept. congruence.
    - right. repeat split; try done. congruence. }
  split; [|split; [|split]].
  - intros b Hname f Hf.
    destruct (Mcp.add b x s) as [r s'|] eqn:Ha; [|done].
    destruct (decide (Mcp.status r = 200)) as [Hr|Hr].
    + left. destruct (mcp_add_ok b x s r s' Ha Hr)
        as (name' & c & Hname' & Hread & _ & Hfile & _).
      assert (name' = name) as -> by congruence.
      simpl in Hf. injection Hf as <-.
      apply (mcp_change_kept x s c _ other _ Hread Hfile).
      by apply mcp_assign_other.
    + apply Hrefused; [|done]. rewrite <- Ha. apply mcp_add_refused.
      rewrite Ha. simpl. congruence.
  - intros b f Hf.
    destruct (Mcp.update name b x s) as [r s'|] eqn:Ha; [|done].
    destruct (decide (Mcp.status r = 200)) as [Hr|Hr].
    + left. destruct (mcp_update_ok name b x s r s' Ha Hr) as (c & Hread & _ & Hfile).
      simpl in Hf. injection Hf as <-.
      apply (mcp_change_kept x s c _ other _ Hread Hfile).
      by apply mcp_assign_other.
    + apply Hrefused; [|done]. rewrite <- Ha. apply mcp_update_refused.
      rewrite Ha. simpl. congruence.
  - intros f Hf.
    destruct (Mcp.remove name x s) as [r s'|] eqn:Ha; [|done].
    destruct (decide (Mcp.status r = 200)) as [Hr|Hr].
    + left. destruct (mcp_remove_ok name x s r s' Ha Hr) as (c & Hread & _ & Hfile).
      simpl in Hf. injection Hf as <-.
      apply (mcp_change_kept x s c _ other _ Hread Hfile).
      by apply lookup_delete_ne.
    + apply Hrefused; [|done]. rewrite <- Ha. apply mcp_remove_refused.
      rewrite Ha. simpl. congruence.
  - intros enabled f Hf.
    destruct (Mcp.toggle name enabled x s) as [r s'|] eqn:Ha; [|done].
    destruct (decide (Mcp.status r = 200)) as [Hr|Hr].
    + left. destruct (mcp_toggle_ok name enabled x s r s' Ha Hr)
        as (c & sc & Hread & _ & Hfile & _).
      simpl in Hf. injection Hf as <-.
      apply (mcp_change_kept x s c _ other _ Hread Hfile).
      by apply lookup_insert_ne.
    + apply Hrefused; [|done]. rewrite <- Ha.
      destruct (mcp_toggle_refused name enabled x s) as [Hn|Hk]; [|congruence|done].
      rewrite Ha. simpl. congruence.
Qed.

Lemma mcp_routes_touch_one_server_witness :
  ∃ f, Mcp.file_after (Mcp.remove "other" Mcp.sound McpScenario.with_files) = Some f
       ∧ Mcp.servers_of f !! "files"
         = Mcp.servers_of (Mcp.config_file McpScenario.with_files) !! "files".
Proof.
  eexists. split; [reflexivity|].
  assert ("files" ≠ "other") as Hne by done.
  destruct (proj1 (proj2 (proj2 (mcp_routes_touch_one_server "other" "files" Mcp.sound
                                   McpScenario.with_files Hne))) _ eq_refl)
    as [[H _]|(_ & H & _)]; [exact H|discriminate H].
Defined.

(** X29: a server named "__proto__" is never stored. When POST /add
    answers 200 for that name (which it does on a file without
    [mcpServers]), the answer says the server was added and shows it,
    while the file holds no server at all; GET /get then returns a
    server of that name with no command and no URL. *)
Theorem mcp_proto_is_never_stored (b : Mcp.server_body) (x : Mcp.io) (s s' : Mcp.store)
    (r : Mcp.response) :
  Mcp.b_name b = Some "__proto__" →
  Mcp.add b x s = Mcp.Answer r s' → Mcp.status r = 200 →
  Mcp.body r
  = Mcp.Saved (Mcp.quoted "__proto__" +:+ " added successfully") "__proto__" (Mcp.build b)
  ∧ Mcp.servers_of (Mcp.config_file s') = ∅
  ∧ (∀ x', Mcp.read_error x' = false →
           Mcp.body_of (Mcp.get "__proto__" x' s')
           = Some (Mcp.Details (Mcp.phantom "__proto__"))).
Proof.
  intros Hname Hadd Hr.
  destruct (mcp_add_ok b x s r s' Hadd Hr)
    as (name & c & Hname' & Hread & Hl & Hfile & Hbody & _).
  assert (name = "__proto__") as -> by congruence.
  apply mcp_lookup_missing in Hl as [_ [Hin|Hnone]]; [done|].
  rewrite Hnone in Hfile. simpl in Hfile.
  split; [done|]. split; [by rewrite Hfile|].
  intros x' Hx'. unfold Mcp.get. cbv zeta.
  change (Mcp.readMcpConfig x' (Mcp.say ?l s')) with (Mcp.readMcpConfig x' s').
  by rewrite (mcp_read_holds x' s' _ Hx' Hfile).
Qed.

Lemma mcp_proto_is_never_stored_witness :
  ∃ r s',
    Mcp.add McpScenario.proto_body Mcp.sound McpScenario.no_servers = Mcp.Answer r s'
    ∧ Mcp.status r = 200
    ∧ Mcp.body r
      = Mcp.Saved (Mcp.quoted "__proto__" +:+ " added successfully") "__proto__"
          (Mcp.build McpScenario.proto_body)
    ∧ Mcp.servers_of (Mcp.config_file s') = ∅.
Proof.
  eexists _, _. split; [reflexivity|]. split; [reflexivity|].
  destruct (mcp_proto_is_never_stored McpScenario.proto_body Mcp.sound
              McpScenario.no_servers _ _ eq_refl eq_refl eq_refl) as (H1 & H2 & _).
  exact (conj H1 H2).
Defined.
